(** * Vinted deal-alert bot: token lifecycle, transport and action client

    A shallow embedding of the resilient API client of the bot
    (checkout-classification.ts, vinted-token-service.ts and
    vinted-client.ts) together with the properties of its behaviour. *)

From Stdlib Require Import ZArith NArith QArith List Ascii String Bool Lia.
From stdpp Require Import gmap strings list fin_maps.

Import ListNotations.
Local Open Scope string_scope.
Local Open Scope Z_scope.

(** ** JavaScript strings

    A JS string is a sequence of UTF-16 code units.  The embedding uses
    Rocq strings whose characters are the code units below 256 (Basic
    Latin and Latin-1 Supplement), which covers the keywords the client
    looks for and the German and French messages of the upstream API. *)

Module Js.

Definition code (c : ascii) : Z := Z.of_N (N_of_ascii c).

Definition ofCode (n : Z) : ascii := ascii_of_N (Z.to_N n).

Definition between (lo hi n : Z) : bool := (lo <=? n) && (n <=? hi).

(** [String.prototype.toLowerCase] on one code unit: A-Z and the
    Latin-1 capitals (all of U+00C0..U+00DE but the multiplication
    sign) move 32 up. *)
Definition lowerChar (c : ascii) : ascii :=
  let n := code c in
  if between 65 90 n || (between 192 222 n && negb (n =? 215))
  then ofCode (n + 32) else c.

Fixpoint toLowerCase (s : string) : string :=
  match s with
  | EmptyString => EmptyString
  | String c r => String (lowerChar c) (toLowerCase r)
  end.

(** [s.startsWith(p)] *)
Fixpoint startsWith (p s : string) : bool :=
  match p, s with
  | EmptyString, _ => true
  | String a p', String b s' => Ascii.eqb a b && startsWith p' s'
  | String _ _, EmptyString => false
  end.

(** [s.includes(needle)] *)
Fixpoint includes (s needle : string) : bool :=
  startsWith needle s ||
  match s with
  | EmptyString => false
  | String _ r => includes r needle
  end.

(** The one-character string holding a double quote. *)
Definition dq : string := String (ascii_of_nat 34) EmptyString.

Definition isDigit (c : ascii) : bool := between 48 57 (code c).

Definition digitValue (c : ascii) : Z := code c - 48.

(** White space of [String.prototype.trim] below U+0100: TAB, LF, VT,
    FF, CR, SPACE and NO-BREAK SPACE. *)
Definition isSpace (c : ascii) : bool :=
  let n := code c in between 9 13 n || (n =? 32) || (n =? 160).

Fixpoint trimStart (s : string) : string :=
  match s with
  | String c r => if isSpace c then trimStart r else s
  | EmptyString => EmptyString
  end.

Fixpoint trimEnd (s : string) : string :=
  match s with
  | EmptyString => EmptyString
  | String c r =>
      match trimEnd r with
      | EmptyString => if isSpace c then EmptyString else String c EmptyString
      | r' => String c r'
      end
  end.

Definition trim (s : string) : string := trimEnd (trimStart s).

(** [s.length === 0] *)
Definition isEmpty (s : string) : bool :=
  match s with EmptyString => true | String _ _ => false end.

(** [s.indexOf(c)] for a one-character needle; [None] stands for -1. *)
Fixpoint indexOfChar (c : ascii) (s : string) : option nat :=
  match s with
  | EmptyString => None
  | String a r =>
      if Ascii.eqb a c then Some O
      else option_map S (indexOfChar c r)
  end.

(** [s.slice(0, n)] and [s.slice(n)] for [0 <= n]. *)
Fixpoint take (n : nat) (s : string) : string :=
  match n, s with
  | S n', String c r => String c (take n' r)
  | _, _ => EmptyString
  end.

Fixpoint drop (n : nat) (s : string) : string :=
  match n, s with
  | S n', String _ r => drop n' r
  | _, _ => s
  end.

(** [s.split(sep)] for a one-character separator. *)
Fixpoint splitOn (sep : ascii) (s : string) : list string :=
  match s with
  | EmptyString => [EmptyString]
  | String c r =>
      if Ascii.eqb c sep then EmptyString :: splitOn sep r
      else match splitOn sep r with
           | p :: ps => String c p :: ps
           | [] => [String c EmptyString]
           end
  end.

(** Decimal rendering of an integer, as [BigInt.prototype.toString]
    and [String(n)] for an integer-valued number give it. *)
Definition digitChar (d : Z) : ascii := ofCode (48 + d).

Fixpoint natDigits (fuel : nat) (n : Z) (acc : string) : string :=
  match fuel with
  | O => acc
  | S f =>
      let acc' := String (digitChar (n mod 10)) acc in
      if n <? 10 then acc' else natDigits f (n / 10) acc'
  end.

Definition decimal (z : Z) : string :=
  if z <? 0 then String "-"%char (natDigits (Z.to_nat (Z.log2 (- z)) + 1) (- z) EmptyString)
  else natDigits (Z.to_nat (Z.log2 z) + 1) z EmptyString.

(** [s.endsWith(suffix)] *)
Definition endsWith (suffix s : string) : bool :=
  (String.length suffix <=? String.length s)%nat &&
  String.eqb (drop (String.length s - String.length suffix) s) suffix.

(** The one-character string of a code unit. *)
Definition chr (n : Z) : string := String (ofCode n) EmptyString.

End Js.

(** ** checkout-classification.ts *)

Module CheckoutClassification.

Inductive CheckoutFailureStatus :=
  | blocked
  | access_denied
  | invalid_pickup_point
  | failed.

(** The regular expression [\((\d{3})\)] anchored at the start of [s]. *)
Definition statusCodeAt (s : string) : option Z :=
  match s with
  | String "("%char (String d1 (String d2 (String d3 (String ")"%char _)))) =>
      if Js.isDigit d1 && Js.isDigit d2 && Js.isDigit d3
      then Some (100 * Js.digitValue d1 + 10 * Js.digitValue d2 + Js.digitValue d3)
      else None
  | _ => None
  end.

(** [message.match(/\((\d{3})\)/)]: the leftmost match, parsed in base 10. *)
Fixpoint extractStatusCode (message : string) : option Z :=
  match statusCodeAt message with
  | Some n => Some n
  | None =>
      match message with
      | EmptyString => None
      | String _ r => extractStatusCode r
      end
  end.

(** Canonical decomposition of the accented Latin-1 letters: the base
    letter followed by one combining mark.  [k] is the position of the
    letter in its row of 32 (U+00C0.. or U+00E0..) and [up] tells the
    capital row from the small one. *)
Definition accentOf (k : Z) (up : bool) : option (Z * Z) :=
  let base (c : Z) := if up then c else c + 32 in
  let mark4 (i : Z) :=
    if i =? 0 then 768 else if i =? 1 then 769 else if i =? 2 then 770 else 776 in
  let mark5 (i : Z) :=
    if i =? 0 then 768 else if i =? 1 then 769 else if i =? 2 then 770
    else if i =? 3 then 771 else 776 in
  if Js.between 0 4 k then Some (base 65, mark5 k)
  else if k =? 5 then Some (base 65, 778)
  else if k =? 7 then Some (base 67, 807)
  else if Js.between 8 11 k then Some (base 69, mark4 (k - 8))
  else if Js.between 12 15 k then Some (base 73, mark4 (k - 12))
  else if k =? 17 then Some (base 78, 771)
  else if Js.between 18 22 k then Some (base 79, mark5 (k - 18))
  else if Js.between 25 28 k then Some (base 85, mark4 (k - 25))
  else if k =? 29 then Some (base 89, 769)
  else if (k =? 31) && negb up then Some (121, 776)
  else None.

(** [normalize('NFKD')] of one code unit below 256, as code points. *)
Definition nfkd (c : ascii) : list Z :=
  let n := Js.code c in
  if n =? 160 then [32]
  else if n =? 168 then [32; 776]
  else if n =? 170 then [97]
  else if n =? 175 then [32; 772]
  else if n =? 178 then [50]
  else if n =? 179 then [51]
  else if n =? 180 then [32; 769]
  else if n =? 181 then [956]
  else if n =? 184 then [32; 807]
  else if n =? 185 then [49]
  else if n =? 186 then [111]
  else if n =? 188 then [49; 8260; 52]
  else if n =? 189 then [49; 8260; 50]
  else if n =? 190 then [51; 8260; 52]
  else if Js.between 192 255 n then
    match accentOf ((n - 192) mod 32) (n <? 224) with
    | Some (b, m) => [b; m]
    | None => [n]
    end
  else [n].

(** [\p{M}] on the code points [nfkd] produces: the block of combining
    diacritical marks U+0300..U+036F. *)
Definition isMark (cp : Z) : bool := Js.between 768 879 cp.

Fixpoint codePoints (s : string) : list Z :=
  match s with
  | EmptyString => []
  | String c r => Js.code c :: codePoints r
  end.

Fixpoint normalizeChars (s : string) : list Z :=
  match s with
  | EmptyString => []
  | String c r => filter (fun cp => negb (isMark cp)) (nfkd c) ++ normalizeChars r
  end.

(** [value.toLowerCase().normalize('NFKD').replace(/\p{M}/gu, '')] *)
Definition normalizeForMatch (value : string) : list Z :=
  normalizeChars (Js.toLowerCase value).

Fixpoint startsWithCp (p s : list Z) : bool :=
  match p, s with
  | [], _ => true
  | a :: p', b :: s' => (a =? b) && startsWithCp p' s'
  | _ :: _, [] => false
  end.

Fixpoint includesCp (s needle : list Z) : bool :=
  startsWithCp needle s ||
  match s with
  | [] => false
  | _ :: r => includesCp r needle
  end.

Definition statusIs (statusCode : option Z) (n : Z) : bool :=
  match statusCode with
  | Some k => k =? n
  | None => false
  end.

Definition statusIsNull (statusCode : option Z) : bool :=
  match statusCode with
  | Some _ => false
  | None => true
  end.

Definition classifyCheckoutErrorMessage (message : string) : CheckoutFailureStatus :=
  let lower := Js.toLowerCase message in
  let normalized := normalizeForMatch message in
  let statusCode := extractStatusCode message in
  let hasAccessDeniedHint :=
    Js.includes lower (Js.dq +:+ "message_code" +:+ Js.dq +:+ ":" +:+ Js.dq +:+ "access_denied" +:+ Js.dq) ||
    Js.includes lower ("message_code" +:+ Js.dq +:+ ":" +:+ Js.dq +:+ "access_denied") ||
    Js.includes lower "message_code=access_denied" ||
    Js.includes lower "access_denied" ||
    Js.includes lower (Js.dq +:+ "code" +:+ Js.dq +:+ ":106") ||
    Js.includes lower "access denied" ||
    includesCp normalized (codePoints "acces refuse") in
  if hasAccessDeniedHint &&
     (statusIs statusCode 401 || statusIs statusCode 403 || statusIsNull statusCode)
  then access_denied
  else if Js.includes lower "blockiert" ||
          Js.includes lower "cloudflare" ||
          Js.includes lower "captcha" ||
          Js.includes lower "just a moment" ||
          statusIs statusCode 403
  then blocked
  else
    let hasPickupHint :=
      Js.includes lower "pickup" ||
      Js.includes lower "abholpunkt" ||
      Js.includes lower "relay" ||
      Js.includes lower "parcel" in
    if hasPickupHint &&
       (statusIs statusCode 400 || statusIs statusCode 404 || statusIs statusCode 422)
    then invalid_pickup_point
    else if hasPickupHint then invalid_pickup_point
    else failed.

End CheckoutClassification.

(** ** neverthrow results *)

Inductive Result (T E : Type) :=
  | ok (value : T)
  | err (error : E).

Arguments ok {T E} value.
Arguments err {T E} error.

Definition isErr {T E} (r : Result T E) : bool :=
  match r with ok _ => false | err _ => true end.

Definition isOk {T E} (r : Result T E) : bool := negb (isErr r).

(** ** regions.ts *)

Module Regions.

Inductive VintedRegion := de | at' | fr | it | es | nl | pl | cz | pt.

Definition baseUrlForRegion (region : VintedRegion) : string :=
  match region with
  | de => "https://www.vinted.de"
  | at' => "https://www.vinted.at"
  | fr => "https://www.vinted.fr"
  | it => "https://www.vinted.it"
  | es => "https://www.vinted.es"
  | nl => "https://www.vinted.nl"
  | pl => "https://www.vinted.pl"
  | cz => "https://www.vinted.cz"
  | pt => "https://www.vinted.pt"
  end.

Definition parseRegion (region : string) : Result VintedRegion string :=
  if String.eqb region "de" then ok de
  else if String.eqb region "at" then ok at'
  else if String.eqb region "fr" then ok fr
  else if String.eqb region "it" then ok it
  else if String.eqb region "es" then ok es
  else if String.eqb region "nl" then ok nl
  else if String.eqb region "pl" then ok pl
  else if String.eqb region "cz" then ok cz
  else if String.eqb region "pt" then ok pt
  else err ("Nicht unterst" +:+ Js.chr 252 +:+ "tzte Region.").

End Regions.

Abbreviation VintedRegion := Regions.VintedRegion.
Abbreviation baseUrlForRegion := Regions.baseUrlForRegion.
Abbreviation parseRegion := Regions.parseRegion.

(** ** vinted-token-service.ts

    The four module-level maps are the fields of [State].  [Date.now()]
    is an explicit argument, in milliseconds.  An asynchronous call of
    [getAccessTokenForUser] is split where it suspends: [enter] is the
    part that runs when the function is called, up to the first
    [await]; [settle] is the rest of the refresh, run when the answer
    of the refresh operation has arrived, followed by the [finally]
    block of the caller that started it. *)

Module TokenService.

Record CachedToken := {
  accessToken : string;
  refreshToken : string;
  expiresAtMs : Z;
  region : VintedRegion;
}.

Record BlockState := { until : Z; strikes : Z }.

Record ReauthState := { reauthUntil : Z }.

(** A promise is known by its identity only. *)
Definition Promise := nat.

Record State := {
  cache : gmap string CachedToken;
  blocked : gmap string BlockState;
  reauthRequired : gmap string ReauthState;
  inFlight : gmap string Promise;
  (** identity of the next promise object to be created *)
  nextPromise : Promise;
}.

Definition initial : State :=
  {| cache := ∅; blocked := ∅; reauthRequired := ∅; inFlight := ∅; nextPromise := O |}.

Definition REAUTH_COOLDOWN_MS : Z := 30 * 60 * 1000.

Definition isBlockedError (message : string) : bool :=
  Js.includes (Js.toLowerCase message) "blockiert".

Definition isInvalidGrantError (message : string) : bool :=
  let lower := Js.toLowerCase message in
  Js.includes lower "invalid_grant" || Js.includes lower "authorization grant is invalid".

Definition reauthRequiredError : string :=
  "Vinted-Token ist ung" +:+ Js.chr 252 +:+ "ltig oder abgelaufen. F" +:+ Js.chr 252 +:+
  "hre /setup account mit einem frischen refresh_token_web erneut aus.".

Definition blockedError : string :=
  "Vinted hat die Anfrage blockiert (Anti-Bot/Cloudflare). Bitte warte kurz und versuche es sp" +:+
  Js.chr 228 +:+ "ter erneut.".

Definition decryptFailedError : string :=
  "Gespeicherter Refresh-Token konnte nicht entschl" +:+ Js.chr 252 +:+
  "sselt werden. F" +:+ Js.chr 252 +:+ "hre /setup account erneut aus.".

Definition refreshFailedError : string :=
  "Vinted-Token konnte nicht erneuert werden. F" +:+ Js.chr 252 +:+
  "hre /setup account erneut aus.".

Definition bumpBackoff (now : Z) (prev : option BlockState) : BlockState :=
  let strikes := Z.min ((match prev with Some b => strikes b | None => 0 end) + 1) 6 in
  let delayMs := Z.min (30 * 60000) (30000 * 2 ^ strikes) in
  {| strikes := strikes; until := now + delayMs |}.

Definition clearTokenStateForUser (discordUserId : string) (st : State) : State :=
  {| cache := delete discordUserId (cache st);
     blocked := delete discordUserId (blocked st);
     reauthRequired := delete discordUserId (reauthRequired st);
     inFlight := delete discordUserId (inFlight st);
     nextPromise := nextPromise st |}.

(** What the collaborators answer during one refresh. *)
Record Account := {
  accountRegion : string;
  encryptedRefreshToken : string;
  pickupPoint : option string;
}.

Record VintedTokenResponse := {
  newAccessToken : string;
  newRefreshToken : string;
  expiresIn : Z;
  createdAt : Z;
}.

Record Env := {
  (** [getAccountForUser] *)
  getAccountForUser : string -> Result Account string;
  (** [decryptToken], [None] when it throws *)
  decryptToken : string -> option string;
  (** [vinted.refreshToken] for a region, refresh token and session key *)
  vintedRefreshToken : VintedRegion -> string -> string -> Result VintedTokenResponse string;
}.

(** What the service asks of its collaborators. *)
Inductive Effect :=
  | LoadAccount (discordUserId : string)
  | Decrypt (payload : string)
  | RefreshCall (region : VintedRegion) (refreshToken : string) (sessionKey : string)
  | PersistRefreshToken (discordUserId : string) (refreshToken : string).

Definition isRefreshCall (e : Effect) : bool :=
  match e with RefreshCall _ _ _ => true | _ => false end.

Definition refreshCalls (trace : list Effect) : nat :=
  length (List.filter isRefreshCall trace).

Definition withCache (f : gmap string CachedToken -> gmap string CachedToken) (st : State) : State :=
  {| cache := f (cache st); blocked := blocked st; reauthRequired := reauthRequired st;
     inFlight := inFlight st; nextPromise := nextPromise st |}.

Definition withBlocked (f : gmap string BlockState -> gmap string BlockState) (st : State) : State :=
  {| cache := cache st; blocked := f (blocked st); reauthRequired := reauthRequired st;
     inFlight := inFlight st; nextPromise := nextPromise st |}.

Definition withReauth (f : gmap string ReauthState -> gmap string ReauthState) (st : State) : State :=
  {| cache := cache st; blocked := blocked st; reauthRequired := f (reauthRequired st);
     inFlight := inFlight st; nextPromise := nextPromise st |}.

Definition withInFlight (f : gmap string Promise -> gmap string Promise) (st : State) : State :=
  {| cache := cache st; blocked := blocked st; reauthRequired := reauthRequired st;
     inFlight := f (inFlight st); nextPromise := nextPromise st |}.

(** The body of the promise from the answer of [getAccountForUser] on
    (lines 81-137).  [now] is [Date.now()] when the answer of the
    refresh operation is handled.  The write of a rotated refresh
    token to the database is recorded as an effect and taken to
    succeed; the two deletions after it are taken in the same step. *)
Definition refreshBody (env : Env) (now : Z) (discordUserId : string) (st : State)
  : State * Result CachedToken string * list Effect :=
  match getAccountForUser env discordUserId with
  | err e => (st, err e, [])
  | ok account =>
      match parseRegion (accountRegion account) with
      | err e => (st, err e, [])
      | ok regionRes =>
          match decryptToken env (encryptedRefreshToken account) with
          | None => (st, err decryptFailedError, [Decrypt (encryptedRefreshToken account)])
          | Some refreshToken =>
              let trace := [Decrypt (encryptedRefreshToken account);
                            RefreshCall regionRes refreshToken discordUserId] in
              match vintedRefreshToken env regionRes refreshToken discordUserId with
              | err message =>
                  if isBlockedError message then
                    (withBlocked
                       (fun b => <[discordUserId := bumpBackoff now (b !! discordUserId)]> b) st,
                     err message, trace)
                  else if isInvalidGrantError message then
                    let st1 :=
                      withReauth
                        (fun r => <[discordUserId := {| reauthUntil := now + REAUTH_COOLDOWN_MS |}]> r)
                        st in
                    let st2 := withCache (delete discordUserId) st1 in
                    let st3 := withBlocked (delete discordUserId) st2 in
                    (st3, err reauthRequiredError, trace)
                  else (st, err refreshFailedError, trace)
              | ok refreshed =>
                  let expiresAtMs := (createdAt refreshed + expiresIn refreshed) * 1000 in
                  let next :=
                    {| accessToken := newAccessToken refreshed;
                       refreshToken := newRefreshToken refreshed;
                       expiresAtMs := expiresAtMs;
                       region := regionRes |} in
                  let st1 := withCache (fun c => <[discordUserId := next]> c) st in
                  let persisted :=
                    if String.eqb (newRefreshToken refreshed) refreshToken then []
                    else [PersistRefreshToken discordUserId (newRefreshToken refreshed)] in
                  let st2 := withBlocked (delete discordUserId) st1 in
                  let st3 := withReauth (delete discordUserId) st2 in
                  (st3, ok next, (trace ++ persisted)%list)
              end
          end
      end
  end.

(** How a call of [getAccessTokenForUser] leaves its synchronous part. *)
Inductive Entry :=
  | Returned (result : Result CachedToken string)
  | Awaits (existing : Promise)
  | Starts (promise : Promise).

(** Lines 58-80 and 140: the checks made when the function is called.
    Starting a refresh calls [getAccountForUser] at once and registers
    the new promise. *)
Definition enter (now : Z) (discordUserId : string) (st : State)
  : Entry * State * list Effect :=
  let fresh :=
    match cache st !! discordUserId with
    | Some cached => if now <? expiresAtMs cached - 30000 then Some cached else None
    | None => None
    end in
  match fresh with
  | Some cached => (Returned (ok cached), st, [])
  | None =>
      let blockActive :=
        match blocked st !! discordUserId with
        | Some block => now <? until block
        | None => false
        end in
      if blockActive then (Returned (err blockedError), st, [])
      else
        let reauthActive :=
          match reauthRequired st !! discordUserId with
          | Some reauth => now <? reauthUntil reauth
          | None => false
          end in
        if reauthActive then (Returned (err reauthRequiredError), st, [])
        else
          match inFlight st !! discordUserId with
          | Some existing => (Awaits existing, st, [])
          | None =>
              let promise := nextPromise st in
              (Starts promise,
               {| cache := cache st; blocked := blocked st;
                  reauthRequired := reauthRequired st;
                  inFlight := <[discordUserId := promise]> (inFlight st);
                  nextPromise := S promise |},
               [LoadAccount discordUserId])
          end
  end.

(** The refresh started by a call ends: the promise body runs to its
    end and the caller's [finally] removes the in-flight entry of the
    user. *)
Definition settle (env : Env) (now : Z) (discordUserId : string) (st : State)
  : State * Result CachedToken string * list Effect :=
  let '(st1, result, trace) := refreshBody env now discordUserId st in
  (withInFlight (delete discordUserId) st1, result, trace).

(** A caller that awaits the outcome before anything else happens:
    [enter] at [tEnter], and, when that started a refresh, [settle] at
    [tSettle]. *)
Definition callAndAwait (env : Env) (tEnter tSettle : Z) (discordUserId : string) (st : State)
  : State * option (Result CachedToken string) * list Effect :=
  match enter tEnter discordUserId st with
  | (Returned r, st1, tr) => (st1, Some r, tr)
  | (Awaits _, st1, tr) => (st1, None, tr)
  | (Starts _, st1, tr) =>
      let '(st2, r, tr2) := settle env tSettle discordUserId st1 in
      (st2, Some r, (tr ++ tr2)%list)
  end.

End TokenService.

(** ** JSON values

    What [JSON.parse] returns: a tree without sharing.  A finite number
    is a rational; [JInf] stands for the infinities that an overlong
    literal parses to.  The fields of an object are listed in the order
    of [Object.entries] and carry distinct keys.  [None] of type
    [option json] is [undefined]. *)

#[local] Set Warnings "-register-all".

Inductive json :=
  | JNull
  | JBool (b : bool)
  | JNum (q : Q)
  | JInf
  | JStr (s : string)
  | JArr (items : list json)
  | JObj (fields : list (string * json)).

Module Json.

Fixpoint assoc (key : string) (fields : list (string * json)) : option json :=
  match fields with
  | [] => None
  | (k, v) :: rest => if String.eqb k key then Some v else assoc key rest
  end.

(** [value?.key] for the property names the client reads: an own
    property of an object, [undefined] on everything else. *)
Definition get (value : option json) (key : string) : option json :=
  match value with
  | Some (JObj fields) => assoc key fields
  | _ => None
  end.

(** [value?.[0]] *)
Definition first (value : option json) : option json :=
  match value with
  | Some (JArr (x :: _)) => Some x
  | Some (JStr (String c _)) => Some (JStr (String c EmptyString))
  | Some (JObj fields) => assoc "0" fields
  | _ => None
  end.

(** [Object.hasOwn(raw, key)] for an object or array [raw]. *)
Definition hasOwn (value : json) (key : string) : bool :=
  match get (Some value) key with Some _ => true | None => false end.

Definition isInteger (q : Q) : bool := (Z.pos (Qden (Qred q)) =? 1).

Definition isZero (q : Q) : bool := Qeq_bool q (inject_Z 0).

(** [typeof value === 'object'] with [value] not null. *)
Definition isObjectLike (value : option json) : bool :=
  match value with
  | Some (JObj _) | Some (JArr _) => true
  | _ => false
  end.

(** The longest prefix of decimal digits and its value. *)
Fixpoint leadingDigits (s : string) (acc : Z) (seen : bool) : option Z :=
  match s with
  | String c r =>
      if Js.isDigit c then leadingDigits r (10 * acc + Js.digitValue c) true
      else if seen then Some acc else None
  | EmptyString => if seen then Some acc else None
  end.

(** [Number.parseInt(s, 10)]; [None] is NaN.  The result is taken
    exactly, without the rounding of very long digit strings. *)
Definition parseInt10 (s : string) : option Z :=
  match Js.trimStart s with
  | String "-"%char r => option_map Z.opp (leadingDigits r 0 false)
  | String "+"%char r => leadingDigits r 0 false
  | r => leadingDigits r 0 false
  end.

Definition digitIn (base : Z) (c : ascii) : option Z :=
  let n := Js.code c in
  let d := if Js.between 48 57 n then n - 48
           else if Js.between 97 122 n then n - 87
           else if Js.between 65 90 n then n - 55
           else base in
  if d <? base then Some d else None.

Fixpoint allDigits (base : Z) (s : string) (acc : Z) : option Z :=
  match s with
  | EmptyString => Some acc
  | String c r =>
      match digitIn base c with
      | Some d => allDigits base r (base * acc + d)
      | None => None
      end
  end.

Definition nonEmptyDigits (base : Z) (s : string) : option Z :=
  match s with
  | EmptyString => None
  | _ => allDigits base s 0
  end.

(** [BigInt(s)] for a trimmed, non-empty [s]; [None] when it throws:
    signed decimal digits, or unsigned digits after 0x, 0o or 0b. *)
Definition bigIntOfString (s : string) : option Z :=
  match s with
  | String "0"%char (String p r) =>
      if Ascii.eqb (Js.lowerChar p) "x"%char then nonEmptyDigits 16 r
      else if Ascii.eqb (Js.lowerChar p) "o"%char then nonEmptyDigits 8 r
      else if Ascii.eqb (Js.lowerChar p) "b"%char then nonEmptyDigits 2 r
      else allDigits 10 s 0
  | String "-"%char r => option_map Z.opp (nonEmptyDigits 10 r)
  | String "+"%char r => nonEmptyDigits 10 r
  | _ => nonEmptyDigits 10 s
  end.

(** [a ?? b] *)
Definition orElse {A} (a b : option A) : option A :=
  match a with Some _ => a | None => b end.

(** The first element of a list on which [f] answers. *)
Fixpoint firstSome {A B} (f : A -> option B) (l : list A) : option B :=
  match l with
  | [] => None
  | x :: rest => match f x with Some y => Some y | None => firstSome f rest end
  end.

End Json.

(** ** What the platform provides

    Library functions of the JS runtime whose results the client
    passes on without looking into them. *)

Class Platform := {
  (** [String(x)] and [`${x}`] for a finite number *)
  Number_toString : Q -> string;
  (** [x.toFixed(2)] *)
  Number_toFixed2 : Q -> string;
  JSON_stringify : json -> string;
  (** [JSON.parse], [None] when it throws *)
  JSON_parse : string -> option json;
  (** [new URL(input, base).toString()], [None] when it throws *)
  URL_resolve : string -> string -> option string;
  (** [new URL(url).hostname], [None] when it throws *)
  URL_hostname : string -> option string;
  (** [new URL(url).origin], [None] when it throws *)
  URL_origin : string -> option string;
}.

(** ** vinted-client.ts: reading response payloads *)

Module Payload.
Section WithPlatform.
Context {platform : Platform}.

Definition VintedError := string.

Definition parseStatusCode (value : option json) : option Q :=
  match value with
  | Some (JNum q) => Some q
  | Some (JStr s) => option_map inject_Z (Json.parseInt10 s)
  | _ => None
  end.

Definition shouldRetryWithAuthorization (message : string) : bool :=
  let lower := Js.toLowerCase message in
  Js.includes lower "(401)" || Js.includes lower "(403)" || Js.includes lower "access_denied".

Definition isExplicitPayloadErrorCode (value : option json) : bool :=
  match value with
  | Some (JNum q) => negb (Json.isZero q)
  | Some (JStr s) =>
      let normalized := Js.toLowerCase (Js.trim s) in
      if Js.isEmpty normalized then false
      else if String.eqb normalized "0" || String.eqb normalized "ok"
              || String.eqb normalized "success" then false
      else match Json.parseInt10 normalized with
           | Some parsed => negb (parsed =? 0)
           | None => true
           end
  | _ => false
  end.

Definition memString (x : string) (l : list string) : bool :=
  existsb (String.eqb x) l.

(** [pushMessage]: [parts] doubles as [seenParts], which holds the
    same strings. *)
Definition pushMessage (value : option json) (parts : list string) : list string :=
  let trimmed :=
    match value with
    | Some (JNum q) => Number_toString q
    | Some (JStr s) => Js.trim s
    | _ => EmptyString
    end in
  if Js.isEmpty trimmed || memString trimmed parts then parts
  else (parts ++ [trimmed])%list.

Definition pushFromObject (value : json) (parts : list string) : list string :=
  let v := Some value in
  pushMessage (Json.get v "code")
    (pushMessage (Json.get v "title")
       (pushMessage (Json.get v "message_code")
          (pushMessage (Json.get v "message") parts))).

Definition pushErrorEntry (parts : list string) (entry : json) : list string :=
  match entry with
  | JStr _ => pushMessage (Some entry) parts
  | JObj _ | JArr _ => pushFromObject entry parts
  | _ => parts
  end.

Fixpoint joinWith (sep : string) (parts : list string) : string :=
  match parts with
  | [] => EmptyString
  | [x] => x
  | x :: rest => x +:+ sep +:+ joinWith sep rest
  end.

Definition isNonBlankString (value : option json) : bool :=
  match value with
  | Some (JStr s) => negb (Js.isEmpty (Js.trim s))
  | _ => false
  end.

Definition extractErrorsPayloadMessage (payload : json) : option string :=
  match payload with
  | JObj _ | JArr _ =>
      let raw := Some payload in
      let hasErrorsField := Json.hasOwn payload "errors" in
      let parts :=
        if hasErrorsField then
          match Json.get raw "errors" with
          | Some (JArr errors) => fold_left pushErrorEntry (firstn 3 errors) []
          | Some (JStr e) => pushMessage (Some (JStr e)) []
          | Some (JObj o) => pushFromObject (JObj o) []
          | _ => []
          end
        else [] in
      let status := parseStatusCode (Json.get raw "status") in
      let hasTopLevelCodeError := isExplicitPayloadErrorCode (Json.get raw "code") in
      let hasTopLevelMessageCodeError :=
        isExplicitPayloadErrorCode (Json.get raw "message_code") in
      let hasErrorField := isNonBlankString (Json.get raw "error") in
      let shouldTreatAsError :=
        hasErrorsField || hasErrorField ||
        match status with Some q => Qle_bool (inject_Z 400) q | None => false end ||
        hasTopLevelCodeError || hasTopLevelMessageCodeError in
      if negb shouldTreatAsError then None
      else
        let parts :=
          pushMessage (Json.get raw "code")
            (pushMessage (Json.get raw "message_code")
               (pushMessage (Json.get raw "message")
                  (pushMessage (Json.get raw "error_description")
                     (pushMessage (Json.get raw "error") parts)))) in
        let bodyMessage :=
          match parts with
          | _ :: _ => joinWith " | " parts
          | [] =>
              let text := Js.take 220 (JSON_stringify payload) in
              if Js.isEmpty text then "Unknown API error payload." else text
          end in
        match status with
        | Some q =>
            Some ("Vinted request failed (" +:+ Number_toString q +:+ "). " +:+ bodyMessage)
        | None => Some ("Vinted request failed (payload error). " +:+ bodyMessage)
        end
  | _ => None
  end.

Definition parseBigintCandidate (value : option json) : option Z :=
  match value with
  | Some (JNum q) => if Json.isInteger q then Some (Qnum (Qred q)) else None
  | Some (JStr s) =>
      let trimmed := Js.trim s in
      if Js.isEmpty trimmed then None else Json.bigIntOfString trimmed
  | _ => None
  end.

Definition normalizeCheckoutUrlCandidate (baseUrl candidate : string) : string :=
  let trimmed := Js.trim candidate in
  if Js.isEmpty trimmed then trimmed
  else match URL_resolve trimmed (baseUrl +:+ "/") with
       | Some url => url
       | None => trimmed
       end.

Definition looksLikeCheckoutUrl (value : string) : bool :=
  let lower := Js.toLowerCase value in
  Js.includes lower "/checkout" || Js.includes lower "purchase_id=".

Definition isCheckoutUrlKey (normalizedKey : string) : bool :=
  memString normalizedKey
    ["checkout_url"; "checkouturl"; "redirect_url"; "redirecturl"; "payment_url";
     "paymenturl"; "web_url"; "weburl"; "checkout_link"; "checkoutlink"].

(** [findNestedCheckoutUrl(value, depth)], by recursion on
    [levels = depth + 1]: the call with [depth < 0] is [levels = 0].
    The set [seen] never holds the object at hand, as a parsed payload
    shares no object. *)
Fixpoint findNestedCheckoutUrl (levels : nat) (value : option json) : option string :=
  match levels with
  | O => None
  | S below =>
      match value with
      | None | Some JNull => None
      | Some (JStr s) =>
          let trimmed := Js.trim s in
          if negb (Js.isEmpty trimmed) && looksLikeCheckoutUrl trimmed then Some trimmed
          else None
      | Some (JArr items) =>
          Json.firstSome (fun entry => findNestedCheckoutUrl below (Some entry)) items
      | Some (JObj fields) =>
          Json.firstSome
            (fun '(key, entry) =>
               let normalizedKey := Js.toLowerCase key in
               let nested := findNestedCheckoutUrl below (Some entry) in
               match entry with
               | JStr s =>
                   let trimmed := Js.trim s in
                   if Js.isEmpty trimmed then None
                   else if isCheckoutUrlKey normalizedKey then Some trimmed
                   else if String.eqb normalizedKey "url" && looksLikeCheckoutUrl trimmed
                   then Some trimmed
                   else nested
               | _ => nested
               end)
            fields
      | Some _ => None
      end
  end.

Definition isPurchaseIdKey (normalizedKey : string) : bool :=
  memString normalizedKey ["purchase_id"; "purchaseid"; "checkout_id"; "checkoutid"].

Definition isIdUnderPurchase (normalizedKey : string) (parentKey : option string) : bool :=
  String.eqb normalizedKey "id" &&
  match parentKey with
  | Some k => String.eqb k "purchase" || String.eqb k "checkout"
  | None => false
  end.

(** [findNestedPurchaseId(value, parentKey, depth)], with
    [levels = depth + 1] as above. *)
Fixpoint findNestedPurchaseId (levels : nat) (parentKey : option string) (value : option json)
  : option Z :=
  match levels with
  | O => None
  | S below =>
      match value with
      | Some (JArr items) =>
          Json.firstSome (fun entry => findNestedPurchaseId below parentKey (Some entry)) items
      | Some (JObj fields) =>
          Json.firstSome
            (fun '(key, entry) =>
               let normalizedKey := Js.toLowerCase key in
               Json.orElse
                 (if isPurchaseIdKey normalizedKey then parseBigintCandidate (Some entry)
                  else None)
                 (Json.orElse
                    (if isIdUnderPurchase normalizedKey parentKey
                     then parseBigintCandidate (Some entry) else None)
                    (findNestedPurchaseId below (Some normalizedKey) (Some entry))))
            fields
      | _ => None
      end
  end.

Definition extractPurchaseIdFromCheckoutPayload (payload : json) : option Z :=
  let raw := Some payload in
  let checkout := Json.get raw "checkout" in
  let purchase := Json.get raw "purchase" in
  Json.orElse (parseBigintCandidate (Json.get checkout "id"))
  (Json.orElse (parseBigintCandidate (Json.get checkout "purchase_id"))
  (Json.orElse (parseBigintCandidate (Json.get (Json.get checkout "purchase") "id"))
  (Json.orElse (parseBigintCandidate (Json.get raw "checkout_id"))
  (Json.orElse (parseBigintCandidate (Json.get raw "purchase_id"))
  (Json.orElse (parseBigintCandidate (Json.get purchase "id"))
  (Json.orElse (parseBigintCandidate (Json.get purchase "purchase_id"))
  (Json.orElse (findNestedPurchaseId 7 None raw)
               (parseBigintCandidate (Json.get raw "id"))))))))).

(** Percent-encoding of the UTF-8 bytes of a string, keeping the code
    units that [safe] accepts. *)
Definition hexDigit (d : Z) : ascii :=
  if d <? 10 then Js.ofCode (48 + d) else Js.ofCode (55 + d).

Definition percentByte (b : Z) : string :=
  String "%"%char (String (hexDigit (b / 16)) (String (hexDigit (b mod 16)) EmptyString)).

Definition percentChar (safe : ascii -> bool) (c : ascii) : string :=
  let n := Js.code c in
  if safe c then String c EmptyString
  else if n <? 128 then percentByte n
  else percentByte (192 + n / 64) +:+ percentByte (128 + n mod 64).

Fixpoint percentEncode (safe : ascii -> bool) (s : string) : string :=
  match s with
  | EmptyString => EmptyString
  | String c r => percentChar safe c +:+ percentEncode safe r
  end.

Definition isAlphaNum (c : ascii) : bool :=
  let n := Js.code c in
  Js.between 48 57 n || Js.between 65 90 n || Js.between 97 122 n.

(** The serializer of [URLSearchParams]: letters, digits and the four
    marks below are kept, a space becomes a plus sign. *)
Definition formSafe (c : ascii) : bool :=
  isAlphaNum c || memString (String c EmptyString) ["*"; "-"; "."; "_"].

Fixpoint formEncode (s : string) : string :=
  match s with
  | EmptyString => EmptyString
  | String c r =>
      (if Js.code c =? 32 then "+" else percentChar formSafe c) +:+ formEncode r
  end.

Definition searchParamsToString (params : list (string * string)) : string :=
  joinWith "&" (map (fun '(k, v) => formEncode k +:+ "=" +:+ formEncode v) params).

(** [encodeURIComponent] *)
Definition encodeURIComponent (s : string) : string :=
  percentEncode
    (fun c => isAlphaNum c ||
              memString (String c EmptyString) ["-"; "_"; "."; "!"; "~"; "*"; "'"; "("; ")"])
    s.

Definition directUrlCandidates (payload : json) : list (option json) :=
  let raw := Some payload in
  let checkout := Json.get raw "checkout" in
  let purchase := Json.get raw "purchase" in
  let payment := Json.get raw "payment" in
  [ Json.get raw "checkout_url";
    Json.get raw "checkoutUrl";
    Json.get checkout "checkout_url";
    Json.get checkout "checkoutUrl";
    Json.get checkout "url";
    Json.get checkout "web_url";
    Json.get checkout "webUrl";
    Json.get purchase "checkout_url";
    Json.get purchase "checkoutUrl";
    Json.get purchase "url";
    Json.get (Json.get raw "next_step") "url";
    Json.get (Json.get raw "nextStep") "url";
    Json.get payment "checkout_url";
    Json.get payment "checkoutUrl";
    Json.get payment "url";
    Json.get raw "url" ].

Definition nonBlankString (candidate : option json) : option string :=
  match candidate with
  | Some (JStr s) => if Js.isEmpty (Js.trim s) then None else Some s
  | _ => None
  end.

Definition parseCheckoutUrl (baseUrl : string) (itemId : Z) (payload : json) : option string :=
  match Json.firstSome nonBlankString (directUrlCandidates payload) with
  | Some candidate => Some (normalizeCheckoutUrlCandidate baseUrl candidate)
  | None =>
      match findNestedCheckoutUrl 7 (Some payload) with
      | Some nestedCheckoutUrl => Some (normalizeCheckoutUrlCandidate baseUrl nestedCheckoutUrl)
      | None =>
          match extractPurchaseIdFromCheckoutPayload payload with
          | Some purchaseId =>
              let params :=
                searchParamsToString
                  [("purchase_id", Js.decimal purchaseId);
                   ("order_id", Js.decimal itemId);
                   ("order_type", "transaction")] in
              Some (baseUrl +:+ "/checkout?" +:+ params)
          | None => None
          end
      end
  end.

Definition shouldPrimeCheckoutSessionFromError (message : string) : bool :=
  let lower := Js.toLowerCase message in
  Js.includes lower "(403)" || Js.includes lower "cloudflare" ||
  Js.includes lower "captcha" || Js.includes lower "blockiert" ||
  Js.includes lower "access_denied".

End WithPlatform.
End Payload.

(** ** vinted-client.ts: the action client

    An action is a computation that asks [fetchJson] for answers, warms
    the session up and logs.  The answers come from the world: the
    answer to a request depends on the request and on how many
    requests were made before it.  Every request is recorded. *)

Module VintedClient.
Section WithPlatform.
Context {platform : Platform}.
Import Payload.

Inductive RequestProfile := default | oauth_token.

Record FetchJsonInput := {
  url : string;
  method : string;
  headers : list (string * string);
  body : option json;
  sessionScope : option string;
  requestProfile : RequestProfile;
}.

Inductive Event :=
  | WarmupHostSession (baseUrl : string) (sessionScope : option string)
  | FetchJson (input : FetchJsonInput)
  | LogInfo (message : string).

Definition World := nat -> FetchJsonInput -> Result json VintedError.

Definition Action (A : Type) := World -> list Event -> A * list Event.

Definition ret {A} (a : A) : Action A := fun _ trace => (a, trace).

Definition bind {A B} (m : Action A) (k : A -> Action B) : Action B :=
  fun world trace => let '(a, trace') := m world trace in k a world trace'.

Notation "'let*' x ':=' m 'in' k" := (bind m (fun x => k))
  (at level 10, x pattern, m at level 100, k at level 200).

Definition isFetch (e : Event) : bool :=
  match e with FetchJson _ => true | _ => false end.

Definition fetchCount (trace : list Event) : nat := length (List.filter isFetch trace).

Definition fetchJson (input : FetchJsonInput) : Action (Result json VintedError) :=
  fun world trace => (world (fetchCount trace) input, (trace ++ [FetchJson input])%list).

Definition warmupHostSession (baseUrl : string) (sessionScope : option string) : Action unit :=
  fun _ trace => (tt, (trace ++ [WarmupHostSession baseUrl sessionScope])%list).

Definition logInfo (message : string) : Action unit :=
  fun _ trace => (tt, (trace ++ [LogInfo message])%list).

Definition encodeCookieValue (value : string) : string := encodeURIComponent (Js.trim value).

Definition buildWebSessionCookieHeader (accessToken : string) (refreshToken : option string)
  : string :=
  let access := "access_token_web=" +:+ encodeCookieValue accessToken in
  match option_map Js.trim refreshToken with
  | Some (String c r) =>
      access +:+ "; " +:+ "refresh_token_web=" +:+ encodeCookieValue (String c r)
  | _ => access
  end.

Definition buildActionAuthHeaders (accessToken : string) (refreshToken : option string)
    (includeAuthorization : bool) : list (string * string) :=
  let cookie := ("cookie", buildWebSessionCookieHeader accessToken refreshToken) in
  if includeAuthorization then [cookie; ("authorization", "Bearer " +:+ accessToken)]
  else [cookie].

Record ActionInput := {
  region : VintedRegion;
  accessToken : string;
  refreshToken : option string;
  itemId : Z;
  sessionKey : option string;
}.

(** The request of an action with web-session cookies, sent again with
    an Authorization header when the first answer asks for it. *)
Definition fetchWithAuthorizationRetry (input : ActionInput) (url method : string) (body : json)
  : Action (Result json VintedError) :=
  let request (includeAuthorization : bool) :=
    fetchJson
      {| url := url; method := method;
         headers := buildActionAuthHeaders (accessToken input) (refreshToken input)
                      includeAuthorization;
         body := Some body; sessionScope := sessionKey input; requestProfile := default |} in
  let* primaryJson := request false in
  match primaryJson with
  | err message =>
      if shouldRetryWithAuthorization message then request true else ret primaryJson
  | ok _ => ret primaryJson
  end.



Definition asString (candidate : option json) : option string :=
  match candidate with Some (JStr s) => Some s | _ => None end.





Record BuildCheckoutResult := { checkoutUrl : option string }.

Definition buildCheckout (input : ActionInput) (pickupPoint : option string)
  : Action (Result BuildCheckoutResult VintedError) :=
  let baseUrl := baseUrlForRegion (region input) in
  let* _ := warmupHostSession baseUrl (sessionKey input) in
  let url := baseUrl +:+ "/api/v2/purchases/checkout/build" in
  let requestBody :=
    JObj (("purchase_items",
           JArr [JObj [("id", JNum (inject_Z (itemId input))); ("type", JStr "transaction")]])
          :: match pickupPoint with
             | Some p => [("pickup_point", JStr p)]
             | None => []
             end) in
  let executeBuildCheckout (includeAuthorization : bool) :=
    fetchJson
      {| url := url; method := "POST";
         headers := buildActionAuthHeaders (accessToken input) (refreshToken input)
                      includeAuthorization;
         body := Some requestBody; sessionScope := sessionKey input;
         requestProfile := default |} in
  let* primaryJson := executeBuildCheckout false in
  let* json := match primaryJson with
          | err message =>
              if shouldRetryWithAuthorization message then executeBuildCheckout true
              else ret primaryJson
          | ok _ => ret primaryJson
          end in
  let* json := match json with
          | err message =>
              if shouldPrimeCheckoutSessionFromError message then
                let preflightUrl :=
                  baseUrl +:+ "/api/v2/catalog/items?page=1&per_page=1&order=newest_first" in
                let* _ := fetchJson
                  {| url := preflightUrl; method := "GET";
                     headers := [("authorization", "Bearer " +:+ accessToken input)];
                     body := None; sessionScope := sessionKey input;
                     requestProfile := default |} in
                executeBuildCheckout true
              else ret json
          | ok _ => ret json
          end in
  match json with
  | err message =>
      if Js.includes message "captcha-delivery.com" then ret (ok {| checkoutUrl := None |})
      else ret (err message)
  | ok payload =>
      match extractErrorsPayloadMessage payload with
      | Some payloadError => ret (err payloadError)
      | None =>
          let checkoutUrl := parseCheckoutUrl baseUrl (itemId input) payload in
          let* _ := match checkoutUrl with
                    | Some _ => ret tt
                    | None => logInfo "Checkout build response missing checkout url/purchase id"
                    end in
          ret (ok {| checkoutUrl := checkoutUrl |})
      end
  end.

Record Sent := { sent : bool }.

Definition looksMoreSpecific (message : string) : bool :=
  Js.includes message "access_denied" || Js.includes message "cloudflare" ||
  Js.includes message "captcha" || Js.includes message "blockiert".

(** The closure [sendOfferRequest] of [sendOffer], with the input it
    captures as an argument. *)
Definition sendOfferRequest (input : ActionInput) (url : string) (body : json)
  : Action (Result Sent VintedError) :=
  let* json := fetchWithAuthorizationRetry input url "POST" body in
  match json with
  | err e => ret (err e)
  | ok payload =>
      match extractErrorsPayloadMessage payload with
      | Some payloadError => ret (err payloadError)
      | None => ret (ok {| sent := true |})
      end
  end.

Definition sendOffer (input : ActionInput) (amount : Q) (currencyCode : string)
  : Action (Result Sent VintedError) :=
  let baseUrl := baseUrlForRegion (region input) in
  let* _ := warmupHostSession baseUrl (sessionKey input) in
  let amountText := Number_toFixed2 amount in
  let sendOfferRequest := sendOfferRequest input in
  let* modernEndpointAttempt :=
    sendOfferRequest
      (baseUrl +:+ "/api/v2/transactions/" +:+ Js.decimal (itemId input) +:+ "/offer_requests")
      (JObj [("offer_request",
              JObj [("price", JNum amount); ("currency", JStr currencyCode)])]) in
  match modernEndpointAttempt with
  | ok _ => ret modernEndpointAttempt
  | err modernError =>
      let* _ := logInfo "Modern offer_requests endpoint failed; retrying alternative offer endpoints" in
      let* transactionOffersAttempt :=
        sendOfferRequest
          (baseUrl +:+ "/api/v2/transactions/" +:+ Js.decimal (itemId input) +:+ "/offers")
          (JObj [("offer", JObj [("price", JNum amount); ("currency", JStr currencyCode)])]) in
      match transactionOffersAttempt with
      | ok _ => ret transactionOffersAttempt
      | err transactionError =>
          let* _ := logInfo "Transactions offers endpoint failed; retrying legacy offer endpoint" in
          let* legacyEndpointAttempt :=
            sendOfferRequest
              (baseUrl +:+ "/api/v2/offers")
              (JObj [("item_id", JStr (Js.decimal (itemId input)));
                     ("amount",
                      JObj [("amount", JStr amountText);
                            ("currency_code", JStr currencyCode)])]) in
          match legacyEndpointAttempt with
          | ok _ => ret legacyEndpointAttempt
          | err legacyError =>
              let modernMessage := Js.toLowerCase modernError in
              let transactionMessage := Js.toLowerCase transactionError in
              let legacyMessage := Js.toLowerCase legacyError in
              let endpointMessages := [modernMessage; transactionMessage; legacyMessage] in
              let hasSpecificAccessDeniedSignal :=
                existsb (fun message => Js.includes message "access_denied") endpointMessages in
              let hasSpecificBlockSignal :=
                existsb (fun message =>
                           Js.includes message "cloudflare" || Js.includes message "captcha"
                           || Js.includes message "blockiert") endpointMessages in
              let modernLooksMoreSpecific := looksMoreSpecific modernMessage in
              let transactionLooksMoreSpecific := looksMoreSpecific transactionMessage in
              if modernLooksMoreSpecific && negb (Js.includes legacyMessage "access_denied")
              then ret (err modernError)
              else if transactionLooksMoreSpecific
                      && negb (Js.includes legacyMessage "access_denied")
              then ret (err transactionError)
              else if hasSpecificAccessDeniedSignal || hasSpecificBlockSignal then
                if modernLooksMoreSpecific then ret (err modernError)
                else if transactionLooksMoreSpecific then ret (err transactionError)
                else ret (err legacyError)
              else ret (err legacyError)
          end
      end
  end.

End WithPlatform.
End VintedClient.

(** ** vinted-client.ts: the transport layer

    What [fetchJson] and [fetchJsonViaCurl] make of the answers of the
    two backends.  A run of the curl command is known by its exit code
    and its output; the fetch backend answers with a response, or not
    at all.  The time and the time up to which curl is preferred are
    explicit. *)

Module Transport.
Section WithPlatform.
Context {platform : Platform}.

Definition looksLikeBotBlock (status : Z) (contentType : option string) (text : string) : bool :=
  if negb (status =? 403) then false
  else if match contentType with
          | Some c => Js.includes (Js.toLowerCase c) "text/html"
          | None => false
          end
  then true
  else
    let lower := Js.toLowerCase text in
    Js.includes lower "<!doctype html" || Js.includes lower "<title>vinted</title"
    || Js.includes lower "just a moment".

Definition toVintedBlockedError : string :=
  "Vinted hat die Anfrage blockiert (Anti-Bot/Cloudflare). Bitte warte kurz und versuche es sp" +:+
  Js.chr 228 +:+ "ter erneut.".

Definition orIfEmpty (s fallback : string) : string :=
  if Js.isEmpty s then fallback else s.

Definition requestFailed (status : Z) (text : string) : string :=
  "Vinted request failed (" +:+ Js.decimal status +:+ "). " +:+
  orIfEmpty (Js.trim (Js.take 200 text)) "No body.".

Definition parseJsonText (text : string) : Result json string :=
  match JSON_parse text with
  | Some value => ok value
  | None => err "Failed to parse Vinted response."
  end.

(** [s.lastIndexOf(c)] as the parts before and after that place. *)
Fixpoint splitAtLast (c : ascii) (s : string) : option (string * string) :=
  match s with
  | EmptyString => None
  | String a r =>
      match splitAtLast c r with
      | Some (before, after) => Some (String a before, after)
      | None => if Ascii.eqb a c then Some (EmptyString, r) else None
      end
  end.

Record CurlOutput := { exitCode : Z; stdout : string; stderr : string }.

Definition newline : ascii := ascii_of_nat 10.

(** Lines 1043-1073: the end of [fetchJsonViaCurl], from the end of the
    child process on. *)
Definition fetchJsonViaCurl (out : CurlOutput) : Result json string :=
  if negb (exitCode out =? 0) then
    let msg := Js.trim (stderr out) in
    err ("Curl request failed (exit " +:+ Js.decimal (exitCode out) +:+ "). " +:+
         (if Js.isEmpty msg then "No stderr." else Js.take 200 msg))
  else
    match splitAtLast newline (stdout out) with
    | None => err "Curl response missing status code."
    | Some (text, statusText) =>
        match Json.parseInt10 (Js.trim statusText) with
        | None => err "Curl returned invalid status code."
        | Some status =>
            if (status <? 200) || (300 <=? status) then
              if looksLikeBotBlock status None text then err toVintedBlockedError
              else err (requestFailed status text)
            else parseJsonText text
        end
    end.

Inductive VintedHttpBackend := auto | fetch | curl.

Record Response := { status : Z; contentType : option string; text : string }.

Definition responseOk (res : Response) : bool := (200 <=? status res) && (status res <=? 299).

Definition PREFER_CURL_MS : Z := 30 * 60 * 1000.

(** Lines 1096-1181 of [fetchJson].  [res] is the answer of the fetch
    backend ([None] when the request fails outright), [curlRun n] the
    outcome of the [n]-th run of curl during this call.  The result
    comes with the new value of [preferCurlUntil] and the number of
    curl runs. *)
Definition fetchJson (backend : VintedHttpBackend) (now preferCurlUntil : Z)
    (res : option Response) (curlRun : nat -> CurlOutput)
  : Result json string * Z * nat :=
  let shouldPreferCurl := now <? preferCurlUntil in
  let viaCurlFirst :=
    match backend with
    | curl => true
    | auto => shouldPreferCurl
    | fetch => false
    end in
  let isAuto := match backend with auto => true | _ => false end in
  if viaCurlFirst then (fetchJsonViaCurl (curlRun O), preferCurlUntil, 1%nat)
  else
    match res with
    | None => (fetchJsonViaCurl (curlRun O), now + PREFER_CURL_MS, 1%nat)
    | Some res =>
        if responseOk res then (parseJsonText (text res), preferCurlUntil, O)
        else
          let block := looksLikeBotBlock (status res) (contentType res) (text res) in
          let afterRetry (runs : nat) :=
            if isAuto && block then
              (fetchJsonViaCurl (curlRun runs), now + PREFER_CURL_MS, S runs)
            else if block then (err toVintedBlockedError, preferCurlUntil, runs)
            else (err (requestFailed (status res) (text res)), preferCurlUntil, runs) in
          if isAuto && ((status res =? 401) || (status res =? 403)) then
            match fetchJsonViaCurl (curlRun O) with
            | ok value =>
                (ok value,
                 if status res =? 403 then now + PREFER_CURL_MS else preferCurlUntil,
                 1%nat)
            | err _ => afterRetry 1%nat
            end
          else afterRetry O
    end.

(** What curl prints for a response, given [--silent] and
    [--write-out] with a line feed and the status code. *)
Definition curlOutputOf (res : Response) : CurlOutput :=
  {| exitCode := 0;
     stdout := text res +:+ String newline EmptyString +:+ Js.decimal (status res);
     stderr := EmptyString |}.

End WithPlatform.
End Transport.

(** ** vinted-client.ts: the session store

    The cookie jar and the cache of dynamic headers, both keyed by
    session scope and then by host.  The innermost maps are JS maps,
    kept as lists in insertion order because the cookie header is
    written in that order. *)

Module SessionStore.
Section WithPlatform.
Context {platform : Platform}.

(** A [Map<string, string>] in insertion order. *)
Definition StringMap := list (string * string).

Fixpoint mapGet (name : string) (m : StringMap) : option string :=
  match m with
  | [] => None
  | (k, v) :: rest => if String.eqb k name then Some v else mapGet name rest
  end.

(** [m.set(name, value)]: an entry that exists keeps its place. *)
Fixpoint mapSet (name value : string) (m : StringMap) : StringMap :=
  match m with
  | [] => [(name, value)]
  | (k, v) :: rest =>
      if String.eqb k name then (k, value) :: rest else (k, v) :: mapSet name value rest
  end.

Fixpoint mapDelete (name : string) (m : StringMap) : StringMap :=
  match m with
  | [] => []
  | (k, v) :: rest => if String.eqb k name then rest else (k, v) :: mapDelete name rest
  end.

Record Store := {
  cookieJarByScopeHost : gmap string (gmap string StringMap);
  dynamicHeadersByScopeHost : gmap string (gmap string StringMap);
}.

Definition emptyStore : Store :=
  {| cookieJarByScopeHost := ∅; dynamicHeadersByScopeHost := ∅ |}.

Definition DEFAULT_SESSION_SCOPE : string := "__global__".

Definition normalizeSessionScope (sessionScope : option string) : string :=
  match option_map Js.trim sessionScope with
  | Some (String c r) => String c r
  | _ => DEFAULT_SESSION_SCOPE
  end.

Definition resolveHostFromUrl (url : string) : option string :=
  option_map Js.toLowerCase (URL_hostname url).

(** The map of a scope and host in a two-level map.  With [create] a
    missing scope or host gets an empty map. *)
Definition getForScopeHost (sessionScope host : string) (create : bool)
    (byScopeHost : gmap string (gmap string StringMap))
  : option StringMap * gmap string (gmap string StringMap) :=
  match byScopeHost !! sessionScope with
  | None =>
      if create then (Some [], <[sessionScope := {[ host := [] ]}]> byScopeHost)
      else (None, byScopeHost)
  | Some scopeMap =>
      match scopeMap !! host with
      | None =>
          if create
          then (Some [], <[sessionScope := <[host := []]> scopeMap]> byScopeHost)
          else (None, byScopeHost)
      | Some cookies => (Some cookies, byScopeHost)
      end
  end.

(** The caller of [getForScopeHost] changes the map it was handed, which
    is the map held by the store: the change is written back here. *)
Definition putForScopeHost (sessionScope host : string) (m : StringMap)
    (byScopeHost : gmap string (gmap string StringMap))
  : gmap string (gmap string StringMap) :=
  match byScopeHost !! sessionScope with
  | Some scopeMap => <[sessionScope := <[host := m]> scopeMap]> byScopeHost
  | None => <[sessionScope := {[ host := m ]}]> byScopeHost
  end.

Definition getCookiesForScopeHost (sessionScope host : string) (create : bool) (store : Store)
  : option StringMap * Store :=
  let '(cookies, jar) := getForScopeHost sessionScope host create (cookieJarByScopeHost store) in
  (cookies,
   {| cookieJarByScopeHost := jar;
      dynamicHeadersByScopeHost := dynamicHeadersByScopeHost store |}).

Definition getHeadersForScopeHost (sessionScope host : string) (create : bool) (store : Store)
  : option StringMap * Store :=
  let '(headers, cache) :=
    getForScopeHost sessionScope host create (dynamicHeadersByScopeHost store) in
  (headers,
   {| cookieJarByScopeHost := cookieJarByScopeHost store;
      dynamicHeadersByScopeHost := cache |}).

Definition serializeCookieHeader (cookies : StringMap) : string :=
  Payload.joinWith "; " (map (fun '(name, value) => name +:+ "=" +:+ value) cookies).

Definition getCookieHeaderFromJar (url : string) (sessionScope : option string) (store : Store)
  : option string :=
  match resolveHostFromUrl url with
  | None => None
  | Some host =>
      let scopeKey := normalizeSessionScope sessionScope in
      match (getCookiesForScopeHost scopeKey host false store).1 with
      | None | Some [] => None
      | Some cookies => Some (serializeCookieHeader cookies)
      end
  end.

(** The text before the first occurrence of [c], or all of the text. *)
Definition beforeChar (c : ascii) (s : string) : string :=
  match Js.indexOfChar c s with
  | Some i => Js.take i s
  | None => s
  end.

Definition parsePair (part : string) : option (string * string) :=
  match Js.indexOfChar "="%char part with
  | None | Some O => None
  | Some eqIndex =>
      let name := Js.trim (Js.take eqIndex part) in
      let value := Js.trim (Js.drop (S eqIndex) part) in
      if Js.isEmpty name then None else Some (name, value)
  end.

Definition parseCookiePairFromSetCookie (setCookieHeader : string) : option (string * string) :=
  let pairPart := Js.trim (beforeChar ";"%char setCookieHeader) in
  if Js.isEmpty pairPart then None else parsePair pairPart.

Definition applySetCookie (cookies : StringMap) (headerValue : string) : StringMap :=
  match parseCookiePairFromSetCookie headerValue with
  | None => cookies
  | Some (name, value) =>
      if Js.isEmpty value then mapDelete name cookies else mapSet name value cookies
  end.

Definition setCookiesInJar (url : string) (setCookieHeaders : list string)
    (sessionScope : option string) (store : Store) : Store :=
  match resolveHostFromUrl url, setCookieHeaders with
  | None, _ | _, [] => store
  | Some host, _ =>
      let scopeKey := normalizeSessionScope sessionScope in
      match getCookiesForScopeHost scopeKey host true store with
      | (None, store') => store'
      | (Some cookies, store') =>
          {| cookieJarByScopeHost :=
               putForScopeHost scopeKey host (fold_left applySetCookie setCookieHeaders cookies)
                 (cookieJarByScopeHost store');
             dynamicHeadersByScopeHost := dynamicHeadersByScopeHost store' |}
      end
  end.

(** [Object.fromEntries(headers.entries())], or the empty object. *)
Definition getDynamicHeadersForUrl (url : string) (sessionScope : option string) (store : Store)
  : StringMap :=
  match resolveHostFromUrl url with
  | None => []
  | Some host =>
      let scopeKey := normalizeSessionScope sessionScope in
      match (getHeadersForScopeHost scopeKey host false store).1 with
      | None => []
      | Some headers => headers
      end
  end.

Definition setDynamicHeaderForUrl (url headerName value : string)
    (sessionScope : option string) (store : Store) : Store :=
  match resolveHostFromUrl url with
  | None => store
  | Some host =>
      let scopeKey := normalizeSessionScope sessionScope in
      match getHeadersForScopeHost scopeKey host true store with
      | (None, store') => store'
      | (Some headers, store') =>
          {| cookieJarByScopeHost := cookieJarByScopeHost store';
             dynamicHeadersByScopeHost :=
               putForScopeHost scopeKey host
                 (mapSet (Js.toLowerCase headerName) value headers)
                 (dynamicHeadersByScopeHost store') |}
      end
  end.

(** [responseHeaders] is [headers.get] of the response. *)
Definition rememberHeader (url : string) (responseHeaders : string -> option string)
    (sessionScope : option string) (store : Store) (headerName : string) : Store :=
  match option_map Js.trim (responseHeaders headerName) with
  | Some (String c r) => setDynamicHeaderForUrl url headerName (String c r) sessionScope store
  | _ => store
  end.

Definition rememberResponseHeadersForSession (url : string)
    (responseHeaders : string -> option string) (sessionScope : option string) (store : Store)
  : Store :=
  fold_left (rememberHeader url responseHeaders sessionScope)
    ["x-anon-id"; "x-v-udt"; "x-incognia-request-token"] store.

(** An object used as a record of headers: its keys in insertion
    order.  Keys that look like array indices, which a JS object
    lists first, do not occur among header names. *)
Definition readHeaderCaseInsensitive (headers : StringMap) (headerName : string)
  : option string :=
  let normalizedHeaderName := Js.toLowerCase headerName in
  Json.firstSome
    (fun '(key, value) =>
       if String.eqb (Js.toLowerCase key) normalizedHeaderName then Some value else None)
    headers.

Fixpoint replaceCaseInsensitive (normalizedHeaderName value : string) (headers : StringMap)
  : option StringMap :=
  match headers with
  | [] => None
  | (k, v) :: rest =>
      if String.eqb (Js.toLowerCase k) normalizedHeaderName then Some ((k, value) :: rest)
      else option_map (cons (k, v)) (replaceCaseInsensitive normalizedHeaderName value rest)
  end.

Definition setHeaderCaseInsensitive (headers : StringMap) (headerName value : string)
  : StringMap :=
  match replaceCaseInsensitive (Js.toLowerCase headerName) value headers with
  | Some headers' => headers'
  | None => mapSet headerName value headers
  end.

(** [{ ...target, ...source }] *)
Definition spread (target source : StringMap) : StringMap :=
  fold_left (fun acc '(k, v) => mapSet k v acc) source target.

Definition parseCookieHeader (value : string) : StringMap :=
  fold_left
    (fun cookies rawPart =>
       match parsePair (Js.trim rawPart) with
       | Some (name, cookieValue) => mapSet name cookieValue cookies
       | None => cookies
       end)
    (Js.splitOn ";"%char value) [].

Definition mergeCookieHeaders (values : list (option string)) : option string :=
  let merged :=
    fold_left
      (fun merged value =>
         match value with
         | Some (String c r) => spread merged (parseCookieHeader (String c r))
         | _ => merged
         end)
      values [] in
  match merged with
  | [] => None
  | _ => Some (serializeCookieHeader merged)
  end.

(** What the process environment contributes to a request: the
    result of [resolveEnvRequestHeaders] and of [resolveUserAgent]. *)
Record ProcessEnv := {
  envRequestHeaders : StringMap;
  userAgent : string;
}.

Definition resolveAcceptLanguage (url : string) : string :=
  match option_map Js.toLowerCase (URL_hostname url) with
  | Some host =>
      if Js.endsWith ".nl" host then "nl-NL,nl;q=0.9,en-US;q=0.8,en;q=0.7"
      else if Js.endsWith ".de" host || Js.endsWith ".at" host
      then "de-DE,de;q=0.9,en-US;q=0.8,en;q=0.7"
      else if Js.endsWith ".fr" host then "fr-FR,fr;q=0.9,en-US;q=0.8,en;q=0.7"
      else if Js.endsWith ".it" host then "it-IT,it;q=0.9,en-US;q=0.8,en;q=0.7"
      else if Js.endsWith ".es" host then "es-ES,es;q=0.9,en-US;q=0.8,en;q=0.7"
      else if Js.endsWith ".pl" host then "pl-PL,pl;q=0.9,en-US;q=0.8,en;q=0.7"
      else if Js.endsWith ".cz" host then "cs-CZ,cs;q=0.9,en-US;q=0.8,en;q=0.7"
      else if Js.endsWith ".pt" host then "pt-PT,pt;q=0.9,en-US;q=0.8,en;q=0.7"
      else "en-US,en;q=0.9"
  | None => "en-US,en;q=0.9"
  end.

Definition DEFAULT_CSRF_TOKEN : string := "75f6c9fa-dc8e-4e52-a000-e09dd4084b3e".

(** [if (value) setHeaderCaseInsensitive(resolved, name, value)] *)
Definition setIfTruthy (resolved : StringMap) (headerName : string) (value : option string)
  : StringMap :=
  match value with
  | Some (String c r) => setHeaderCaseInsensitive resolved headerName (String c r)
  | _ => resolved
  end.

Definition buildRequestHeaders (env : ProcessEnv) (store : Store) (url : string)
    (headers : StringMap) (hasBody includeUserAgent : bool) (sessionScope : option string)
    (oauthToken : bool) : StringMap :=
  let origin := URL_origin url in
  let envHeaders := if oauthToken then [] else envRequestHeaders env in
  let sessionHeaders :=
    if oauthToken then [] else getDynamicHeadersForUrl url sessionScope store in
  let explicitCookie := readHeaderCaseInsensitive headers "cookie" in
  let sessionCookie := readHeaderCaseInsensitive sessionHeaders "cookie" in
  let envCookie := readHeaderCaseInsensitive envHeaders "cookie" in
  let jarCookie := if oauthToken then None else getCookieHeaderFromJar url sessionScope store in
  let mergedCookie := mergeCookieHeaders [jarCookie; envCookie; sessionCookie; explicitCookie] in
  let mergedCookiesMap :=
    match mergedCookie with
    | Some c => parseCookieHeader c
    | None => []
    end in
  let resolved :=
    spread
      (spread
         (spread
            (((if includeUserAgent then [("user-agent", userAgent env)] else [])
              ++ [("accept", "application/json, text/plain, */*");
                  ("accept-language", resolveAcceptLanguage url)]
              ++ match origin with
                 | Some (String c r) =>
                     [("origin", String c r); ("referer", String c r +:+ "/")]
                 | _ => []
                 end
              ++ (if hasBody then [("content-type", "application/json")] else []))%list)
            envHeaders)
         sessionHeaders)
      headers in
  let resolved := setIfTruthy resolved "cookie" mergedCookie in
  if oauthToken then resolved
  else
    let resolved :=
      match readHeaderCaseInsensitive resolved "x-requested-with" with
      | Some (String _ _) => resolved
      | _ => setHeaderCaseInsensitive resolved "x-requested-with" "XMLHttpRequest"
      end in
    let anonId :=
      Json.orElse (readHeaderCaseInsensitive headers "x-anon-id")
        (Json.orElse (readHeaderCaseInsensitive sessionHeaders "x-anon-id")
           (Json.orElse (readHeaderCaseInsensitive envHeaders "x-anon-id")
              (mapGet "anon_id" mergedCookiesMap))) in
    let resolved := setIfTruthy resolved "x-anon-id" anonId in
    let vUdt :=
      Json.orElse (readHeaderCaseInsensitive headers "x-v-udt")
        (Json.orElse (readHeaderCaseInsensitive sessionHeaders "x-v-udt")
           (mapGet "v_udt" mergedCookiesMap)) in
    let resolved := setIfTruthy resolved "x-v-udt" vUdt in
    let csrfToken :=
      Json.orElse (readHeaderCaseInsensitive headers "x-csrf-token")
        (Json.orElse (readHeaderCaseInsensitive sessionHeaders "x-csrf-token")
           (Json.orElse (readHeaderCaseInsensitive envHeaders "x-csrf-token")
              (Some DEFAULT_CSRF_TOKEN))) in
    let resolved := setIfTruthy resolved "x-csrf-token" csrfToken in
    let priority :=
      Json.orElse (readHeaderCaseInsensitive headers "priority")
        (Json.orElse (readHeaderCaseInsensitive sessionHeaders "priority")
           (Json.orElse (readHeaderCaseInsensitive envHeaders "priority") (Some "u=3"))) in
    setIfTruthy resolved "priority" priority.

End WithPlatform.
End SessionStore.

(** ** vinted-client.ts: combined Set-Cookie headers

    [splitCombinedSetCookieHeader] walks over the header value with an
    index.  Here the walk is over the rest of the string; [current] is
    the text from [start] up to the index, [skip] counts the
    characters that [i += 7] jumps over. *)

Module SetCookie.

(** [headerValue.slice(i, i + 8).toLowerCase() === 'expires='] *)
Definition expiresAt (rest : string) : bool :=
  String.eqb (Js.toLowerCase (Js.take 8 rest)) "expires=".

(** [part = slice.trim(); if (part.length > 0) result.push(part)] *)
Definition pushPart (slice : string) (result : list string) : list string :=
  match Js.trim slice with
  | EmptyString => result
  | part => part :: result
  end.

Definition snoc (s : string) (c : ascii) : string := s +:+ String c EmptyString.

Fixpoint splitFrom (rest : string) (inExpires : bool) (skip : nat) (current : string)
  : list string :=
  match rest with
  | EmptyString => pushPart current []
  | String c r =>
      match skip with
      | S k => splitFrom r inExpires k (snoc current c)
      | O =>
          if negb inExpires && expiresAt rest then splitFrom r true 7 (snoc current c)
          else if inExpires && Ascii.eqb c ";"%char then splitFrom r false 0 (snoc current c)
          else if negb inExpires && Ascii.eqb c ","%char
          then pushPart current (splitFrom r inExpires 0 EmptyString)
          else splitFrom r inExpires 0 (snoc current c)
      end
  end.

Definition splitCombinedSetCookieHeader (headerValue : string) : list string :=
  splitFrom headerValue false 0 EmptyString.

End SetCookie.

(** ** vinted-client.ts: submitting a checkout *)

Module Checkout.
Section WithPlatform.
Context {platform : Platform}.
Import Payload VintedClient.

Notation "'let*' x ':=' m 'in' k" := (bind m (fun x => k))
  (at level 10, x pattern, m at level 100, k at level 200).

(** [asRecord]: an object that is not an array, as its fields. *)
Definition asRecord (value : option json) : option (list (string * json)) :=
  match value with
  | Some (JObj fields) => Some fields
  | _ => None
  end.

Definition pickString (input : list (string * json)) (keys : list string) : option string :=
  Json.firstSome
    (fun key =>
       match Json.assoc key input with
       | Some (JStr value) => if Js.isEmpty (Js.trim value) then None else Some (Js.trim value)
       | _ => None
       end)
    keys.

Definition pickBoolean (input : list (string * json)) (keys : list string) : option bool :=
  Json.firstSome
    (fun key =>
       match Json.assoc key input with
       | Some (JBool value) => Some value
       | _ => None
       end)
    keys.

Definition pickUnknown (input : list (string * json)) (keys : list string) : option json :=
  Json.firstSome (fun key => Json.assoc key input) keys.

(** [...(value !== null ? { key: value } : {})] *)
Definition spreadIf (key : string) (value : option json) : list (string * json) :=
  match value with
  | Some v => [(key, v)]
  | None => []
  end.

(** One component of [normalized]: present when the source has the
    record and one of the picked values is there. *)
Definition component (source : list (string * json)) (key : string)
    (pick : list (string * json) -> list (string * json)) : list (string * json) :=
  match asRecord (Json.assoc key source) with
  | Some record =>
      match pick record with
      | [] => []
      | fields => [(key, JObj fields)]
      end
  | None => []
  end.

(** The body of the loop of [extractCheckoutComponentsPayload] for one
    source: the object [normalized]. *)
Definition normalizedComponents (source : list (string * json)) : list (string * json) :=
  (component source "item_presentation_escrow_v2"
     (fun itemPresentationEscrow =>
        spreadIf "items_to_remove"
          (pickUnknown itemPresentationEscrow ["items_to_remove"; "itemsToRemove"]))
   ++ component source "additional_service"
        (fun additionalService =>
           spreadIf "is_selected"
             (option_map JBool (pickBoolean additionalService ["is_selected"; "isSelected"]))
           ++ spreadIf "type" (option_map JStr (pickString additionalService ["type"])))
   ++ component source "payment_method"
        (fun paymentMethod =>
           spreadIf "card_id" (option_map JStr (pickString paymentMethod ["card_id"; "cardId"]))
           ++ spreadIf "pay_in_method_id"
                (option_map JStr
                   (pickString paymentMethod
                      ["pay_in_method_id"; "method_id"; "methodId"; "payInMethodId"])))
   ++ component source "shipping_address"
        (fun shippingAddress =>
           spreadIf "user_id" (option_map JStr (pickString shippingAddress ["user_id"; "userId"]))
           ++ spreadIf "shipping_address_id"
                (option_map JStr
                   (pickString shippingAddress ["shipping_address_id"; "shippingAddressId"])))
   ++ component source "shipping_pickup_options"
        (fun pickupOptions =>
           spreadIf "pickup_type"
             (option_map JStr (pickString pickupOptions ["pickup_type"; "pickupType"])))
   ++ component source "shipping_pickup_details"
        (fun pickupDetails =>
           spreadIf "rate_uuid"
             (option_map JStr (pickString pickupDetails ["rate_uuid"; "rateUuid"]))
           ++ spreadIf "point_code"
                (option_map JStr (pickString pickupDetails ["point_code"; "pointCode"]))
           ++ spreadIf "point_uuid"
                (option_map JStr (pickString pickupDetails ["point_uuid"; "pointUuid"]))))%list.

Definition extractCheckoutComponentsPayload (payload : json)
  : option (list (string * json)) :=
  let raw := Some payload in
  let candidates :=
    [ asRecord (Json.get raw "components");
      asRecord (Json.get (Json.get raw "checkout") "components");
      asRecord (Json.get (Json.get raw "checkout_data") "components") ] in
  Json.firstSome
    (fun candidate =>
       match candidate with
       | None => None
       | Some source =>
           match normalizedComponents source with
           | [] => None
           | normalized => Some normalized
           end
       end)
    candidates.

(** [value === true] *)
Definition isTrue (value : option json) : bool :=
  match value with
  | Some (JBool true) => true
  | _ => false
  end.

(** The truthiness of a parsed value; [undefined] is [None]. *)
Definition truthy (value : option json) : bool :=
  match value with
  | None | Some JNull => false
  | Some (JBool b) => b
  | Some (JNum q) => negb (Json.isZero q)
  | Some JInf => true
  | Some (JStr s) => negb (Js.isEmpty s)
  | Some (JArr _) | Some (JObj _) => true
  end.

Definition saysCompleted (value : option json) : bool :=
  match value with
  | Some (JStr s) =>
      let normalized := Js.toLowerCase s in
      Js.includes normalized "success" || Js.includes normalized "paid"
      || Js.includes normalized "complete" || Js.includes normalized "finished"
  | _ => false
  end.

Definition isCheckoutPurchaseCompleted (payload : json) : bool :=
  let raw := Some payload in
  let checkout := Json.get raw "checkout" in
  if isTrue (Json.get raw "has_bought") || isTrue (Json.get checkout "has_bought") then true
  else if isTrue (Json.get raw "paid") || isTrue (Json.get checkout "paid") then true
  else if isTrue (Json.get raw "purchase_success") || isTrue (Json.get raw "checkout_success")
  then true
  else if truthy (Json.get raw "success_payment_navigation")
          || truthy (Json.get raw "successPaymentNavigation")
  then true
  else
    existsb saysCompleted
      [ Json.get raw "status";
        Json.get checkout "status";
        Json.get (Json.get raw "purchase") "status";
        Json.get raw "payment_status";
        Json.get checkout "payment_status";
        Json.get checkout "state" ].

Record SubmitCheckoutInput := {
  region : VintedRegion;
  accessToken : string;
  refreshToken : option string;
  purchaseId : Z;
  sessionKey : option string;
}.

Record Purchased := { purchased : bool }.

(** The closure [sendCheckoutUpdate] of [submitCheckoutPurchase], with
    what it captures as arguments. *)
Definition sendCheckoutUpdate (input : SubmitCheckoutInput) (url : string) (body : json)
  : Action (Result json VintedError) :=
  let request (includeAuthorization : bool) :=
    fetchJson
      {| url := url; method := "PUT";
         headers := buildActionAuthHeaders (accessToken input) (refreshToken input)
                      includeAuthorization;
         body := Some body; sessionScope := sessionKey input; requestProfile := default |} in
  let* primaryJson := request false in
  let* json := match primaryJson with
          | err message =>
              if shouldRetryWithAuthorization message then request true else ret primaryJson
          | ok _ => ret primaryJson
          end in
  match json with
  | err e => ret (err e)
  | ok value =>
      match extractErrorsPayloadMessage value with
      | Some payloadError => ret (err payloadError)
      | None => ret (ok value)
      end
  end.

Definition submitCheckoutPurchase (input : SubmitCheckoutInput)
  : Action (Result Purchased VintedError) :=
  let baseUrl := baseUrlForRegion (region input) in
  let* _ := warmupHostSession baseUrl (sessionKey input) in
  let url :=
    baseUrl +:+ "/api/v2/purchases/" +:+ Js.decimal (purchaseId input) +:+ "/checkout" in
  let* firstAttempt := sendCheckoutUpdate input url (JObj [("components", JArr [])]) in
  match firstAttempt with
  | err e => ret (err e)
  | ok firstValue =>
      if isCheckoutPurchaseCompleted firstValue then ret (ok {| purchased := true |})
      else
        match extractCheckoutComponentsPayload firstValue with
        | None =>
            let* _ := logInfo
              "Checkout submit response did not provide reusable checkout components" in
            ret (ok {| purchased := false |})
        | Some components =>
            let* secondAttempt :=
              sendCheckoutUpdate input url (JObj [("components", JObj components)]) in
            match secondAttempt with
            | err e => ret (err e)
            | ok secondValue =>
                if isCheckoutPurchaseCompleted secondValue
                then ret (ok {| purchased := true |})
                else
                  let* _ := logInfo "Checkout submit finished without purchase confirmation" in
                  ret (ok {| purchased := false |})
            end
        end
  end.

End WithPlatform.
End Checkout.

(** ** vinted-client.ts: the token request

    [pRetry] with [retries: 2] runs its function up to three times: a
    thrown [AbortError] ends the run at once, any other error ends it
    when no retry is left; the run fails with the error thrown last. *)

Module OAuth.
Section WithPlatform.
Context {platform : Platform}.
Import Payload VintedClient.

Notation "'let*' x ':=' m 'in' k" := (bind m (fun x => k))
  (at level 10, x pattern, m at level 100, k at level 200).

Definition isInvalidGrantError (message : string) : bool :=
  let lower := Js.toLowerCase message in
  Js.includes lower "invalid_grant" || Js.includes lower "authorization grant is invalid".

Record RefreshInput := {
  region : VintedRegion;
  refreshToken : string;
  sessionKey : option string;
}.

(** A JS number that [JSON.parse] can return. *)
Inductive Num :=
  | Finite (q : Q)
  | Infinite.

Record VintedTokenResponse := {
  accessToken : string;
  newRefreshToken : string;
  expiresIn : Num;
  createdAt : Num;
}.

Definition tokenRequest (input : RefreshInput) : FetchJsonInput :=
  {| url := baseUrlForRegion (region input) +:+ "/oauth/token";
     method := "POST";
     headers := [];
     body := Some (JObj [("client_id", JStr "web");
                         ("scope", JStr "user");
                         ("grant_type", JStr "refresh_token");
                         ("refresh_token", JStr (refreshToken input))]);
     sessionScope := sessionKey input;
     requestProfile := oauth_token |}.

(** The run of [pRetry]: the value the function returned, if any, and
    [lastErrorMessage]. *)
Fixpoint attempts (retriesLeft : nat) (input : RefreshInput) (lastErrorMessage : option string)
  : Action (option json * option string) :=
  let* json := fetchJson (tokenRequest input) in
  match json with
  | ok value => ret (Some value, lastErrorMessage)
  | err message =>
      if Js.includes (Js.toLowerCase message) "blockiert" || isInvalidGrantError message
      then ret (None, Some message)
      else
        match retriesLeft with
        | O => ret (None, Some message)
        | S fewer => attempts fewer input (Some message)
        end
  end.

Definition asNumber (value : option json) : option Num :=
  match value with
  | Some (JNum q) => Some (Finite q)
  | Some JInf => Some Infinite
  | _ => None
  end.

(** [lastErrorMessage ?? 'Failed to refresh Vinted token.'] *)
Definition refreshFailure (lastErrorMessage : option string) : string :=
  match lastErrorMessage with
  | Some message => message
  | None => "Failed to refresh Vinted token."
  end.

(** [refreshToken] of the client. *)
Definition refresh (input : RefreshInput) : Action (Result VintedTokenResponse VintedError) :=
  let* run := attempts 2 input None in
  let res := run.1 in
  let lastErrorMessage := run.2 in
  match res with
  | Some value =>
      if Checkout.truthy (Some value) then
        match extractErrorsPayloadMessage value with
        | Some payloadError => ret (err payloadError)
        | None =>
            let raw := Some value in
            match asString (Json.get raw "access_token"),
                  asString (Json.get raw "refresh_token"),
                  asNumber (Json.get raw "expires_in"),
                  asNumber (Json.get raw "created_at") with
            | Some accessToken, Some refreshToken, Some expiresIn, Some createdAt =>
                ret (ok {| accessToken := accessToken; newRefreshToken := refreshToken;
                           expiresIn := expiresIn; createdAt := createdAt |})
            | _, _, _, _ => ret (err "Unexpected token response from Vinted.")
            end
        end
      else ret (err (refreshFailure lastErrorMessage))
  | None => ret (err (refreshFailure lastErrorMessage))
  end.

End WithPlatform.
End OAuth.

(** ** vinted-actions-service.ts: the submit fallback

    The operations of the client that the service is given as
    dependencies are answers here: the answer to a call depends on
    the call and on how many calls were made before it. *)

Module ActionsService.

(** [seen] holds the decimal texts of the ids kept so far. *)
Definition normalizeStep (state : gset string * list Z) (candidate : Z)
  : gset string * list Z :=
  let '(seen, normalized) := state in
  if candidate <=? 0 then state
  else
    let key := Js.decimal candidate in
    if decide (key ∈ seen) then state
    else ({[ key ]} ∪ seen, (normalized ++ [candidate])%list).

Definition normalizePurchaseIdCandidates (candidates : list Z) : list Z :=
  (fold_left normalizeStep candidates (∅, [])).2.

(** [message.replace(/\\\//g, '/')] *)
Fixpoint unescapeSlashes (message : string) : string :=
  match message with
  | String "\"%char (String "/"%char r) => String "/"%char (unescapeSlashes r)
  | String c r => String c (unescapeSlashes r)
  | EmptyString => EmptyString
  end.

(** The class of characters other than white space, quotes and angle
    brackets. *)
Definition isUrlChar (c : ascii) : bool :=
  negb (Js.isSpace c || Ascii.eqb c (ascii_of_nat 34) || Ascii.eqb c "'"%char
        || Ascii.eqb c "<"%char || Ascii.eqb c ">"%char).

(** The longest prefix of characters of the class. *)
Fixpoint urlRun (s : string) : string :=
  match s with
  | String c r => if isUrlChar c then String c (urlRun r) else EmptyString
  | EmptyString => EmptyString
  end.

(** A match of the pattern that starts where [s] starts: the scheme,
    then characters of the class with the captcha host and path among
    them.  Both repetitions of the class are greedy, so the match
    runs to the end of the characters of the class. *)
Definition challengeUrlAt (s : string) : option string :=
  let lowerStart := Js.toLowerCase (Js.take 8 s) in
  let schemeLength :=
    if Js.startsWith "https://" lowerStart then Some 8%nat
    else if Js.startsWith "http://" lowerStart then Some 7%nat
    else None in
  match schemeLength with
  | Some n =>
      let run := urlRun (Js.drop n s) in
      if Js.includes (Js.toLowerCase run) "captcha-delivery.com/captcha/"
      then Some (Js.take n s +:+ run)
      else None
  | None => None
  end.

(** The leftmost match. *)
Fixpoint firstChallengeUrl (s : string) : option string :=
  match challengeUrlAt s with
  | Some url => Some url
  | None =>
      match s with
      | String _ r => firstChallengeUrl r
      | EmptyString => None
      end
  end.

Definition extractCaptchaChallengeUrl (message : string) : option string :=
  option_map Js.trim (firstChallengeUrl (unescapeSlashes message)).

Inductive InstantBuyStatus :=
  | purchased
  | purchased_without_pickup
  | manual_checkout_required
  | blocked
  | access_denied
  | invalid_pickup_point
  | failed.

Record InstantBuyResult := {
  status : InstantBuyStatus;
  challengeUrl : option string;
}.

(** [...(challengeUrl ? { challengeUrl } : {})] *)
Definition withChallengeUrl (status : InstantBuyStatus) (challengeUrl : option string)
  : InstantBuyResult :=
  {| status := status;
     challengeUrl := match challengeUrl with
                     | Some (String c r) => Some (String c r)
                     | _ => None
                     end |}.

Record SubmitFallbackInput := {
  discordUserId : string;
  itemId : Z;
  region : VintedRegion;
  accessToken : string;
  refreshToken : option string;
  purchaseIdCandidates : list Z;
}.

(** The dependency [submitCheckoutPurchase]: the answer to the call
    with the given number. *)
Definition SubmitCheckoutPurchase :=
  nat -> Checkout.SubmitCheckoutInput -> Result Checkout.Purchased string.

Definition submitInput (input : SubmitFallbackInput) (purchaseId : Z)
  : Checkout.SubmitCheckoutInput :=
  {| Checkout.region := region input;
     Checkout.accessToken := accessToken input;
     Checkout.purchaseId := purchaseId;
     Checkout.sessionKey := Some (discordUserId input);
     Checkout.refreshToken := match refreshToken input with
                              | Some (String c r) => Some (String c r)
                              | _ => None
                              end |}.

(** The loop over the candidates and the statements after it.  The
    result comes with the calls of the dependency, in order. *)
Fixpoint submitLoop (submitCheckoutPurchase : SubmitCheckoutPurchase)
    (input : SubmitFallbackInput) (candidates : list Z)
    (hasManualCheckoutHint hasBlockedFailure hasAccessDeniedFailure hasFailedFallback : bool)
    (challengeUrl : option string) (calls : list Checkout.SubmitCheckoutInput)
  : option InstantBuyResult * list Checkout.SubmitCheckoutInput :=
  match candidates with
  | purchaseId :: rest =>
      let call := submitInput input purchaseId in
      let calls' := (calls ++ [call])%list in
      match submitCheckoutPurchase (length calls) call with
      | ok value =>
          if Checkout.purchased value
          then (Some {| status := purchased; challengeUrl := None |}, calls')
          else submitLoop submitCheckoutPurchase input rest true hasBlockedFailure
                 hasAccessDeniedFailure hasFailedFallback challengeUrl calls'
      | err message =>
          let submitFailure := CheckoutClassification.classifyCheckoutErrorMessage message in
          let submitChallengeUrl := extractCaptchaChallengeUrl message in
          let challengeUrl' :=
            match challengeUrl, submitChallengeUrl with
            | Some (String _ _), _ => challengeUrl
            | _, Some (String c r) => Some (String c r)
            | _, _ => challengeUrl
            end in
          match submitFailure with
          | CheckoutClassification.blocked =>
              submitLoop submitCheckoutPurchase input rest hasManualCheckoutHint true
                hasAccessDeniedFailure hasFailedFallback challengeUrl' calls'
          | CheckoutClassification.access_denied =>
              submitLoop submitCheckoutPurchase input rest hasManualCheckoutHint
                hasBlockedFailure true hasFailedFallback challengeUrl' calls'
          | _ =>
              submitLoop submitCheckoutPurchase input rest hasManualCheckoutHint
                hasBlockedFailure hasAccessDeniedFailure true challengeUrl' calls'
          end
      end
  | [] =>
      (if hasManualCheckoutHint then Some (withChallengeUrl manual_checkout_required challengeUrl)
       else if hasAccessDeniedFailure then Some {| status := access_denied; challengeUrl := None |}
       else if hasBlockedFailure then Some (withChallengeUrl blocked challengeUrl)
       else if hasFailedFallback
       then Some (withChallengeUrl manual_checkout_required challengeUrl)
       else None,
       calls)
  end.

Definition attemptSubmitWithoutCheckoutUrl (submitCheckoutPurchase : SubmitCheckoutPurchase)
    (input : SubmitFallbackInput)
  : option InstantBuyResult * list Checkout.SubmitCheckoutInput :=
  match normalizePurchaseIdCandidates (purchaseIdCandidates input) with
  | [] => (None, [])
  | candidates =>
      submitLoop submitCheckoutPurchase input candidates false false false false None []
  end.

End ActionsService.

(** ** vinted-client.ts: operations that read the answer without a guard

    These operations look into the parsed answer with plain property
    access, which throws on [null].  An operation either returns its
    result or throws. *)

Module Unguarded.
Section WithPlatform.
Context {platform : Platform}.
Import Payload VintedClient.

Notation "'let*' x ':=' m 'in' k" := (bind m (fun x => k))
  (at level 10, x pattern, m at level 100, k at level 200).

Inductive Outcome (A : Type) :=
  | Returns (value : A)
  | Throws (error : string).

Arguments Returns {A} value.
Arguments Throws {A} error.

Definition typeError : string := "TypeError".

Definition rangeError : string := "RangeError".

(** [value && typeof value[key] === 'object' ? value[key] : undefined] *)
Definition objectField (value : option json) (key : string) : option json :=
  if Checkout.truthy value then
    match Json.get value key with
    | Some (JObj fields) => Some (JObj fields)
    | Some (JArr items) => Some (JArr items)
    | Some JNull => Some JNull
    | _ => None
    end
  else None.

Record Transaction := { transactionId : Z }.

Definition createConversationTransaction (input : ActionInput) (sellerUserId : Q)
  : Action (Outcome (Result Transaction VintedError)) :=
  let baseUrl := baseUrlForRegion (region input) in
  let* _ := warmupHostSession baseUrl (sessionKey input) in
  let url := baseUrl +:+ "/api/v2/conversations" in
  let* json := fetchWithAuthorizationRetry input url "POST"
            (JObj [("initiator", JStr "buyer_enters_offer_form");
                   ("item_id", JNum (inject_Z (itemId input)));
                   ("opposite_user_id", JNum sellerUserId)]) in
  match json with
  | err e => ret (Returns (err e))
  | ok value =>
      match extractErrorsPayloadMessage value with
      | Some payloadError => ret (Returns (err payloadError))
      | None =>
          let payload := Some value in
          let conversation := objectField payload "conversation" in
          let transaction := objectField payload "transaction" in
          let conversationTransaction := objectField conversation "transaction" in
          let missing :=
            let* _ := logInfo "Conversation response missing transaction id" in
            ret (Returns (err "Conversation created but transaction id missing.")) in
          let finish (transactionIdCandidate : option Z) :=
            match transactionIdCandidate with
            | Some id =>
                if id =? 0 then missing else ret (Returns (ok {| transactionId := id |}))
            | None => missing
            end in
          match Json.orElse (parseBigintCandidate (Json.get conversationTransaction "id"))
                  (Json.orElse (parseBigintCandidate (Json.get conversation "transaction_id"))
                     (parseBigintCandidate (Json.get transaction "id"))) with
          | Some id => finish (Some id)
          | None =>
              match value with
              | JNull => ret (Throws typeError)
              | _ =>
                  finish (Json.orElse (parseBigintCandidate (Json.get payload "transaction_id"))
                            (parseBigintCandidate (Json.get payload "transactionId")))
              end
          end
      end
  end.

Record OfferEstimate := { total : string; serviceFee : option string }.

Definition estimateOfferWithFees (input : ActionInput) (amount : Q) (currencyCode : string)
  : Action (Outcome (Result OfferEstimate VintedError)) :=
  let baseUrl := baseUrlForRegion (region input) in
  let* _ := warmupHostSession baseUrl (sessionKey input) in
  let url := baseUrl +:+ "/api/v2/offer/estimate_with_fees" in
  let* json := fetchWithAuthorizationRetry input url "POST"
            (JObj [("item_id", JStr (Js.decimal (itemId input)));
                   ("amount",
                    JObj [("amount", JStr (Number_toFixed2 amount));
                          ("currency_code", JStr currencyCode)])]) in
  match json with
  | err e => ret (Returns (err e))
  | ok value =>
      match extractErrorsPayloadMessage value with
      | Some payloadError => ret (Returns (err payloadError))
      | None =>
          match value with
          | JNull => ret (Throws typeError)
          | _ =>
              let raw := Some value in
              let total := Json.get (Json.get raw "total_item_price") "amount" in
              let fee := Json.get (Json.get raw "service_fee") "amount" in
              match total with
              | Some (JStr total) =>
                  ret (Returns (ok {| total := total; serviceFee := asString fee |}))
              | _ => ret (Returns (err "Unexpected offer estimate response."))
              end
          end
      end
  end.

Record GetUserInput := {
  region : VintedRegion;
  accessToken : string;
  userId : Q;
  sessionKey : option string;
}.

Record VintedUser := {
  id : OAuth.Num;
  login : string;
  feedbackReputation : option OAuth.Num;
  feedbackCount : option OAuth.Num;
}.

Definition getUser (input : GetUserInput) : Action (Outcome (Result VintedUser VintedError)) :=
  let baseUrl := baseUrlForRegion (region input) in
  let url := baseUrl +:+ "/api/v2/users/" +:+ Number_toString (userId input) in
  let* json := fetchJson
            {| url := url; method := "GET";
               headers := [("authorization", "Bearer " +:+ accessToken input)];
               body := None; sessionScope := sessionKey input; requestProfile := default |} in
  match json with
  | err e => ret (Returns (err e))
  | ok value =>
      match extractErrorsPayloadMessage value with
      | Some payloadError => ret (Returns (err payloadError))
      | None =>
          match value with
          | JNull => ret (Throws typeError)
          | _ =>
              let user := Json.get (Some value) "user" in
              if Checkout.truthy user && Json.isObjectLike user then
                ret (Returns (ok
                  {| id := match OAuth.asNumber (Json.get user "id") with
                           | Some n => n
                           | None => OAuth.Finite (userId input)
                           end;
                     login := match asString (Json.get user "login") with
                              | Some s => s
                              | None => Number_toString (userId input)
                              end;
                     feedbackReputation := OAuth.asNumber (Json.get user "feedback_reputation");
                     feedbackCount := OAuth.asNumber (Json.get user "feedback_count") |}))
              else ret (Returns (err "Unexpected user response."))
          end
      end
  end.

Record Price := { amount : string; currency_code : string }.

Record CatalogUser := { userNumber : OAuth.Num; userLogin : string; profile_url : string }.

Record VintedCatalogItem := {
  itemNumber : Z;
  title : string;
  itemUrl : string;
  price : Price;
  size_title : string;
  status : string;
  photoUrl : option string;
  user : CatalogUser;
}.

(** [parseCatalogItem] without the date of the last update: the item,
    [None] for null, or the error of [BigInt] on a number that is not
    an integer. *)
Definition parseCatalogItem (raw : json) : Outcome (option VintedCatalogItem) :=
  let value := Some raw in
  if negb (Checkout.truthy value && Json.isObjectLike value) then Returns None
  else
    match OAuth.asNumber (Json.get value "id") with
    | None => Returns None
    | Some id =>
        match asString (Json.get value "url") with
        | None | Some EmptyString => Returns None
        | Some url =>
            let user := Json.get value "user" in
            match OAuth.asNumber (Json.get user "id"),
                  asString (Json.get user "login"),
                  asString (Json.get user "profile_url") with
            | Some userId, Some userLogin, Some profileUrl =>
                let price := Json.get value "price" in
                match asString (Json.get price "amount"),
                      asString (Json.get price "currency_code") with
                | Some amount, Some currencyCode =>
                    match id with
                    | OAuth.Finite q =>
                        if Json.isInteger q then
                          Returns (Some
                            {| itemNumber := Qnum (Qred q);
                               title := match asString (Json.get value "title") with
                                        | Some s => s
                                        | None => "Ohne Titel"
                                        end;
                               itemUrl := url;
                               price := {| amount := amount; currency_code := currencyCode |};
                               size_title := match asString (Json.get value "size_title") with
                                             | Some s => s
                                             | None => EmptyString
                                             end;
                               status := match asString (Json.get value "status") with
                                         | Some s => s
                                         | None => EmptyString
                                         end;
                               photoUrl := asString (Json.get (Json.get value "photo") "url");
                               user := {| userNumber := userId; userLogin := userLogin;
                                          profile_url := profileUrl |} |})
                        else Throws rangeError
                    | OAuth.Infinite => Throws rangeError
                    end
                | _, _ => Returns None
                end
            | _, _, _ => Returns None
            end
        end
    end.

End WithPlatform.

Arguments Returns {A} value.
Arguments Throws {A} error.

End Unguarded.

(** * Properties *)

Local Open Scope list_scope.

(** ** Sanity checks of the string layer *)

Example toLowerCase_ascii :
  Js.toLowerCase "Vinted (403) ACCESS_denied" = "vinted (403) access_denied".
Proof. reflexivity. Qed.

Example decimal_examples :
  Js.decimal 99887766 = "99887766" /\ Js.decimal 0 = "0" /\ Js.decimal (-45) = "-45"
  /\ Js.decimal 8140069581 = "8140069581".
Proof. repeat split; reflexivity. Qed.

Example trim_example : Js.trim "  a b  " = "a b".
Proof. reflexivity. Qed.

Example splitOn_example : Js.splitOn ";"%char "a=1; b=2;" = ["a=1"; " b=2"; EmptyString].
Proof. reflexivity. Qed.

Example extractStatusCode_leftmost :
  CheckoutClassification.extractStatusCode "a (12) (1234) (40a) (404) (500)" = Some 404
  /\ CheckoutClassification.extractStatusCode "Anti-Bot/Cloudflare" = None.
Proof. split; reflexivity. Qed.

Example bigIntOfString_examples :
  Json.bigIntOfString "0x1F" = Some 31 /\ Json.bigIntOfString "-12" = Some (-12)
  /\ Json.bigIntOfString "1.5" = None /\ Json.bigIntOfString "0" = Some 0
  /\ Json.bigIntOfString "0x" = None.
Proof. repeat split; reflexivity. Qed.

Example parseInt10_examples :
  Json.parseInt10 " 403 Forbidden" = Some 403 /\ Json.parseInt10 "-7" = Some (-7)
  /\ Json.parseInt10 "ok" = None.
Proof. repeat split; reflexivity. Qed.

(** ** Checkout failure classification *)

Module ClassificationFacts.
Import CheckoutClassification.





(** The precedence written out from the description of the
    classifier: the hints it names, then the four rules in order. *)
Definition hasAccessDeniedHint (message : string) : bool :=
  let lower := Js.toLowerCase message in
  Js.includes lower (Js.dq +:+ "message_code" +:+ Js.dq +:+ ":" +:+ Js.dq +:+ "access_denied" +:+ Js.dq) ||
  Js.includes lower ("message_code" +:+ Js.dq +:+ ":" +:+ Js.dq +:+ "access_denied") ||
  Js.includes lower "message_code=access_denied" ||
  Js.includes lower "access_denied" ||
  Js.includes lower (Js.dq +:+ "code" +:+ Js.dq +:+ ":106") ||
  Js.includes lower "access denied" ||
  includesCp (normalizeForMatch message) (codePoints "acces refuse").

Definition hasBlockedKeyword (message : string) : bool :=
  let lower := Js.toLowerCase message in
  Js.includes lower "blockiert" || Js.includes lower "cloudflare" ||
  Js.includes lower "captcha" || Js.includes lower "just a moment".

Definition hasPickupHint (message : string) : bool :=
  let lower := Js.toLowerCase message in
  Js.includes lower "pickup" || Js.includes lower "abholpunkt" ||
  Js.includes lower "relay" || Js.includes lower "parcel".

Definition statusIn401_403_none (message : string) : bool :=
  match extractStatusCode message with
  | None => true
  | Some k => (k =? 401) || (k =? 403)
  end.

Definition statusIs403 (message : string) : bool :=
  match extractStatusCode message with
  | Some k => k =? 403
  | None => false
  end.

Definition classifyByPrecedence (message : string) : CheckoutFailureStatus :=
  if hasAccessDeniedHint message && statusIn401_403_none message then access_denied
  else if hasBlockedKeyword message || statusIs403 message then blocked
  else if hasPickupHint message then invalid_pickup_point
  else failed.

Lemma statusIn_unfold message :
  statusIs (extractStatusCode message) 401 || statusIs (extractStatusCode message) 403
  || statusIsNull (extractStatusCode message) = statusIn401_403_none message.
Proof.
  unfold statusIn401_403_none, statusIs, statusIsNull.
  destruct (extractStatusCode message) as [k|]; [|reflexivity].
  now rewrite orb_false_r.
Qed.

Lemma classify_precedence message :
  classifyCheckoutErrorMessage message = classifyByPrecedence message.
Proof.
  unfold classifyCheckoutErrorMessage, classifyByPrecedence.
  cbv zeta. rewrite statusIn_unfold.
  fold (hasAccessDeniedHint message).
  destruct (hasAccessDeniedHint message && statusIn401_403_none message); [reflexivity|].
  change (statusIs (extractStatusCode message) 403) with (statusIs403 message).
  rewrite <- !orb_assoc.
  unfold hasBlockedKeyword. cbv zeta. rewrite <- !orb_assoc.
  match goal with |- (if ?b then _ else _) = _ => destruct b end; [reflexivity|].
  unfold hasPickupHint. cbv zeta. rewrite <- !orb_assoc.
  match goal with |- (if ?b && _ then _ else if ?b then _ else _) = _ => destruct b end;
    simpl; [|reflexivity].
  match goal with |- (if ?b then _ else _) = _ => destruct b end; reflexivity.
Qed.


(** The order of the rules shows on messages that carry several
    signals. *)
Example access_denied_before_blocked :
  classifyCheckoutErrorMessage "Vinted request failed (403). access_denied, captcha required"
    = access_denied
  /\ classifyCheckoutErrorMessage "Vinted request failed (500). access_denied, captcha required"
    = blocked
  /\ classifyCheckoutErrorMessage "Vinted request failed (403). Forbidden" = blocked
  /\ classifyCheckoutErrorMessage "Vinted request failed (500). access_denied at pickup point"
    = invalid_pickup_point
  /\ classifyCheckoutErrorMessage "access denied" = access_denied.
Proof. repeat split; vm_compute; reflexivity. Qed.

End ClassificationFacts.

(** ** Token lifecycle *)

Module TokenFacts.
Import TokenService.

(** The refresh operation is reached and answers with an error. *)
Definition refreshFailsWith (env : Env) (uid message : string) : Prop :=
  exists account region token,
    getAccountForUser env uid = ok account /\
    parseRegion (accountRegion account) = ok region /\
    decryptToken env (encryptedRefreshToken account) = Some token /\
    vintedRefreshToken env region token uid = err message.

(** One awaited call: when it is made, when its refresh is answered,
    and what the collaborators answer. *)
Record Attempt := { tEnter : Z; tSettle : Z; env : Env }.

Definition runAttempt (uid : string) (st : State) (a : Attempt) : State :=
  (callAndAwait (env a) (tEnter a) (tSettle a) uid st).1.1.

Definition runAttempts (uid : string) (attempts : list Attempt) (st : State) : State :=
  fold_left (runAttempt uid) attempts st.

(** The call starts a refresh, and the refresh fails with a message
    that [isBlockedError] accepts. *)
Definition blockedFailure (uid : string) (st : State) (a : Attempt) : Prop :=
  tEnter a <= tSettle a /\
  (exists p, (enter (tEnter a) uid st).1.1 = Starts p) /\
  (exists m, refreshFailsWith (env a) uid m /\ isBlockedError m = true).

(** Calls in a row, each one a blocked refresh failure. *)
Fixpoint blockedFailures (uid : string) (attempts : list Attempt) (st : State) : Prop :=
  match attempts with
  | [] => True
  | a :: rest => blockedFailure uid st a /\ blockedFailures uid rest (runAttempt uid st a)
  end.

Definition strikesOf (uid : string) (st : State) : Z :=
  match blocked st !! uid with Some b => strikes b | None => 0 end.

Definition backoffDelay (strikes : Z) : Z := Z.min (30 * 60000) (30000 * 2 ^ strikes).

(** The cached token of the user, if any, is within 30 s of its expiry. *)
Definition cacheStale (uid : string) (now : Z) (st : State) : Prop :=
  match cache st !! uid with
  | Some cached => expiresAtMs cached - 30000 <= now
  | None => True
  end.

Lemma enter_starts_inv now uid st p :
  (enter now uid st).1.1 = Starts p ->
  cacheStale uid now st /\ inFlight st !! uid = None /\ p = nextPromise st /\
  enter now uid st =
    (Starts p,
     {| cache := cache st; blocked := blocked st; reauthRequired := reauthRequired st;
        inFlight := <[uid := p]> (inFlight st); nextPromise := S p |},
     [LoadAccount uid]).
Proof.
  unfold enter, cacheStale.
  destruct (cache st !! uid) as [c|] eqn:Hc.
  - destruct (now <? expiresAtMs c - 30000) eqn:Hf; [discriminate|].
    apply Z.ltb_ge in Hf.
    destruct (match blocked st !! uid with Some b => now <? until b | None => false end);
      [discriminate|].
    destruct (match reauthRequired st !! uid with
              | Some r => now <? reauthUntil r | None => false end); [discriminate|].
    destruct (inFlight st !! uid); [discriminate|].
    simpl. intros [= <-]. auto.
  - destruct (match blocked st !! uid with Some b => now <? until b | None => false end);
      [discriminate|].
    destruct (match reauthRequired st !! uid with
              | Some r => now <? reauthUntil r | None => false end); [discriminate|].
    destruct (inFlight st !! uid); [discriminate|].
    simpl. intros [= <-]. auto.
Qed.

Lemma refreshBody_blocked env now uid st m :
  refreshFailsWith env uid m -> isBlockedError m = true ->
  exists tr,
    refreshBody env now uid st =
      (withBlocked (fun b => <[uid := bumpBackoff now (b !! uid)]> b) st, err m, tr)
    /\ refreshCalls tr = 1%nat.
Proof.
  intros (a & r & t & Ha & Hr & Hd & Hf) Hb.
  unfold refreshBody. rewrite Ha, Hr, Hd, Hf, Hb. eexists; split; reflexivity.
Qed.

Lemma runAttempt_blocked uid st a :
  blockedFailure uid st a ->
  let st' := runAttempt uid st a in
  blocked st' !! uid = Some (bumpBackoff (tSettle a) (blocked st !! uid))
  /\ cache st' = cache st
  /\ cacheStale uid (tEnter a) st.
Proof.
  intros (Ht & [p Hp] & m & Hm & Hb).
  destruct (enter_starts_inv _ _ _ _ Hp) as (Hstale & Hfl & -> & Heq).
  unfold runAttempt, callAndAwait. rewrite Heq. unfold settle.
  destruct (refreshBody_blocked (env a) (tSettle a) uid
              {| cache := cache st; blocked := blocked st;
                 reauthRequired := reauthRequired st;
                 inFlight := <[uid := nextPromise st]> (inFlight st);
                 nextPromise := S (nextPromise st) |} m Hm Hb) as (tr & Hbody & _).
  rewrite Hbody. simpl. rewrite lookup_insert_eq. auto.
Qed.

Lemma bump_strikes now prev :
  strikes (bumpBackoff now prev) =
    Z.min (match prev with Some b => strikes b | None => 0 end + 1) 6.
Proof. reflexivity. Qed.

Lemma bump_until now prev :
  until (bumpBackoff now prev) = now + backoffDelay (strikes (bumpBackoff now prev)).
Proof. reflexivity. Qed.

Lemma blockState_eta b : b = {| until := until b; strikes := strikes b |}.
Proof. now destruct b. Qed.

Lemma blockedFailures_snoc uid attempts last st :
  blockedFailures uid (attempts ++ [last]) st ->
  blockedFailures uid attempts st /\
  blockedFailure uid (runAttempts uid attempts st) last.
Proof.
  revert st. induction attempts as [|a rest IH]; simpl; intros st.
  - tauto.
  - intros [Ha Hrest]. destruct (IH _ Hrest). auto.
Qed.

(** Strikes after [n] blocked failures in a row, from any state. *)
Lemma strikes_after uid attempts st :
  blockedFailures uid attempts st ->
  attempts <> [] ->
  strikesOf uid (runAttempts uid attempts st) =
    Z.min (strikesOf uid st + Z.of_nat (length attempts)) 6.
Proof.
  revert st. induction attempts as [|a rest IH]; [congruence|].
  intros st [Ha Hrest] _. simpl.
  destruct (runAttempt_blocked uid st a Ha) as (Hb & _ & _).
  assert (H1 : strikesOf uid (runAttempt uid st a) = Z.min (strikesOf uid st + 1) 6).
  { unfold strikesOf at 1. rewrite Hb. apply bump_strikes. }
  destruct rest as [|b rest'].
  - simpl. rewrite H1. reflexivity.
  - change (fold_left (runAttempt uid) (b :: rest') (runAttempt uid st a))
      with (runAttempts uid (b :: rest') (runAttempt uid st a)).
    rewrite IH; [|assumption|discriminate].
    rewrite H1. change (length (a :: b :: rest')) with (S (length (b :: rest'))). lia.
Qed.

Lemma runAttempts_snoc uid attempts last st :
  runAttempts uid (attempts ++ [last]) st = runAttempt uid (runAttempts uid attempts st) last.
Proof. unfold runAttempts. now rewrite fold_left_app. Qed.

Lemma enter_blocked_fast now uid st b :
  cacheStale uid now st ->
  blocked st !! uid = Some b -> now < until b ->
  enter now uid st = (Returned (err blockedError), st, []).
Proof.
  unfold cacheStale, enter. intros Hs Hb Hlt. rewrite Hb.
  apply Z.ltb_lt in Hlt. rewrite Hlt.
  destruct (cache st !! uid) as [c|]; [|reflexivity].
  apply Z.ltb_ge in Hs. now rewrite Hs.
Qed.

(** C2. After [N >= 1] blocked refresh failures in a row for a user
    who had no block state, the block state of the user has
    [min N 6] strikes and lasts until the time of the last failure
    plus [min (30 min) (30 s * 2 ^ min N 6)]; until then a call of
    getAccessToken returns the blocked error at once, with no effect
    and no change of state. *)
Theorem blocked_backoff_after_consecutive_failures
    (uid : string) (st0 : State) (attempts : list Attempt) (last : Attempt) :
  blocked st0 !! uid = None ->
  blockedFailures uid (attempts ++ [last]) st0 ->
  let N := Z.of_nat (length (attempts ++ [last])) in
  let st := runAttempts uid (attempts ++ [last]) st0 in
  let delay := Z.min (30 * 60 * 1000) (30 * 1000 * 2 ^ Z.min N 6) in
  1 <= N
  /\ blocked st !! uid = Some {| until := tSettle last + delay; strikes := Z.min N 6 |}
  /\ forall now, tSettle last <= now -> now < tSettle last + delay ->
       enter now uid st = (Returned (err blockedError), st, []).
Proof.
  intros Hnone Hall N st delay.
  destruct (blockedFailures_snoc _ _ _ _ Hall) as [Hprev Hlast].
  assert (HN : N = Z.of_nat (length attempts) + 1).
  { unfold N. rewrite length_app. simpl. lia. }
  assert (Hk : strikesOf uid (runAttempts uid attempts st0) =
               Z.min (Z.of_nat (length attempts)) 6).
  { destruct attempts as [|a rest].
    - simpl. unfold strikesOf. now rewrite Hnone.
    - rewrite strikes_after; [|assumption|discriminate].
      unfold strikesOf at 1. now rewrite Hnone. }
  destruct (runAttempt_blocked uid _ last Hlast) as (Hb & Hc & Hstale).
  assert (Hst : st = runAttempt uid (runAttempts uid attempts st0) last)
    by apply runAttempts_snoc.
  rewrite <- Hst in Hb, Hc.
  assert (Hs : strikes (bumpBackoff (tSettle last)
                          (blocked (runAttempts uid attempts st0) !! uid)) = Z.min N 6).
  { rewrite bump_strikes. fold (strikesOf uid (runAttempts uid attempts st0)).
    rewrite Hk, HN. lia. }
  assert (Hu : until (bumpBackoff (tSettle last)
                        (blocked (runAttempts uid attempts st0) !! uid)) =
               tSettle last + delay).
  { rewrite bump_until, Hs. reflexivity. }
  split; [lia|]. split.
  - rewrite Hb. rewrite (blockState_eta (bumpBackoff _ _)). now rewrite Hs, Hu.
  - intros now Hge Hlt.
    eapply enter_blocked_fast; [|exact Hb|rewrite Hu; exact Hlt].
    unfold cacheStale in *. rewrite Hc.
    destruct (cache (runAttempts uid attempts st0) !! uid); [|exact I].
    destruct Hlast as (Hle & _). lia.
Qed.

(** A collaborator set-up in which the account is found and decrypted
    and the refresh operation answers with the given result. *)
Definition envAnswering (answer : Result VintedTokenResponse string) : Env :=
  {| getAccountForUser := fun _ =>
       ok {| accountRegion := "de"; encryptedRefreshToken := "v1:iv:tag:data";
             pickupPoint := None |};
     decryptToken := fun _ => Some "refresh-token";
     vintedRefreshToken := fun _ _ _ => answer |}.

Definition blockedAttempt (t : Z) : Attempt :=
  {| tEnter := t; tSettle := t + 250; env := envAnswering (err blockedError) |}.

Lemma blockedAttempt_fails uid :
  exists m, refreshFailsWith (envAnswering (err blockedError)) uid m /\ isBlockedError m = true.
Proof.
  exists blockedError. split; [|vm_compute; reflexivity].
  do 3 eexists. repeat split; reflexivity.
Qed.

(** Seven blocked failures, each retried after the block has run out. *)
Lemma blocked_backoff_after_consecutive_failures_witness :
  let attempts := map blockedAttempt [0; 100000; 400000; 1000000; 2000000; 4000000] in
  let last := blockedAttempt 6000000 in
  let st := runAttempts "u1" (attempts ++ [last]) initial in
  blocked st !! "u1" = Some {| until := 6000250 + 1800000; strikes := 6 |}
  /\ enter 7000000 "u1" st = (Returned (err blockedError), st, []).
Proof.
  intros attempts last st.
  assert (Hall : blockedFailures "u1" (attempts ++ [last]) initial).
  { simpl. repeat split;
      solve [ vm_compute; congruence
            | eexists; vm_compute; reflexivity
            | apply blockedAttempt_fails ]. }
  destruct (blocked_backoff_after_consecutive_failures "u1" initial attempts last
              eq_refl Hall) as (_ & Hb & Hfast).
  split.
  - exact Hb.
  - apply Hfast; vm_compute; congruence.
Defined.

(** Calls made one after the other, none of which is awaited: the
    synchronous parts only. *)
Fixpoint enters (uid : string) (nows : list Z) (st : State)
  : list Entry * State * list Effect :=
  match nows with
  | [] => ([], st, [])
  | now :: rest =>
      let '(e, st1, tr1) := enter now uid st in
      let '(es, st2, tr2) := enters uid rest st1 in
      (e :: es, st2, (tr1 ++ tr2)%list)
  end.

Lemma refreshBody_invalid_grant env now uid st m :
  refreshFailsWith env uid m -> isBlockedError m = false -> isInvalidGrantError m = true ->
  exists tr,
    refreshBody env now uid st =
      (withBlocked (delete uid)
         (withCache (delete uid)
            (withReauth (fun r => <[uid := {| reauthUntil := now + REAUTH_COOLDOWN_MS |}]> r) st)),
       err reauthRequiredError, tr)
    /\ refreshCalls tr = 1%nat.
Proof.
  intros (a & r & t & Ha & Hr & Hd & Hf) Hb Hg.
  unfold refreshBody. rewrite Ha, Hr, Hd, Hf, Hb, Hg. eexists; split; reflexivity.
Qed.

Lemma enter_reauth_fast now uid st r :
  cache st !! uid = None -> blocked st !! uid = None ->
  reauthRequired st !! uid = Some r -> now < reauthUntil r ->
  enter now uid st = (Returned (err reauthRequiredError), st, []).
Proof.
  unfold enter. intros -> -> -> Hlt. apply Z.ltb_lt in Hlt. now rewrite Hlt.
Qed.

Lemma enters_reauth_fast nows uid st r :
  cache st !! uid = None -> blocked st !! uid = None ->
  reauthRequired st !! uid = Some r ->
  Forall (fun now => now < reauthUntil r) nows ->
  enters uid nows st =
    (map (fun _ => Returned (err reauthRequiredError)) nows, st, []).
Proof.
  intros Hc Hb Hr. induction 1 as [|now rest Hnow _ IH]; [reflexivity|].
  simpl. rewrite (enter_reauth_fast now uid st r Hc Hb Hr Hnow), IH. reflexivity.
Qed.

Lemma enter_after_clear now uid st :
  enter now uid (clearTokenStateForUser uid st) =
    (Starts (nextPromise st),
     {| cache := delete uid (cache st); blocked := delete uid (blocked st);
        reauthRequired := delete uid (reauthRequired st);
        inFlight := <[uid := nextPromise st]> (delete uid (inFlight st));
        nextPromise := S (nextPromise st) |},
     [LoadAccount uid]).
Proof.
  unfold enter, clearTokenStateForUser. simpl. now rewrite !lookup_delete_eq.
Qed.

(** C3, as the code has it.  When a call starts a refresh and the
    refresh fails with a message that is not a blocked message (that
    test runs first) and is an invalid-grant message, the call
    returns the run-setup-again error, the reauth cooldown of the
    user ends exactly 30 minutes after the failure, and the cached
    token and block state of the user are gone.  Every later call
    before the end of the cooldown returns the same error at once,
    without any effect and without changing the state; once
    clearTokenState has run, the next call starts a refresh again. *)
Theorem invalid_grant_sets_reauth_cooldown
    (env : Env) (uid : string) (st : State) (p : Promise) (tEnter tSettle : Z) (m : string) :
  (enter tEnter uid st).1.1 = Starts p ->
  refreshFailsWith env uid m ->
  isBlockedError m = false ->
  isInvalidGrantError m = true ->
  exists st' tr,
    callAndAwait env tEnter tSettle uid st = (st', Some (err reauthRequiredError), tr)
    /\ reauthRequired st' !! uid = Some {| reauthUntil := tSettle + 30 * 60 * 1000 |}
    /\ cache st' !! uid = None
    /\ blocked st' !! uid = None
    /\ (forall nows, Forall (fun now => now < tSettle + 30 * 60 * 1000) nows ->
         enters uid nows st' =
           (map (fun _ => Returned (err reauthRequiredError)) nows, st', []))
    /\ (forall now, exists q st'',
         enter now uid (clearTokenStateForUser uid st') = (Starts q, st'', [LoadAccount uid])).
Proof.
  intros Hp Hm Hb Hg.
  destruct (enter_starts_inv _ _ _ _ Hp) as (_ & _ & -> & Heq).
  unfold callAndAwait. rewrite Heq. unfold settle.
  destruct (refreshBody_invalid_grant env tSettle uid
              {| cache := cache st; blocked := blocked st;
                 reauthRequired := reauthRequired st;
                 inFlight := <[uid := nextPromise st]> (inFlight st);
                 nextPromise := S (nextPromise st) |} m Hm Hb Hg) as (tr & Hbody & _).
  rewrite Hbody. do 2 eexists. split; [reflexivity|].
  assert (Hr : reauthRequired
                 (withInFlight (delete uid)
                    (withBlocked (delete uid)
                       (withCache (delete uid)
                          (withReauth
                             (fun r => <[uid := {| reauthUntil := tSettle + REAUTH_COOLDOWN_MS |}]> r)
                             {| cache := cache st; blocked := blocked st;
                                reauthRequired := reauthRequired st;
                                inFlight := <[uid := nextPromise st]> (inFlight st);
                                nextPromise := S (nextPromise st) |})))) !! uid
               = Some {| reauthUntil := tSettle + 30 * 60 * 1000 |}).
  { simpl. now rewrite lookup_insert_eq. }
  split; [exact Hr|].
  split; [simpl; apply lookup_delete_eq|].
  split; [simpl; apply lookup_delete_eq|].
  split.
  - intros nows Hall. eapply enters_reauth_fast; [| |exact Hr|exact Hall];
      simpl; apply lookup_delete_eq.
  - intros now. rewrite enter_after_clear. eauto.
Qed.

(** The message of the test of the token service. *)
Definition invalidGrantMessage : string :=
  "Vinted request failed (401). {" +:+ Js.dq +:+ "error" +:+ Js.dq +:+ ":" +:+ Js.dq +:+
  "invalid_grant" +:+ Js.dq +:+ "}".

Lemma invalid_grant_sets_reauth_cooldown_witness :
  exists st' tr,
    callAndAwait (envAnswering (err invalidGrantMessage)) 1000 1250 "u1" initial
      = (st', Some (err reauthRequiredError), tr)
    /\ reauthRequired st' !! "u1" = Some {| reauthUntil := 1250 + 30 * 60 * 1000 |}
    /\ enters "u1" [2000; 900000; 1801249] st' =
         ([Returned (err reauthRequiredError); Returned (err reauthRequiredError);
           Returned (err reauthRequiredError)], st', []).
Proof.
  destruct (invalid_grant_sets_reauth_cooldown
              (envAnswering (err invalidGrantMessage)) "u1" initial O 1000 1250
              invalidGrantMessage)
    as (st' & tr & Hcall & Hr & _ & _ & Hfast & _).
  - reflexivity.
  - do 3 eexists. repeat split; reflexivity.
  - vm_compute; reflexivity.
  - vm_compute; reflexivity.
  - exists st', tr. split; [exact Hcall|]. split; [exact Hr|].
    apply (Hfast [2000; 900000; 1801249]).
    repeat constructor.
Defined.

(** A body that carries both marks: an invalid-grant error whose text
    also says that the account is locked ("blockiert"). *)
Definition grantAndBlockedMessage : string :=
  "Vinted request failed (400). {" +:+ Js.dq +:+ "error" +:+ Js.dq +:+ ":" +:+ Js.dq +:+
  "invalid_grant" +:+ Js.dq +:+ "," +:+ Js.dq +:+ "error_description" +:+ Js.dq +:+ ":" +:+
  Js.dq +:+ "Konto blockiert" +:+ Js.dq +:+ "}".

(** C3 fails as stated: a refresh failure whose message contains
    invalid_grant, and blockiert as well, sets no reauth cooldown; it
    is handled as a block. *)
Lemma invalid_grant_message_taken_as_blocked :
  isInvalidGrantError grantAndBlockedMessage = true
  /\ (enter 1000 "u1" initial).1.1 = Starts O
  /\ exists st' tr,
       callAndAwait (envAnswering (err grantAndBlockedMessage)) 1000 1250 "u1" initial
         = (st', Some (err grantAndBlockedMessage), tr)
       /\ refreshCalls tr = 1%nat
       /\ reauthRequired st' !! "u1" = None
       /\ blocked st' !! "u1" = Some {| until := 1250 + 60000; strikes := 1 |}
       /\ exists q st'', enter 70000 "u1" st' = (Starts q, st'', [LoadAccount "u1"]).
Proof.
  split; [vm_compute; reflexivity|].
  split; [reflexivity|].
  do 2 eexists. split; [vm_compute; reflexivity|].
  split; [reflexivity|].
  split; [reflexivity|].
  split; [reflexivity|].
  do 2 eexists. vm_compute. reflexivity.
Qed.












Definition freshToken : CachedToken :=
  {| accessToken := "access"; refreshToken := "refresh-token";
     expiresAtMs := 1700007200000; region := Regions.de |}.

(** A token cached until 20 s from time 0: within the margin from
    then on. *)
Definition staleState : State :=
  withCache (fun c => <["u1" :=
    {| accessToken := "old"; refreshToken := "refresh-token";
       expiresAtMs := 20000; region := Regions.de |}]> c) initial.


Definition serverErrorMessage : string :=
  "Vinted request failed (500). Internal server error".


End TokenFacts.

(** ** Reading checkout payloads *)

Module PayloadFacts.
Import Payload.

(** A stand-in for the runtime in examples: numbers are rendered by
    their numerator, URLs are taken as already serialized, and the
    host is what follows the scheme up to the next slash. *)
Definition hostOf (url : string) : option string :=
  if Js.startsWith "https://" url then
    match Js.splitOn "/"%char (Js.drop 8 url) with
    | h :: _ => if Js.isEmpty h then None else Some h
    | [] => None
    end
  else None.

#[local] Instance examplePlatform : Platform := {|
  Number_toString := fun q => Js.decimal (Qnum (Qred q));
  Number_toFixed2 := fun q => Js.decimal (Qnum (Qred q)) +:+ ".00";
  JSON_stringify := fun _ => "{}";
  JSON_parse := fun text => if String.eqb text "{}" then Some (JObj []) else None;
  URL_resolve := fun input base =>
    if Js.startsWith "https://" input then Some input
    else if Js.startsWith "/" input then Some (Js.take (String.length base - 1) base +:+ input)
    else None;
  URL_hostname := hostOf;
  URL_origin := fun url => option_map (fun h => "https://" +:+ h) (hostOf url);
|}.








Section WithPlatform.
Context {platform : Platform}.



End WithPlatform.


End PayloadFacts.

(** ** Session scopes *)

Module SessionFacts.
Import SessionStore.
Section WithPlatform.
Context {platform : Platform}.













(** What a response contributes to the store of a session: its
    Set-Cookie headers, then the three remembered headers (lines
    1128-1132). *)
Definition captureResponse (url : string) (setCookieHeaders : list string)
    (responseHeaders : string -> option string) (sessionScope : option string)
    (store : Store) : Store :=
  rememberResponseHeadersForSession url responseHeaders sessionScope
    (setCookiesInJar url setCookieHeaders sessionScope store).






End WithPlatform.

Definition toggleUrl : string := "https://www.vinted.nl/api/v2/user_favourites/toggle".

(** The store after a response to user-b that sets the cookie
    anon_id=anon-b. *)
Definition storeOfUserB : Store :=
  captureResponse (platform := PayloadFacts.examplePlatform) toggleUrl
    ["anon_id=anon-b; Path=/"] (fun _ => None) (Some "user-b") emptyStore.




(** The scenario of the isolation test: after both users captured an
    anon_id, a request of user-a carries anon-a and nothing of
    user-b. *)
Example request_of_user_a_after_user_b :
  let store :=
    captureResponse (platform := PayloadFacts.examplePlatform) toggleUrl
      ["anon_id=anon-a; Path=/"] (fun _ => None) (Some "user-a") storeOfUserB in
  let built :=
    buildRequestHeaders (platform := PayloadFacts.examplePlatform)
      {| envRequestHeaders := []; userAgent := "UA" |} store toggleUrl
      [("cookie", "access_token_web=token-a")] true true (Some "user-a") false in
  mapGet "cookie" built = Some "anon_id=anon-a; access_token_web=token-a"
  /\ mapGet "x-anon-id" built = Some "anon-a".
Proof. vm_compute. split; reflexivity. Qed.

End SessionFacts.

(** ** The action client *)

Module ClientFacts.
Import Payload VintedClient.
Section WithPlatform.
Context {platform : Platform}.

Lemma fetchCount_app tr1 tr2 : fetchCount (tr1 ++ tr2) = (fetchCount tr1 + fetchCount tr2)%nat.
Proof. unfold fetchCount. now rewrite List.filter_app, length_app. Qed.

Lemma fetchCount_warmup trace baseUrl scope :
  fetchCount (trace ++ [WarmupHostSession baseUrl scope]) = fetchCount trace.
Proof. unfold fetchCount. rewrite List.filter_app, length_app. simpl. lia. Qed.

Lemma fetchCount_log trace message : fetchCount (trace ++ [LogInfo message]) = fetchCount trace.
Proof. unfold fetchCount. rewrite List.filter_app, length_app. simpl. lia. Qed.

Lemma fetchCount_fetch trace input :
  fetchCount (trace ++ [FetchJson input]) = S (fetchCount trace).
Proof. unfold fetchCount. rewrite List.filter_app, length_app. simpl. lia. Qed.

(** The request of an action, without and with the Authorization
    header. *)
Definition actionRequest (input : ActionInput) (url method : string) (body : json)
    (includeAuthorization : bool) : FetchJsonInput :=
  {| url := url; method := method;
     headers := buildActionAuthHeaders (accessToken input) (refreshToken input)
                  includeAuthorization;
     body := Some body; sessionScope := sessionKey input; requestProfile := default |}.

(** The answer that counts for a request made as the [n]-th: the first
    answer, or the answer to the repetition with Authorization when
    the first answer is an error that asks for it. *)
Definition finalAnswer (world : World) (n : nat) (input : ActionInput)
    (url method : string) (body : json) : Result json VintedError :=
  match world n (actionRequest input url method body false) with
  | err message =>
      if shouldRetryWithAuthorization message
      then world (S n) (actionRequest input url method body true)
      else err message
  | ok payload => ok payload
  end.


Definition toggleUrl (input : ActionInput) : string :=
  baseUrlForRegion (region input) +:+ "/api/v2/user_favourites/toggle".







(** The requests one attempt on an endpoint sends. *)
Definition attemptEvents (world : World) (n : nat) (input : ActionInput)
    (url method : string) (body : json) : list Event :=
  match world n (actionRequest input url method body false) with
  | err message =>
      if shouldRetryWithAuthorization message
      then [FetchJson (actionRequest input url method body false);
            FetchJson (actionRequest input url method body true)]
      else [FetchJson (actionRequest input url method body false)]
  | ok _ => [FetchJson (actionRequest input url method body false)]
  end.

Definition attemptFetches (world : World) (n : nat) (input : ActionInput)
    (url method : string) (body : json) : nat :=
  match world n (actionRequest input url method body false) with
  | err message => if shouldRetryWithAuthorization message then 2 else 1
  | ok _ => 1
  end.

Lemma fetchWithAuthorizationRetry_run input url method body world trace :
  fetchWithAuthorizationRetry input url method body world trace =
    (finalAnswer world (fetchCount trace) input url method body,
     trace ++ attemptEvents world (fetchCount trace) input url method body).
Proof.
  unfold fetchWithAuthorizationRetry, finalAnswer, attemptEvents, bind, fetchJson, ret.
  fold (actionRequest input url method body false).
  fold (actionRequest input url method body true).
  destruct (world (fetchCount trace) (actionRequest input url method body false)) as [p|m];
    [reflexivity|].
  destruct (shouldRetryWithAuthorization m); [|reflexivity].
  rewrite fetchCount_fetch, <- app_assoc. reflexivity.
Qed.

(** The outcome of one attempt on an endpoint, made as the [n]-th
    request. *)
Definition attemptResult (world : World) (n : nat) (input : ActionInput)
    (url : string) (body : json) : Result Sent VintedError :=
  match finalAnswer world n input url "POST" body with
  | err e => err e
  | ok payload =>
      match extractErrorsPayloadMessage payload with
      | Some payloadError => err payloadError
      | None => ok {| sent := true |}
      end
  end.

Lemma sendOfferRequest_run input url body world trace :
  sendOfferRequest input url body world trace =
    (attemptResult world (fetchCount trace) input url body,
     trace ++ attemptEvents world (fetchCount trace) input url "POST" body).
Proof.
  unfold sendOfferRequest, bind, attemptResult.
  rewrite fetchWithAuthorizationRetry_run.
  destruct (finalAnswer world (fetchCount trace) input url "POST" body) as [p|e];
    [|reflexivity].
  now destruct (extractErrorsPayloadMessage p).
Qed.

(** The URLs of the requests of a trace, in order. *)
Fixpoint fetchedUrls (trace : list Event) : list string :=
  match trace with
  | [] => []
  | FetchJson input :: rest => url input :: fetchedUrls rest
  | _ :: rest => fetchedUrls rest
  end.

Lemma fetchedUrls_app tr1 tr2 : fetchedUrls (tr1 ++ tr2) = fetchedUrls tr1 ++ fetchedUrls tr2.
Proof.
  induction tr1 as [|e tr1 IH]; [reflexivity|].
  destruct e; simpl; now rewrite IH.
Qed.

Lemma attemptEvents_urls world n input url method body :
  fetchedUrls (attemptEvents world n input url method body) =
    repeat url (attemptFetches world n input url method body).
Proof.
  unfold attemptEvents, attemptFetches.
  destruct (world n (actionRequest input url method body false)) as [p|m]; [reflexivity|].
  now destruct (shouldRetryWithAuthorization m).
Qed.

Lemma attemptEvents_count world n input url method body :
  fetchCount (attemptEvents world n input url method body) =
    attemptFetches world n input url method body.
Proof.
  unfold attemptEvents, attemptFetches.
  destruct (world n (actionRequest input url method body false)) as [p|m]; [reflexivity|].
  now destruct (shouldRetryWithAuthorization m).
Qed.

Lemma attemptFetches_bounds world n input url method body :
  (1 <= attemptFetches world n input url method body <= 2)%nat.
Proof.
  unfold attemptFetches.
  destruct (world n (actionRequest input url method body false)) as [p|m]; [lia|].
  destruct (shouldRetryWithAuthorization m); lia.
Qed.

Definition modernUrl (input : ActionInput) : string :=
  baseUrlForRegion (region input) +:+ "/api/v2/transactions/" +:+ Js.decimal (itemId input)
  +:+ "/offer_requests".

Definition transactionUrl (input : ActionInput) : string :=
  baseUrlForRegion (region input) +:+ "/api/v2/transactions/" +:+ Js.decimal (itemId input)
  +:+ "/offers".

Definition legacyUrl (input : ActionInput) : string :=
  baseUrlForRegion (region input) +:+ "/api/v2/offers".

Definition modernBody (amount : Q) (currencyCode : string) : json :=
  JObj [("offer_request", JObj [("price", JNum amount); ("currency", JStr currencyCode)])].

Definition transactionBody (amount : Q) (currencyCode : string) : json :=
  JObj [("offer", JObj [("price", JNum amount); ("currency", JStr currencyCode)])].

Definition legacyBody (input : ActionInput) (amount : Q) (currencyCode : string) : json :=
  JObj [("item_id", JStr (Js.decimal (itemId input)));
        ("amount", JObj [("amount", JStr (Number_toFixed2 amount));
                         ("currency_code", JStr currencyCode)])].

(** The message holds none of the signals that make an error count as
    specific. *)
Definition noSignal (message : string) : Prop :=
  let lower := Js.toLowerCase message in
  Js.includes lower "access_denied" = false /\ Js.includes lower "cloudflare" = false /\
  Js.includes lower "captcha" = false /\ Js.includes lower "blockiert" = false.

Lemma noSignal_looks message : noSignal message -> looksMoreSpecific (Js.toLowerCase message) = false.
Proof. intros (H1 & H2 & H3 & H4). unfold looksMoreSpecific. now rewrite H1, H2, H3, H4. Qed.

(** Lines 2252-2285: the error returned when all three attempts
    failed. *)
Definition pickError (modernError transactionError legacyError : VintedError) : VintedError :=
  let modernMessage := Js.toLowerCase modernError in
  let transactionMessage := Js.toLowerCase transactionError in
  let legacyMessage := Js.toLowerCase legacyError in
  let endpointMessages := [modernMessage; transactionMessage; legacyMessage] in
  let hasSpecificAccessDeniedSignal :=
    existsb (fun message => Js.includes message "access_denied") endpointMessages in
  let hasSpecificBlockSignal :=
    existsb (fun message =>
               Js.includes message "cloudflare" || Js.includes message "captcha"
               || Js.includes message "blockiert") endpointMessages in
  let modernLooksMoreSpecific := looksMoreSpecific modernMessage in
  let transactionLooksMoreSpecific := looksMoreSpecific transactionMessage in
  if modernLooksMoreSpecific && negb (Js.includes legacyMessage "access_denied")
  then modernError
  else if transactionLooksMoreSpecific && negb (Js.includes legacyMessage "access_denied")
  then transactionError
  else if hasSpecificAccessDeniedSignal || hasSpecificBlockSignal then
    if modernLooksMoreSpecific then modernError
    else if transactionLooksMoreSpecific then transactionError
    else legacyError
  else legacyError.

Lemma pickError_legacy e1 e2 e3 :
  noSignal e1 -> noSignal e2 -> noSignal e3 -> pickError e1 e2 e3 = e3.
Proof.
  intros N1 N2 N3. unfold pickError.
  rewrite (noSignal_looks _ N1), (noSignal_looks _ N2).
  destruct N1 as (Ha1 & Hb1 & Hc1 & Hd1), N2 as (Ha2 & Hb2 & Hc2 & Hd2),
           N3 as (Ha3 & Hb3 & Hc3 & Hd3).
  simpl. rewrite Ha1, Ha2, Ha3, Hb1, Hb2, Hb3, Hc1, Hc2, Hc3, Hd1, Hd2, Hd3. reflexivity.
Qed.

Local Abbreviation logModernFailed :=
  (LogInfo "Modern offer_requests endpoint failed; retrying alternative offer endpoints").

Local Abbreviation logTransactionFailed :=
  (LogInfo "Transactions offers endpoint failed; retrying legacy offer endpoint").

(** [sendOffer] as a run: the attempts in turn, each made after the
    requests of the ones before it. *)
Lemma sendOffer_run world input amount currencyCode trace :
  sendOffer input amount currencyCode world trace =
    let n1 := fetchCount trace in
    let warmed :=
      trace ++ [WarmupHostSession (baseUrlForRegion (region input)) (sessionKey input)] in
    let t1 := warmed ++ attemptEvents world n1 input (modernUrl input) "POST"
                          (modernBody amount currencyCode) in
    match attemptResult world n1 input (modernUrl input) (modernBody amount currencyCode) with
    | ok s => (ok s, t1)
    | err e1 =>
        let n2 := (n1 + attemptFetches world n1 input (modernUrl input) "POST"
                          (modernBody amount currencyCode))%nat in
        let t2 := (t1 ++ [logModernFailed])
                  ++ attemptEvents world n2 input (transactionUrl input) "POST"
                       (transactionBody amount currencyCode) in
        match attemptResult world n2 input (transactionUrl input)
                (transactionBody amount currencyCode) with
        | ok s => (ok s, t2)
        | err e2 =>
            let n3 := (n2 + attemptFetches world n2 input (transactionUrl input) "POST"
                              (transactionBody amount currencyCode))%nat in
            let t3 := (t2 ++ [logTransactionFailed])
                      ++ attemptEvents world n3 input (legacyUrl input) "POST"
                           (legacyBody input amount currencyCode) in
            match attemptResult world n3 input (legacyUrl input)
                    (legacyBody input amount currencyCode) with
            | ok s => (ok s, t3)
            | err e3 => (err (pickError e1 e2 e3), t3)
            end
        end
    end.
Proof.
  cbv zeta.
  unfold sendOffer, bind, warmupHostSession, logInfo.
  fold (modernUrl input) (transactionUrl input) (legacyUrl input).
  fold (modernBody amount currencyCode) (transactionBody amount currencyCode)
       (legacyBody input amount currencyCode).
  rewrite sendOfferRequest_run, fetchCount_warmup.
  destruct (attemptResult world (fetchCount trace) input (modernUrl input)
              (modernBody amount currencyCode)) as [s1|e1]; [reflexivity|].
  rewrite sendOfferRequest_run.
  rewrite fetchCount_log, fetchCount_app, fetchCount_warmup, attemptEvents_count.
  destruct (attemptResult world _ input (transactionUrl input)
              (transactionBody amount currencyCode)) as [s2|e2]; [reflexivity|].
  rewrite sendOfferRequest_run.
  rewrite fetchCount_log, fetchCount_app, fetchCount_log, fetchCount_app, fetchCount_warmup,
    !attemptEvents_count.
  destruct (attemptResult world _ input (legacyUrl input)
              (legacyBody input amount currencyCode)) as [s3|e3]; [reflexivity|].
  unfold pickError, ret. cbv zeta.
  repeat match goal with |- context [if ?b then _ else _] => destruct b end; reflexivity.
Qed.

(** C8. [sendOffer] asks the offer_requests endpoint of the
    transaction, then its offers endpoint, then the global offers
    endpoint; it stops at the first success, which it returns, and
    sends no request to a later endpoint; when all three fail with
    messages that hold no access-denied, cloudflare, captcha or
    blockiert signal, it returns the error of the third. *)
Theorem sendOffer_tries_three_variants_in_order
    (world : World) (input : ActionInput) (amount : Q) (currencyCode : string)
    (trace : list Event) :
  let n1 := fetchCount trace in
  let r1 := attemptResult world n1 input (modernUrl input) (modernBody amount currencyCode) in
  let k1 := attemptFetches world n1 input (modernUrl input) "POST"
              (modernBody amount currencyCode) in
  let n2 := (n1 + k1)%nat in
  let r2 := attemptResult world n2 input (transactionUrl input)
              (transactionBody amount currencyCode) in
  let k2 := attemptFetches world n2 input (transactionUrl input) "POST"
              (transactionBody amount currencyCode) in
  let n3 := (n2 + k2)%nat in
  let r3 := attemptResult world n3 input (legacyUrl input)
              (legacyBody input amount currencyCode) in
  let k3 := attemptFetches world n3 input (legacyUrl input) "POST"
              (legacyBody input amount currencyCode) in
  let result := (sendOffer input amount currencyCode world trace).1 in
  let urls := fetchedUrls (sendOffer input amount currencyCode world trace).2 in
  (1 <= k1 <= 2)%nat /\ (1 <= k2 <= 2)%nat /\ (1 <= k3 <= 2)%nat /\
  match r1 with
  | ok s => result = ok s /\ urls = fetchedUrls trace ++ repeat (modernUrl input) k1
  | err e1 =>
      match r2 with
      | ok s =>
          result = ok s /\
          urls = fetchedUrls trace ++ repeat (modernUrl input) k1
                 ++ repeat (transactionUrl input) k2
      | err e2 =>
          urls = fetchedUrls trace ++ repeat (modernUrl input) k1
                 ++ repeat (transactionUrl input) k2 ++ repeat (legacyUrl input) k3
          /\ match r3 with
             | ok s => result = ok s
             | err e3 => noSignal e1 -> noSignal e2 -> noSignal e3 -> result = err e3
             end
      end
  end.
Proof.
  cbv zeta.
  split; [apply attemptFetches_bounds|].
  split; [apply attemptFetches_bounds|].
  split; [apply attemptFetches_bounds|].
  rewrite sendOffer_run. cbv zeta.
  destruct (attemptResult world (fetchCount trace) input (modernUrl input)
              (modernBody amount currencyCode)) as [s1|e1].
  { split; [reflexivity|]. simpl.
    rewrite !fetchedUrls_app, attemptEvents_urls. simpl. now rewrite app_nil_r. }
  destruct (attemptResult world _ input (transactionUrl input)
              (transactionBody amount currencyCode)) as [s2|e2].
  { split; [reflexivity|]. simpl.
    rewrite !fetchedUrls_app, !attemptEvents_urls. simpl.
    rewrite !app_nil_r, <- !app_assoc. reflexivity. }
  split.
  - destruct (attemptResult world _ input (legacyUrl input)
                (legacyBody input amount currencyCode)) as [s3|e3]; simpl;
      rewrite !fetchedUrls_app, !attemptEvents_urls; simpl;
      rewrite !app_nil_r, <- !app_assoc; reflexivity.
  - destruct (attemptResult world _ input (legacyUrl input)
                (legacyBody input amount currencyCode)) as [s3|e3]; [reflexivity|].
    intros N1 N2 N3. simpl. f_equal. now apply pickError_legacy.
Qed.

End WithPlatform.

Definition sampleInput : ActionInput :=
  {| region := Regions.nl; accessToken := "token"; refreshToken := None; itemId := 12;
     sessionKey := None |}.


Definition notFound : VintedError := "Vinted request failed (404). not found".

(** The three endpoints all answer 404: the error of the legacy
    endpoint comes back. *)
Lemma sendOffer_tries_three_variants_in_order_witness :
  fetchedUrls
    (sendOffer (platform := PayloadFacts.examplePlatform) sampleInput (inject_Z 10) "EUR"
       (fun _ _ => err notFound) []).2
  = ["https://www.vinted.nl/api/v2/transactions/12/offer_requests";
     "https://www.vinted.nl/api/v2/transactions/12/offers";
     "https://www.vinted.nl/api/v2/offers"]
  /\ (sendOffer (platform := PayloadFacts.examplePlatform) sampleInput (inject_Z 10) "EUR"
        (fun _ _ => err notFound) []).1
     = err notFound.
Proof.
  pose proof (sendOffer_tries_three_variants_in_order
                (platform := PayloadFacts.examplePlatform)
                (fun _ _ => err notFound) sampleInput (inject_Z 10) "EUR" []) as H.
  cbv zeta in H. destruct H as (_ & _ & _ & H).
  change (attemptResult (platform := PayloadFacts.examplePlatform)
            (fun _ _ => err notFound) _ sampleInput _ _)
    with (@err Sent VintedError notFound) in H.
  cbv iota in H. destruct H as [Hurls Hresult].
  split.
  - rewrite Hurls. reflexivity.
  - apply Hresult; repeat split; reflexivity.
Defined.

(** The first endpoint accepts the offer: one request, no other
    endpoint asked. *)
Example sendOffer_stops_at_first_success :
  sendOffer (platform := PayloadFacts.examplePlatform) sampleInput (inject_Z 10) "EUR"
    (fun _ _ => ok (JObj [("code", JNum (inject_Z 0)); ("message", JStr "ok");
                          ("message_code", JStr "success")])) []
  = (ok {| sent := true |},
     [WarmupHostSession "https://www.vinted.nl" None;
      FetchJson
        {| url := "https://www.vinted.nl/api/v2/transactions/12/offer_requests";
           method := "POST";
           headers := [("cookie", "access_token_web=token")];
           body := Some (JObj [("offer_request",
                                JObj [("price", JNum (inject_Z 10));
                                      ("currency", JStr "EUR")])]);
           sessionScope := None; requestProfile := default |}]).
Proof. vm_compute. reflexivity. Qed.

Definition challengeUrl : string :=
  "https://geo.captcha-delivery.com/captcha/?cid=test-persist".

(** What [fetchJson] makes of a 403 answer whose body is the JSON
    object with the challenge URL. *)
Definition challengeError : VintedError :=
  "Vinted request failed (403). {" +:+ Js.dq +:+ "url" +:+ Js.dq +:+ ":" +:+ Js.dq +:+
  challengeUrl +:+ Js.dq +:+ "}".

Definition buildUrl : string := "https://www.vinted.nl/api/v2/purchases/checkout/build".

Definition preflightUrl : string :=
  "https://www.vinted.nl/api/v2/catalog/items?page=1&per_page=1&order=newest_first".

(** Every checkout-build request is answered with the challenge; any
    other request succeeds. *)
Definition challengedWorld : World :=
  fun _ input =>
    if String.eqb (url input) buildUrl then err challengeError
    else ok (JObj [("items", JArr [])]).

Definition input88 : ActionInput :=
  {| region := Regions.nl; accessToken := "access-token";
     refreshToken := Some "refresh-token"; itemId := 88; sessionKey := Some "user-88" |}.

(** C5 at the input of the test of the persisting challenge: the
    client asks the build endpoint three times and the catalog once,
    never the challenge URL, and its result holds no checkout URL and
    nothing else. *)
Lemma buildCheckout_challenge_not_primed :
  shouldPrimeCheckoutSessionFromError challengeError = true
  /\ Js.includes challengeError "captcha-delivery.com" = true
  /\ (buildCheckout (platform := PayloadFacts.examplePlatform) input88 None
        challengedWorld []).1
     = ok {| checkoutUrl := None |}
  /\ fetchedUrls
       (buildCheckout (platform := PayloadFacts.examplePlatform) input88 None
          challengedWorld []).2
     = [buildUrl; buildUrl; preflightUrl; buildUrl]
  /\ existsb (String.eqb challengeUrl)
       (fetchedUrls
          (buildCheckout (platform := PayloadFacts.examplePlatform) input88 None
             challengedWorld []).2)
     = false.
Proof. vm_compute. repeat split; reflexivity. Qed.

End ClientFacts.

(** ** Bot-block detection in the transport layer *)

Module TransportFacts.
Import Transport.
Section WithPlatform.
Context {platform : Platform}.

(** The content type is HTML, or the body carries one of the marks of
    an interstitial page. *)
Definition htmlOrInterstitial (contentType : option string) (text : string) : Prop :=
  (exists c, contentType = Some c /\ Js.includes (Js.toLowerCase c) "text/html" = true)
  \/ Js.includes (Js.toLowerCase text) "<!doctype html" = true
  \/ Js.includes (Js.toLowerCase text) "<title>vinted</title" = true
  \/ Js.includes (Js.toLowerCase text) "just a moment" = true.

Lemma looksLikeBotBlock_iff status contentType text :
  looksLikeBotBlock status contentType text = true <->
  status = 403 /\ htmlOrInterstitial contentType text.
Proof.
  unfold looksLikeBotBlock, htmlOrInterstitial.
  destruct (status =? 403) eqn:Hs; simpl.
  - apply Z.eqb_eq in Hs. subst.
    destruct contentType as [c|].
    + destruct (Js.includes (Js.toLowerCase c) "text/html") eqn:Hc.
      * split; [intros _; split; [reflexivity|left; eauto]|reflexivity].
      * rewrite !orb_true_iff. split.
        -- intros [[H|H]|H]; split; auto.
        -- intros [_ [(c' & [= <-] & Hc')|[H|[H|H]]]]; [congruence|auto..].
    + rewrite !orb_true_iff. split.
      * intros [[H|H]|H]; split; auto.
      * intros [_ [(c' & Hc' & _)|[H|[H|H]]]]; [discriminate|auto..].
  - apply Z.eqb_neq in Hs. split; [discriminate|]. intros [H _]. contradiction.
Qed.

Lemma looksLikeBotBlock_403 status contentType text :
  looksLikeBotBlock status contentType text = true -> status = 403.
Proof. intros H. now apply looksLikeBotBlock_iff in H. Qed.

(** C7, as the code has it.  A response is classified as a block
    exactly when its status is 403 and its content type is HTML or
    its body carries an interstitial mark.  The curl backend, which
    passes no content type, and the fetch backend under the setting
    fetch answer a response so classified with the one blocked
    message.  Under the setting auto a fetch response so classified
    makes the client prefer curl for 30 minutes and return what the
    curl backend answers. *)
Theorem bot_block_detection :
  (forall status contentType text,
     looksLikeBotBlock status contentType text = true <->
     status = 403 /\ htmlOrInterstitial contentType text)
  /\ (forall out text statusText status,
       exitCode out = 0 ->
       splitAtLast newline (stdout out) = Some (text, statusText) ->
       Json.parseInt10 (Js.trim statusText) = Some status ->
       looksLikeBotBlock status None text = true ->
       fetchJsonViaCurl out = err toVintedBlockedError)
  /\ (forall now preferCurlUntil res curlRun,
       looksLikeBotBlock (status res) (contentType res) (text res) = true ->
       fetchJson fetch now preferCurlUntil (Some res) curlRun =
         (err toVintedBlockedError, preferCurlUntil, O))
  /\ (forall now preferCurlUntil res curlRun,
       preferCurlUntil <= now ->
       looksLikeBotBlock (status res) (contentType res) (text res) = true ->
       fetchJson auto now preferCurlUntil (Some res) curlRun =
         match fetchJsonViaCurl (curlRun O) with
         | ok value => (ok value, now + 30 * 60 * 1000, 1%nat)
         | err _ => (fetchJsonViaCurl (curlRun 1%nat), now + 30 * 60 * 1000, 2%nat)
         end).
Proof.
  split; [exact looksLikeBotBlock_iff|]. split; [|split].
  - intros out text statusText status Hexit Hsplit Hparse Hblock.
    unfold fetchJsonViaCurl. rewrite Hexit, Hsplit, Hparse, Hblock.
    rewrite (looksLikeBotBlock_403 _ _ _ Hblock). reflexivity.
  - intros now preferCurlUntil res curlRun Hblock.
    unfold fetchJson, responseOk. rewrite Hblock.
    rewrite (looksLikeBotBlock_403 _ _ _ Hblock). reflexivity.
  - intros now preferCurlUntil res curlRun Hle Hblock.
    unfold fetchJson, responseOk. rewrite Hblock.
    rewrite (looksLikeBotBlock_403 _ _ _ Hblock).
    assert (Hp : (now <? preferCurlUntil) = false) by (apply Z.ltb_ge; lia).
    rewrite Hp. simpl.
    now destruct (fetchJsonViaCurl (curlRun O)).
Qed.

End WithPlatform.

Definition interstitial : Response :=
  {| status := 403; contentType := Some "text/html; charset=UTF-8";
     text := "<!DOCTYPE html><html><head><title>Just a moment...</title></head></html>" |}.

Definition forbiddenHtml : Response :=
  {| status := 403; contentType := Some "text/html"; text := "Forbidden" |}.

Definition curlAnswers200 : CurlOutput :=
  {| exitCode := 0; stdout := "{}" +:+ String newline "200"; stderr := EmptyString |}.

Lemma bot_block_detection_witness :
  fetchJsonViaCurl (platform := PayloadFacts.examplePlatform) (curlOutputOf interstitial)
    = err toVintedBlockedError
  /\ fetchJson (platform := PayloadFacts.examplePlatform) fetch 1000 0 (Some interstitial)
       (fun _ => curlAnswers200)
     = (err toVintedBlockedError, 0, O)
  /\ fetchJson (platform := PayloadFacts.examplePlatform) auto 1000 0 (Some interstitial)
       (fun _ => curlOutputOf interstitial)
     = (err toVintedBlockedError, 1000 + 30 * 60 * 1000, 2%nat).
Proof.
  destruct (bot_block_detection (platform := PayloadFacts.examplePlatform))
    as (_ & Hcurl & Hfetch & Hauto).
  split; [|split].
  - apply (Hcurl (curlOutputOf interstitial) (text interstitial) "403" 403);
      vm_compute; reflexivity.
  - apply Hfetch. vm_compute. reflexivity.
  - rewrite (Hauto 1000 0 interstitial (fun _ => curlOutputOf interstitial));
      [reflexivity | lia | vm_compute; reflexivity].
Defined.

(** C7 fails as stated.  Under the setting auto a fetch response that
    is classified as a block is not answered with the blocked message
    when curl gets through: the answer of curl is returned.  And a
    403 response that is a block by its content type alone is
    answered by the curl backend with the plain request-failed
    message. *)
Lemma classified_response_not_surfaced_as_blocked :
  looksLikeBotBlock (status interstitial) (contentType interstitial) (text interstitial) = true
  /\ fetchJson (platform := PayloadFacts.examplePlatform) auto 1000 0 (Some interstitial)
       (fun _ => curlAnswers200)
     = (ok (JObj []), 1000 + 30 * 60 * 1000, 1%nat)
  /\ looksLikeBotBlock (status forbiddenHtml) (contentType forbiddenHtml) (text forbiddenHtml)
     = true
  /\ fetchJsonViaCurl (platform := PayloadFacts.examplePlatform) (curlOutputOf forbiddenHtml)
     = err "Vinted request failed (403). Forbidden".
Proof. vm_compute. repeat split; reflexivity. Qed.

End TransportFacts.

(** * Further properties *)

(** ** Token lifecycle: state of other users, bounds, outcomes *)

Module TokenExtras.
Import TokenService TokenFacts.

(** Two states hold the same for a user. *)
Definition sameUser (v : string) (a b : State) : Prop :=
  cache a !! v = cache b !! v /\ blocked a !! v = blocked b !! v /\
  reauthRequired a !! v = reauthRequired b !! v /\ inFlight a !! v = inFlight b !! v.

Lemma enter_sameUser now u v st : u <> v -> sameUser v (enter now u st).1.2 st.
Proof.
  intros Hne. unfold enter, sameUser.
  destruct (match cache st !! u with
            | Some c => if now <? expiresAtMs c - 30000 then Some c else None
            | None => None end); [simpl; auto|].
  destruct (match blocked st !! u with Some b => now <? until b | None => false end);
    [simpl; auto|].
  destruct (match reauthRequired st !! u with
            | Some r => now <? reauthUntil r | None => false end); [simpl; auto|].
  destruct (inFlight st !! u); simpl; [auto|].
  now rewrite lookup_insert_ne.
Qed.

Lemma refreshBody_sameUser env now u v st :
  u <> v -> sameUser v (refreshBody env now u st).1.1 st.
Proof.
  intros Hne. unfold refreshBody, sameUser.
  destruct (getAccountForUser env u) as [a|]; [|simpl; auto].
  destruct (Regions.parseRegion (accountRegion a)) as [r|]; [|simpl; auto].
  destruct (decryptToken env (encryptedRefreshToken a)) as [t|]; [|simpl; auto].
  destruct (vintedRefreshToken env r t u) as [x|m].
  - simpl. now rewrite lookup_insert_ne, !lookup_delete_ne.
  - destruct (isBlockedError m); [simpl; now rewrite lookup_insert_ne|].
    destruct (isInvalidGrantError m); simpl; [|auto].
    now rewrite lookup_insert_ne, !lookup_delete_ne.
Qed.

Lemma settle_sameUser env now u v st : u <> v -> sameUser v (settle env now u st).1.1 st.
Proof.
  intros Hne. unfold settle.
  pose proof (refreshBody_sameUser env now u v st Hne) as H.
  destruct (refreshBody env now u st) as [[st1 r] tr]. simpl in *.
  destruct H as (H1 & H2 & H3 & H4). unfold sameUser. simpl.
  now rewrite lookup_delete_ne.
Qed.

Lemma clear_sameUser u v st : u <> v -> sameUser v (clearTokenStateForUser u st) st.
Proof. intros Hne. unfold sameUser. simpl. now rewrite !lookup_delete_ne. Qed.

Lemma enter_returned_ext now v a b r :
  sameUser v a b -> (enter now v b).1.1 = Returned r -> (enter now v a).1.1 = Returned r.
Proof.
  intros (H1 & H2 & H3 & H4). unfold enter. rewrite H1, H2, H3, H4.
  destruct (match cache b !! v with
            | Some c => if now <? expiresAtMs c - 30000 then Some c else None
            | None => None end); [auto|].
  destruct (match blocked b !! v with Some x => now <? until x | None => false end); [auto|].
  destruct (match reauthRequired b !! v with
            | Some x => now <? reauthUntil x | None => false end); [auto|].
  destruct (inFlight b !! v); simpl; discriminate.
Qed.

(** X1. What is done for one user (a call, the end of a refresh
    whatever its outcome, clearing) leaves the cached token, block
    state, reauth state and in-flight entry of every other user as
    they were, and a call of another user that was answered at once
    is answered the same way afterwards. *)
Theorem token_state_of_other_users_untouched (u v : string) :
  u <> v ->
  forall st env tEnter tSettle,
    sameUser v (enter tEnter u st).1.2 st
    /\ sameUser v (settle env tSettle u st).1.1 st
    /\ sameUser v (clearTokenStateForUser u st) st
    /\ (forall t r, (enter t v st).1.1 = Returned r ->
          (enter t v (settle env tSettle u (enter tEnter u st).1.2).1.1).1.1 = Returned r).
Proof.
  intros Hne st env tEnter tSettle.
  split; [now apply enter_sameUser|].
  split; [now apply settle_sameUser|].
  split; [now apply clear_sameUser|].
  intros t r Hr. eapply enter_returned_ext; [|exact Hr].
  destruct (settle_sameUser env tSettle u v (enter tEnter u st).1.2 Hne)
    as (A1 & A2 & A3 & A4).
  destruct (enter_sameUser tEnter u v st Hne) as (B1 & B2 & B3 & B4).
  unfold sameUser. rewrite A1, A2, A3, A4. auto.
Qed.

(** User u2 holds a fresh token while the refresh of u1 ends in an
    invalid grant. *)
Lemma token_state_of_other_users_untouched_witness :
  (enter 5000 "u2"
     (settle (envAnswering (err invalidGrantMessage)) 1250 "u1"
        (enter 1000 "u1"
           (withCache (fun c => <["u2" := freshToken]> c) initial)).1.2).1.1).1.1
  = Returned (ok freshToken).
Proof.
  assert (Hne : "u1" <> "u2") by congruence.
  destruct (token_state_of_other_users_untouched "u1" "u2" Hne
              (withCache (fun c => <["u2" := freshToken]> c) initial)
              (envAnswering (err invalidGrantMessage)) 1000 1250) as (_ & _ & _ & H).
  apply H. vm_compute. reflexivity.
Defined.

(** Every block state counts between one and six strikes. *)
Definition strikesBounded (st : State) : Prop :=
  forall u b, blocked st !! u = Some b -> 1 <= strikes b <= 6.

Lemma bumpBackoff_bounds now prev :
  (forall b, prev = Some b -> 0 <= strikes b) ->
  1 <= strikes (bumpBackoff now prev) <= 6
  /\ now + 60000 <= until (bumpBackoff now prev) <= now + 1800000
  /\ (forall b, prev = Some b -> strikes b <= 6 -> strikes b <= strikes (bumpBackoff now prev)).
Proof.
  intros Hprev. unfold bumpBackoff. cbn [strikes until].
  set (k := match prev with Some b => strikes b | None => 0 end).
  assert (Hk : 0 <= k) by (unfold k; destruct prev as [b|]; [now apply Hprev|lia]).
  assert (Hs : 1 <= Z.min (k + 1) 6 <= 6) by lia.
  split; [exact Hs|]. split.
  - assert (Hp : 2 ^ 1 <= 2 ^ Z.min (k + 1) 6) by (apply Z.pow_le_mono_r; lia).
    change (2 ^ 1) with 2 in Hp. lia.
  - intros b -> Hb. unfold k. lia.
Qed.

Lemma refreshBody_strikesBounded env now u st :
  strikesBounded st -> strikesBounded (refreshBody env now u st).1.1.
Proof.
  intros Hst. unfold refreshBody.
  destruct (getAccountForUser env u) as [a|]; [|exact Hst].
  destruct (Regions.parseRegion (accountRegion a)) as [r|]; [|exact Hst].
  destruct (decryptToken env (encryptedRefreshToken a)) as [t|]; [|exact Hst].
  destruct (vintedRefreshToken env r t u) as [x|m].
  - intros v b. simpl. destruct (decide (u = v)) as [->|Hne].
    + now rewrite lookup_delete_eq.
    + rewrite lookup_delete_ne by assumption. apply Hst.
  - destruct (isBlockedError m).
    + intros v b. simpl. destruct (decide (u = v)) as [->|Hne].
      * rewrite lookup_insert_eq. intros [= <-].
        apply bumpBackoff_bounds. intros b' Hb'. specialize (Hst _ _ Hb'). lia.
      * rewrite lookup_insert_ne by assumption. apply Hst.
    + destruct (isInvalidGrantError m); [|exact Hst].
      intros v b. simpl. destruct (decide (u = v)) as [->|Hne].
      * now rewrite lookup_delete_eq.
      * rewrite lookup_delete_ne by assumption. apply Hst.
Qed.

Lemma enter_blocked_same now u st : blocked (enter now u st).1.2 = blocked st.
Proof.
  unfold enter.
  destruct (match cache st !! u with
            | Some c => if now <? expiresAtMs c - 30000 then Some c else None
            | None => None end); [reflexivity|].
  destruct (match blocked st !! u with Some b => now <? until b | None => false end);
    [reflexivity|].
  destruct (match reauthRequired st !! u with
            | Some r => now <? reauthUntil r | None => false end); [reflexivity|].
  destruct (inFlight st !! u); reflexivity.
Qed.

(** X2. The strike count of every block state stays between 1 and 6:
    this holds at the start and is kept by calls, by the end of a
    refresh whatever its outcome, and by clearing.  A block set by a
    blocked refresh failure lasts at least 60 s and at most 30 min
    from the failure, and never has fewer strikes than the block it
    replaces. *)
Theorem block_strikes_and_delay_bounded :
  strikesBounded initial
  /\ (forall st, strikesBounded st ->
       forall env now u,
         strikesBounded (enter now u st).1.2
         /\ strikesBounded (settle env now u st).1.1
         /\ strikesBounded (clearTokenStateForUser u st))
  /\ (forall st env now u m,
       strikesBounded st ->
       refreshFailsWith env u m -> isBlockedError m = true ->
       exists b,
         blocked (settle env now u st).1.1 !! u = Some b
         /\ now + 60000 <= until b <= now + 1800000
         /\ strikesOf u st <= strikes b <= 6).
Proof.
  split; [intros u b; simpl; now rewrite lookup_empty|]. split.
  - intros st Hst env now u. split; [|split].
    + intros v b. rewrite enter_blocked_same. apply Hst.
    + unfold settle. pose proof (refreshBody_strikesBounded env now u st Hst) as H.
      destruct (refreshBody env now u st) as [[st1 r] tr]. exact H.
    + intros v b. simpl. destruct (decide (u = v)) as [->|Hne].
      * now rewrite lookup_delete_eq.
      * rewrite lookup_delete_ne by assumption. apply Hst.
  - intros st env now u m Hst Hm Hb.
    destruct (refreshBody_blocked env now u st m Hm Hb) as (tr & Hbody & _).
    unfold settle. rewrite Hbody. simpl. rewrite lookup_insert_eq.
    eexists. split; [reflexivity|].
    assert (Hprev : forall b, blocked st !! u = Some b -> 0 <= strikes b).
    { intros b Hb'. specialize (Hst _ _ Hb'). lia. }
    destruct (bumpBackoff_bounds now (blocked st !! u) Hprev) as (H1 & H2 & H3).
    split; [exact H2|]. split; [|lia].
    unfold strikesOf. destruct (blocked st !! u) as [b|] eqn:Hbu; [|lia].
    apply H3; [reflexivity|]. specialize (Hst _ _ Hbu). lia.
Qed.

Lemma block_strikes_and_delay_bounded_witness :
  exists b,
    blocked (settle (envAnswering (err blockedError)) 1250 "u1" initial).1.1 !! "u1" = Some b
    /\ 1250 + 60000 <= until b <= 1250 + 1800000
    /\ strikesOf "u1" initial <= strikes b <= 6.
Proof.
  destruct block_strikes_and_delay_bounded as (Hinit & _ & Hbump).
  apply (Hbump initial (envAnswering (err blockedError)) 1250 "u1" blockedError Hinit).
  - do 3 eexists. repeat split; reflexivity.
  - vm_compute. reflexivity.
Defined.




(** X4. The end of a refresh touches the cache, the block states and
    the reauth states only if the refresh operation was called: when
    the account is missing, its region is not supported or the token
    cannot be decrypted, the result is an error and the three maps are
    as before.  They are also as before when the refresh operation
    fails with an error that is neither a block nor an invalid grant;
    the caller then gets the fixed could-not-refresh message, not the
    upstream one.  In every case the in-flight entry of the user is
    gone. *)
Theorem refresh_failures_that_change_nothing (env : Env) (now : Z) (uid : string) (st : State) :
  inFlight (settle env now uid st).1.1 !! uid = None
  /\ (refreshCalls (settle env now uid st).2 = 0%nat ->
      (exists e, (settle env now uid st).1.2 = err e)
      /\ cache (settle env now uid st).1.1 = cache st
      /\ blocked (settle env now uid st).1.1 = blocked st
      /\ reauthRequired (settle env now uid st).1.1 = reauthRequired st)
  /\ (forall m, refreshFailsWith env uid m ->
        isBlockedError m = false -> isInvalidGrantError m = false ->
        (settle env now uid st).1.2 = err refreshFailedError
        /\ cache (settle env now uid st).1.1 = cache st
        /\ blocked (settle env now uid st).1.1 = blocked st
        /\ reauthRequired (settle env now uid st).1.1 = reauthRequired st).
Proof.
  split; [|split].
  - unfold settle. destruct (refreshBody env now uid st) as [[st1 r] tr].
    simpl. apply lookup_delete_eq.
  - unfold settle, refreshBody.
    destruct (getAccountForUser env uid) as [a|e]; [|simpl; eauto].
    destruct (Regions.parseRegion (accountRegion a)) as [r|e]; [|simpl; eauto].
    destruct (decryptToken env (encryptedRefreshToken a)) as [t|]; [|simpl; eauto].
    destruct (vintedRefreshToken env r t uid) as [x|m].
    + cbn. destruct (String.eqb (newRefreshToken x) t); cbn; discriminate.
    + destruct (isBlockedError m); [cbn; discriminate|].
      destruct (isInvalidGrantError m); cbn; discriminate.
  - intros m (a & r & t & Ha & Hr & Hd & Hf) Hb Hg.
    unfold settle, refreshBody. rewrite Ha, Hr, Hd, Hf, Hb, Hg. simpl. auto.
Qed.

Lemma refresh_failures_that_change_nothing_witness :
  (settle (envAnswering (err serverErrorMessage)) 1250 "u1" staleState).1.2
    = err refreshFailedError
  /\ cache (settle (envAnswering (err serverErrorMessage)) 1250 "u1" staleState).1.1
     = cache staleState.
Proof.
  destruct (refresh_failures_that_change_nothing
              (envAnswering (err serverErrorMessage)) 1250 "u1" staleState) as (_ & _ & H).
  destruct (H serverErrorMessage) as (Hr & Hc & _).
  - do 3 eexists. repeat split; reflexivity.
  - vm_compute. reflexivity.
  - vm_compute. reflexivity.
  - split; assumption.
Defined.

End TokenExtras.

(** ** Characters, digits and decimal numerals *)

Module TextFacts.

Fixpoint every (p : ascii -> bool) (s : string) : bool :=
  match s with
  | EmptyString => true
  | String c r => p c && every p r
  end.

Definition notSpace (c : ascii) : bool := negb (Js.isSpace c).

Lemma every_app p a b : every p (a +:+ b) = every p a && every p b.
Proof. induction a as [|c a IH]; simpl; [reflexivity|]. now rewrite IH, andb_assoc. Qed.

Lemma every_impl (p q : ascii -> bool) s :
  (forall c, p c = true -> q c = true) -> every p s = true -> every q s = true.
Proof.
  intros Hpq. induction s as [|c s IH]; simpl; [reflexivity|].
  rewrite !andb_true_iff. intros [Hc Hs]. auto.
Qed.

Lemma digitChar_spec d :
  0 <= d < 10 -> Js.isDigit (Js.digitChar d) = true /\ Js.digitValue (Js.digitChar d) = d.
Proof.
  intros H.
  assert (Hd : d = 0 \/ d = 1 \/ d = 2 \/ d = 3 \/ d = 4 \/ d = 5 \/ d = 6
               \/ d = 7 \/ d = 8 \/ d = 9) by lia.
  repeat (destruct Hd as [-> | Hd]; [split; reflexivity|]). subst. split; reflexivity.
Qed.

Lemma code_range c : 0 <= Js.code c < 256.
Proof.
  unfold Js.code. pose proof (N_ascii_bounded c) as H. lia.
Qed.

Lemma isDigit_notSpace c : Js.isDigit c = true -> notSpace c = true.
Proof.
  unfold Js.isDigit, notSpace, Js.isSpace, Js.between.
  destruct (Z.leb_spec 48 (Js.code c)); [|discriminate].
  destruct (Z.leb_spec (Js.code c) 57); [|discriminate]. intros _.
  destruct (Z.leb_spec 9 (Js.code c)); [|lia].
  destruct (Z.leb_spec (Js.code c) 13); [lia|].
  destruct (Z.eqb_spec (Js.code c) 32); [lia|].
  destruct (Z.eqb_spec (Js.code c) 160); [lia|]. reflexivity.
Qed.

Lemma natDigits_digits fuel n acc :
  every Js.isDigit acc = true -> every Js.isDigit (Js.natDigits fuel n acc) = true.
Proof.
  revert n acc. induction fuel as [|f IH]; intros n acc Hacc; simpl; [exact Hacc|].
  assert (Hd : Js.isDigit (Js.digitChar (n mod 10)) = true).
  { apply digitChar_spec. apply Z.mod_pos_bound. lia. }
  destruct (n <? 10).
  - simpl. now rewrite Hd.
  - apply IH. simpl. now rewrite Hd.
Qed.

Lemma digitIn_10 c : Js.isDigit c = true -> Json.digitIn 10 c = Some (Js.digitValue c).
Proof.
  unfold Json.digitIn, Js.isDigit, Js.digitValue. intros H. rewrite H.
  unfold Js.between in H. apply andb_true_iff in H as [_ H]. apply Z.leb_le in H.
  destruct (Z.ltb_spec (Js.code c - 48) 10); [reflexivity|lia].
Qed.

Lemma fuel_enough n : 0 <= n -> n < 2 ^ Z.of_nat (Z.to_nat (Z.log2 n) + 1).
Proof.
  intros Hn. pose proof (Z.log2_nonneg n) as Hl.
  replace (Z.of_nat (Z.to_nat (Z.log2 n) + 1)) with (Z.succ (Z.log2 n)) by lia.
  destruct (Z.eq_dec n 0) as [->|Hne]; [reflexivity|].
  apply Z.log2_spec. lia.
Qed.

Lemma div10_bound f n : 0 <= n < 2 ^ Z.of_nat (S f) -> 0 <= n / 10 < 2 ^ Z.of_nat f.
Proof.
  intros [H0 H1]. split; [apply Z.div_pos; lia|].
  replace (Z.of_nat (S f)) with (Z.succ (Z.of_nat f)) in H1 by lia.
  rewrite Z.pow_succ_r in H1 by lia.
  apply Z.div_lt_upper_bound; lia.
Qed.

(** Reading a numeral written by [natDigits] gives the number back. *)
Lemma allDigits_natDigits fuel n acc :
  0 <= n < 2 ^ Z.of_nat fuel ->
  Json.allDigits 10 (Js.natDigits fuel n acc) 0 = Json.allDigits 10 acc n.
Proof.
  revert n acc. induction fuel as [|f IH]; intros n acc Hn.
  - simpl in *. now replace n with 0 by lia.
  - cbn [Js.natDigits].
    assert (Hm : 0 <= n mod 10 < 10) by (apply Z.mod_pos_bound; lia).
    destruct (digitChar_spec _ Hm) as [Hd Hv].
    destruct (Z.ltb_spec n 10) as [Hlt|Hge].
    + cbn [Json.allDigits]. rewrite (digitIn_10 _ Hd), Hv.
      rewrite Z.mod_small by lia. f_equal.
    + rewrite IH by (now apply div10_bound).
      cbn [Json.allDigits]. rewrite (digitIn_10 _ Hd), Hv. f_equal.
      pose proof (Z.div_mod n 10). lia.
Qed.

Lemma leadingDigits_natDigits fuel n acc :
  0 <= n < 2 ^ Z.of_nat (S fuel) ->
  Json.leadingDigits (Js.natDigits (S fuel) n acc) 0 false = Json.leadingDigits acc n true.
Proof.
  revert n acc. induction fuel as [|f IH]; intros n acc Hn.
  - cbn [Js.natDigits].
    assert (Hm : 0 <= n mod 10 < 10) by (apply Z.mod_pos_bound; lia).
    destruct (digitChar_spec _ Hm) as [Hd Hv].
    change (2 ^ Z.of_nat 1) with 2 in Hn.
    destruct (Z.ltb_spec n 10) as [Hlt|Hge]; [|lia].
    cbn [Json.leadingDigits]. rewrite Hd, Hv, Z.mod_small by lia. f_equal.
  - change (Js.natDigits (S (S f)) n acc)
      with (let acc' := String (Js.digitChar (n mod 10)) acc in
            if n <? 10 then acc' else Js.natDigits (S f) (n / 10) acc').
    cbv zeta.
    assert (Hm : 0 <= n mod 10 < 10) by (apply Z.mod_pos_bound; lia).
    destruct (digitChar_spec _ Hm) as [Hd Hv].
    destruct (Z.ltb_spec n 10) as [Hlt|Hge].
    + cbn [Json.leadingDigits]. rewrite Hd, Hv, Z.mod_small by lia. f_equal.
    + rewrite IH by (now apply div10_bound).
      cbn [Json.leadingDigits]. rewrite Hd, Hv. f_equal.
      pose proof (Z.div_mod n 10). lia.
Qed.

Lemma decimal_digits z : 0 <= z -> every Js.isDigit (Js.decimal z) = true.
Proof.
  intros Hz. unfold Js.decimal.
  destruct (Z.ltb_spec z 0); [lia|]. now apply natDigits_digits.
Qed.

Lemma natDigits_nonempty fuel n acc : exists c r, Js.natDigits (S fuel) n acc = String c r.
Proof.
  revert n acc. induction fuel as [|f IH]; intros n acc.
  - cbn [Js.natDigits]. destruct (n <? 10); eauto.
  - change (Js.natDigits (S (S f)) n acc)
      with (let acc' := String (Js.digitChar (n mod 10)) acc in
            if n <? 10 then acc' else Js.natDigits (S f) (n / 10) acc').
    cbv zeta. destruct (n <? 10); eauto.
Qed.

Lemma decimal_first z :
  0 <= z -> exists c r, Js.decimal z = String c r /\ Js.isDigit c = true.
Proof.
  intros Hz. pose proof (decimal_digits z Hz) as Hd. revert Hd.
  unfold Js.decimal. destruct (Z.ltb_spec z 0); [lia|].
  rewrite Nat.add_1_r.
  destruct (natDigits_nonempty (Z.to_nat (Z.log2 z)) z EmptyString) as (c & r & ->).
  simpl. intros Hd. apply andb_true_iff in Hd as [Hc _]. eauto.
Qed.

(** [BigInt(String(z))] and [Number.parseInt(String(z), 10)] are [z]. *)
Lemma allDigits_decimal z : 0 <= z -> Json.allDigits 10 (Js.decimal z) 0 = Some z.
Proof.
  intros Hz. unfold Js.decimal. destruct (Z.ltb_spec z 0); [lia|].
  rewrite allDigits_natDigits; [reflexivity|].
  split; [lia|now apply fuel_enough].
Qed.

Lemma trimStart_notSpace c r : notSpace c = true -> Js.trimStart (String c r) = String c r.
Proof. unfold notSpace. simpl. now destruct (Js.isSpace c). Qed.

Lemma trimEnd_notSpace s : every notSpace s = true -> Js.trimEnd s = s.
Proof.
  induction s as [|c s IH]; simpl; [reflexivity|].
  rewrite andb_true_iff. intros [Hc Hs]. rewrite (IH Hs).
  unfold notSpace in Hc. destruct s; [now destruct (Js.isSpace c)|reflexivity].
Qed.

Lemma trim_notSpace s : every notSpace s = true -> Js.trim s = s.
Proof.
  intros H. unfold Js.trim. destruct s as [|c r]; [reflexivity|].
  pose proof H as H'. simpl in H'. apply andb_true_iff in H' as [Hc _].
  rewrite (trimStart_notSpace _ _ Hc). now apply trimEnd_notSpace.
Qed.

Lemma parseInt10_digits c r :
  Js.isDigit c = true ->
  Json.parseInt10 (String c r) = Json.leadingDigits (String c r) 0 false.
Proof.
  intros Hc. unfold Json.parseInt10.
  rewrite (trimStart_notSpace _ _ (isDigit_notSpace _ Hc)).
  destruct c as [[] [] [] [] [] [] [] []]; try discriminate Hc; reflexivity.
Qed.

Lemma parseInt10_decimal z : 0 <= z -> Json.parseInt10 (Js.decimal z) = Some z.
Proof.
  intros Hz. destruct (decimal_first z Hz) as (c & r & Heq & Hc).
  rewrite Heq, (parseInt10_digits _ _ Hc), <- Heq.
  unfold Js.decimal. destruct (Z.ltb_spec z 0); [lia|].
  rewrite Nat.add_1_r, leadingDigits_natDigits; [reflexivity|].
  rewrite <- Nat.add_1_r. split; [lia|now apply fuel_enough].
Qed.

(** A status code of three digits is written with exactly these. *)
Lemma decimal_three n :
  100 <= n <= 999 ->
  Js.decimal n =
    String (Js.digitChar (n / 100))
      (String (Js.digitChar (n / 10 mod 10)) (String (Js.digitChar (n mod 10)) EmptyString)).
Proof.
  intros Hn. unfold Js.decimal. destruct (Z.ltb_spec n 0); [lia|].
  assert (Hl : 6 <= Z.log2 n) by (change 6 with (Z.log2 100); apply Z.log2_le_mono; lia).
  destruct (Z.to_nat (Z.log2 n)) as [|[|k]] eqn:Hk; [lia|lia|].
  replace (S (S k) + 1)%nat with (S (S (S k))) by lia.
  change (Js.natDigits (S (S (S k))) n EmptyString)
    with (let acc1 := String (Js.digitChar (n mod 10)) EmptyString in
          if n <? 10 then acc1 else
          let acc2 := String (Js.digitChar (n / 10 mod 10)) acc1 in
          if n / 10 <? 10 then acc2 else
          let acc3 := String (Js.digitChar (n / 10 / 10 mod 10)) acc2 in
          if n / 10 / 10 <? 10 then acc3 else Js.natDigits k (n / 10 / 10 / 10) acc3).
  cbv zeta.
  assert (H100 : n / 10 / 10 = n / 100) by (rewrite Z.div_div by lia; reflexivity).
  assert (Hq : 1 <= n / 100 <= 9).
  { split; [apply Z.div_le_lower_bound; lia|].
    assert (n / 100 < 10) by (apply Z.div_lt_upper_bound; lia). lia. }
  assert (Hq10 : 10 <= n / 10) by (apply Z.div_le_lower_bound; lia).
  destruct (Z.ltb_spec n 10); [lia|].
  destruct (Z.ltb_spec (n / 10) 10); [lia|].
  rewrite H100. destruct (Z.ltb_spec (n / 100) 10); [|lia].
  now rewrite (Z.mod_small (n / 100)) by lia.
Qed.

End TextFacts.

(** ** The transport: status codes, curl and the curl preference *)

Module TransportExtras.
Import Transport CheckoutClassification TextFacts.

Lemma extractStatusCode_requestFailed (d1 d2 d3 : ascii) (rest : string) :
  Js.isDigit d1 = true -> Js.isDigit d2 = true -> Js.isDigit d3 = true ->
  extractStatusCode
    ("Vinted request failed (" +:+ String d1 (String d2 (String d3 EmptyString)) +:+
     String ")"%char rest)
  = Some (100 * Js.digitValue d1 + 10 * Js.digitValue d2 + Js.digitValue d3).
Proof.
  intros H1 H2 H3.
  lazy -[Js.isDigit Js.digitValue Z.mul Z.add].
  now rewrite H1, H2, H3.
Qed.

Lemma failed_message_status status rest :
  100 <= status <= 999 ->
  extractStatusCode ("Vinted request failed (" +:+ Js.decimal status +:+ String ")"%char rest)
  = Some status.
Proof.
  intros Hs. rewrite (decimal_three status Hs).
  assert (Hq : 1 <= status / 100 <= 9).
  { split; [apply Z.div_le_lower_bound; lia|].
    assert (status / 100 < 10) by (apply Z.div_lt_upper_bound; lia). lia. }
  assert (Hm1 : 0 <= status / 10 mod 10 < 10) by (apply Z.mod_pos_bound; lia).
  assert (Hm0 : 0 <= status mod 10 < 10) by (apply Z.mod_pos_bound; lia).
  destruct (digitChar_spec (status / 100)) as [Hd1 Hv1]; [lia|].
  destruct (digitChar_spec _ Hm1) as [Hd2 Hv2].
  destruct (digitChar_spec _ Hm0) as [Hd3 Hv3].
  rewrite (extractStatusCode_requestFailed _ _ _ _ Hd1 Hd2 Hd3).
  rewrite Hv1, Hv2, Hv3. f_equal.
  pose proof (Z.div_mod status 10). pose proof (Z.div_mod (status / 10) 10).
  assert (status / 10 / 10 = status / 100) by (rewrite Z.div_div by lia; reflexivity).
  lia.
Qed.

Lemma requestFailed_status status text :
  100 <= status <= 999 -> extractStatusCode (requestFailed status text) = Some status.
Proof. intros Hs. now apply failed_message_status. Qed.

(** A message that carries status 403 is classified as a denial or as
    a block. *)
Lemma classify_403 message :
  extractStatusCode message = Some 403 ->
  classifyCheckoutErrorMessage message = access_denied
  \/ classifyCheckoutErrorMessage message = blocked.
Proof.
  intros Hcode. rewrite ClassificationFacts.classify_precedence.
  unfold ClassificationFacts.classifyByPrecedence, ClassificationFacts.statusIs403.
  rewrite Hcode. change (403 =? 403) with true. rewrite orb_true_r.
  destruct (_ && _); auto.
Qed.

(** X5. The status code that the transport writes into its
    request-failed message is the one the checkout classifier reads
    back, whatever the response body holds.  So a failure with status
    403 is classified as access_denied or blocked, never as failed or
    invalid_pickup_point, and a failure with a status other than 401
    and 403 is never classified as access_denied.  Under the setting
    fetch every answer to a 403 response is an error of the first
    kind. *)
Theorem failure_status_reaches_classifier {platform : Platform} (status : Z) (text : string) :
  100 <= status <= 999 ->
  extractStatusCode (requestFailed status text) = Some status
  /\ (status = 403 ->
      classifyCheckoutErrorMessage (requestFailed status text) = access_denied
      \/ classifyCheckoutErrorMessage (requestFailed status text) = blocked)
  /\ (status <> 401 -> status <> 403 ->
      classifyCheckoutErrorMessage (requestFailed status text) <> access_denied)
  /\ (status = 403 ->
      forall contentType now preferCurlUntil curlRun,
      exists e,
        fetchJson fetch now preferCurlUntil
          (Some {| Transport.status := status; contentType := contentType; text := text |})
          curlRun
        = (err e, preferCurlUntil, O)
        /\ (classifyCheckoutErrorMessage e = access_denied
            \/ classifyCheckoutErrorMessage e = blocked)).
Proof.
  intros Hs. pose proof (requestFailed_status status text Hs) as Hcode.
  assert (H403 : status = 403 ->
            classifyCheckoutErrorMessage (requestFailed status text) = access_denied
            \/ classifyCheckoutErrorMessage (requestFailed status text) = blocked).
  { intros ->. now apply classify_403. }
  split; [exact Hcode|]. split; [exact H403|]. split.
  - intros H401 Hn403. rewrite ClassificationFacts.classify_precedence.
    unfold ClassificationFacts.classifyByPrecedence, ClassificationFacts.statusIn401_403_none.
    rewrite Hcode.
    destruct (Z.eqb_spec status 401); [contradiction|].
    destruct (Z.eqb_spec status 403); [contradiction|].
    rewrite andb_false_r.
    destruct (_ || _); [discriminate|]. destruct (ClassificationFacts.hasPickupHint _); discriminate.
  - intros -> contentType now preferCurlUntil curlRun.
    unfold fetchJson, responseOk. cbn [Transport.status Transport.contentType Transport.text].
    change ((200 <=? 403) && (403 <=? 299)) with false. cbv iota.
    cbn [andb].
    destruct (looksLikeBotBlock 403 contentType text).
    + eexists. split; [reflexivity|]. right. vm_compute. reflexivity.
    + eexists. split; [reflexivity|]. apply H403. reflexivity.
Qed.

Lemma failure_status_reaches_classifier_witness :
  extractStatusCode (requestFailed 403 "{}") = Some 403
  /\ (classifyCheckoutErrorMessage (requestFailed 403 "{}") = access_denied
      \/ classifyCheckoutErrorMessage (requestFailed 403 "{}") = blocked).
Proof.
  destruct (failure_status_reaches_classifier (platform := PayloadFacts.examplePlatform)
              403 "{}") as (Hc & H403 & _); [lia|].
  split; [exact Hc|]. apply H403. reflexivity.
Defined.

Section WithPlatform.
Context {platform : Platform}.

(** The fetch request fails outright or is answered with a page that
    counts as a bot block. *)
Definition fetchFailsOrBlocked (res : option Response) : Prop :=
  match res with
  | None => True
  | Some r => looksLikeBotBlock (status r) (contentType r) (text r) = true
  end.

(** X6. Under the setting auto, a call whose fetch request fails
    outright or is answered with a bot-block page moves the curl
    preference to 30 minutes after the call and runs curl once or
    twice; every call before that time then goes to curl alone: one
    curl run, its answer returned, whatever the fetch backend would
    have said, and the preference is left as it is.  Under the setting
    curl every call is one curl run; under the setting fetch a call
    that gets a response never runs curl. *)
Theorem curl_preferred_after_block (now preferCurlUntil : Z) (res : option Response)
    (curlRun : nat -> CurlOutput) :
  preferCurlUntil <= now ->
  fetchFailsOrBlocked res ->
  let until := (fetchJson auto now preferCurlUntil res curlRun).1.2 in
  until = now + 30 * 60 * 1000
  /\ (1 <= (fetchJson auto now preferCurlUntil res curlRun).2 <= 2)%nat
  /\ (forall later res' curlRun',
        later < until ->
        fetchJson auto later until res' curlRun'
        = (fetchJsonViaCurl (curlRun' O), until, 1%nat))
  /\ (forall t p res' curlRun',
        fetchJson curl t p res' curlRun' = (fetchJsonViaCurl (curlRun' O), p, 1%nat))
  /\ (forall t p r curlRun',
        (fetchJson fetch t p (Some r) curlRun').1.2 = p
        /\ (fetchJson fetch t p (Some r) curlRun').2 = O).
Proof.
  intros Hle Hres until.
  assert (Hp : (now <? preferCurlUntil) = false) by (apply Z.ltb_ge; lia).
  assert (Huntil : until = now + 30 * 60 * 1000 /\
                   (1 <= (fetchJson auto now preferCurlUntil res curlRun).2 <= 2)%nat).
  { unfold until, fetchJson. rewrite Hp. destruct res as [r|]; [|simpl; split; [reflexivity|lia]].
    simpl in Hres. unfold responseOk. rewrite Hres.
    rewrite (TransportFacts.looksLikeBotBlock_403 _ _ _ Hres). simpl.
    destruct (fetchJsonViaCurl (curlRun O)); simpl; split; first [reflexivity|lia]. }
  destruct Huntil as [Hu Hn]. split; [exact Hu|]. split; [exact Hn|]. split; [|split].
  - intros later res' curlRun' Hlater. unfold fetchJson.
    assert (Hl : (later <? until) = true) by (apply Z.ltb_lt; lia).
    now rewrite Hl.
  - reflexivity.
  - intros t p r curlRun'. unfold fetchJson. simpl.
    destruct (responseOk r); [split; reflexivity|].
    destruct (looksLikeBotBlock _ _ _); split; reflexivity.
Qed.

(** What curl prints for a response is read back as that response. *)
Lemma splitAtLast_none c s :
  every (fun a => negb (Ascii.eqb a c)) s = true -> splitAtLast c s = None.
Proof.
  induction s as [|a s IH]; simpl; [reflexivity|].
  rewrite andb_true_iff. intros [Ha Hs]. rewrite (IH Hs).
  now destruct (Ascii.eqb a c).
Qed.

Lemma splitAtLast_app c s d :
  splitAtLast c d = None -> splitAtLast c (s +:+ String c d) = Some (s, d).
Proof.
  intros Hd. induction s as [|a s IH].
  - change (EmptyString +:+ String c d) with (String c d).
    simpl. now rewrite Hd, Ascii.eqb_refl.
  - change (String a s +:+ String c d) with (String a (s +:+ String c d)).
    simpl. now rewrite IH.
Qed.

Lemma isDigit_not_newline a : Js.isDigit a = true -> negb (Ascii.eqb a newline) = true.
Proof.
  intros Ha. destruct (Ascii.eqb_spec a newline) as [->|]; [discriminate Ha|reflexivity].
Qed.

(** X7. The curl backend recovers body and status from what curl
    prints under [--write-out] with a line feed and the status code:
    for every body, line feeds in it included, and every status that
    is not negative, the answer is the parsed body when the status is
    in 200..299, the blocked message when the response counts as a bot
    block without a content type, and the request-failed message with
    that status otherwise. *)
Theorem curl_output_is_read_back (res : Response) :
  0 <= status res ->
  fetchJsonViaCurl (curlOutputOf res)
  = if responseOk res then parseJsonText (text res)
    else if looksLikeBotBlock (status res) None (text res) then err toVintedBlockedError
    else err (requestFailed (status res) (text res)).
Proof.
  intros Hs. unfold fetchJsonViaCurl, curlOutputOf.
  cbn [exitCode stdout stderr]. change (negb (0 =? 0)) with false. cbv iota.
  pose proof (decimal_digits _ Hs) as Hd.
  change (text res +:+ String newline EmptyString +:+ Js.decimal (status res))
    with (text res +:+ (String newline EmptyString +:+ Js.decimal (status res))).
  change (String newline EmptyString +:+ Js.decimal (status res))
    with (String newline (Js.decimal (status res))).
  rewrite splitAtLast_app
    by (apply splitAtLast_none, (every_impl Js.isDigit); [exact isDigit_not_newline|exact Hd]).
  rewrite trim_notSpace by (apply (every_impl Js.isDigit); [exact isDigit_notSpace|exact Hd]).
  rewrite (parseInt10_decimal _ Hs).
  unfold responseOk.
  destruct (Z.ltb_spec (status res) 200), (Z.leb_spec 300 (status res)),
    (Z.leb_spec 200 (status res)), (Z.leb_spec (status res) 299); try lia; reflexivity.
Qed.

End WithPlatform.

Definition notFoundResponse : Response :=
  {| status := 404; contentType := Some "application/json";
     text := "{" +:+ String newline "}" |}.

Lemma curl_preferred_after_block_witness :
  fetchJson (platform := PayloadFacts.examplePlatform) auto 90000 (1000 + 30 * 60 * 1000)
    (Some TransportFacts.forbiddenHtml) (fun _ => TransportFacts.curlAnswers200)
  = (fetchJsonViaCurl (platform := PayloadFacts.examplePlatform) TransportFacts.curlAnswers200,
     1000 + 30 * 60 * 1000, 1%nat).
Proof.
  destruct (curl_preferred_after_block (platform := PayloadFacts.examplePlatform)
              1000 0 (Some TransportFacts.interstitial)
              (fun _ => curlOutputOf TransportFacts.interstitial))
    as (Hu & _ & Hlater & _).
  - lia.
  - vm_compute. reflexivity.
  - apply (Hlater 90000 (Some TransportFacts.forbiddenHtml)
             (fun _ => TransportFacts.curlAnswers200)).
    vm_compute. reflexivity.
Defined.

Lemma curl_output_is_read_back_witness :
  fetchJsonViaCurl (platform := PayloadFacts.examplePlatform) (curlOutputOf notFoundResponse)
  = err (requestFailed 404 (text notFoundResponse)).
Proof.
  rewrite (curl_output_is_read_back (platform := PayloadFacts.examplePlatform) notFoundResponse).
  - reflexivity.
  - simpl. lia.
Defined.

End TransportExtras.

(** ** Cookies: the jar, the Cookie header and the merge of sources *)

Module CookieFacts.
Import SessionStore TextFacts.

Lemma app_cons c s t : String c s +:+ t = String c (s +:+ t).
Proof. reflexivity. Qed.

Lemma app_empty t : EmptyString +:+ t = t.
Proof. reflexivity. Qed.

(** The character [c] does not occur in the string. *)
Definition noChar (c : ascii) (s : string) : bool :=
  every (fun a => negb (Ascii.eqb a c)) s.

(** *** Trimming *)

Lemma trimStart_every p s : every p s = true -> every p (Js.trimStart s) = true.
Proof.
  induction s as [|c s IH]; simpl; [reflexivity|].
  rewrite andb_true_iff. intros [Hc Hs].
  destruct (Js.isSpace c); [auto|]. simpl. now rewrite Hc, Hs.
Qed.

Lemma trimEnd_every p s : every p s = true -> every p (Js.trimEnd s) = true.
Proof.
  induction s as [|c s IH]; simpl; [reflexivity|].
  rewrite andb_true_iff. intros [Hc Hs]. specialize (IH Hs).
  destruct (Js.trimEnd s) as [|c' r'].
  - destruct (Js.isSpace c); simpl; [reflexivity|now rewrite Hc].
  - change (every p (String c (String c' r')) = true). simpl in *. now rewrite Hc.
Qed.

Lemma trim_every p s : every p s = true -> every p (Js.trim s) = true.
Proof. intros H. now apply trimEnd_every, trimStart_every. Qed.

Lemma take_every p n s : every p s = true -> every p (Js.take n s) = true.
Proof.
  revert s. induction n as [|n IH]; intros [|c s]; simpl; try reflexivity.
  rewrite !andb_true_iff. intros [Hc Hs]. auto.
Qed.

Lemma drop_every p n s : every p s = true -> every p (Js.drop n s) = true.
Proof.
  revert s. induction n as [|n IH]; intros [|c s]; simpl; try (intros H; exact H).
  rewrite !andb_true_iff. intros [Hc Hs]. auto.
Qed.

(** A string is trimmed when it has no white space at either end. *)
Definition headNotSpace (s : string) : bool :=
  match s with EmptyString => true | String c _ => notSpace c end.

Lemma trimStart_head s : headNotSpace (Js.trimStart s) = true.
Proof.
  induction s as [|c s IH]; simpl; [reflexivity|].
  destruct (Js.isSpace c) eqn:Hc; [exact IH|]. simpl. unfold notSpace. now rewrite Hc.
Qed.

Lemma trimStart_fixed s : headNotSpace s = true -> Js.trimStart s = s.
Proof. destruct s as [|c r]; [reflexivity|]. simpl. apply trimStart_notSpace. Qed.

Lemma trimEnd_head s : headNotSpace s = true -> headNotSpace (Js.trimEnd s) = true.
Proof.
  destruct s as [|c r]; simpl; [reflexivity|]. intros Hc.
  destruct (Js.trimEnd r); [|exact Hc].
  destruct (Js.isSpace c) eqn:Hs; [reflexivity|exact Hc].
Qed.

Lemma trimEnd_cons c s :
  Js.trimEnd (String c s) =
    match Js.trimEnd s with
    | EmptyString => if Js.isSpace c then EmptyString else String c EmptyString
    | r => String c r
    end.
Proof. reflexivity. Qed.

Lemma trimEnd_idem s : Js.trimEnd (Js.trimEnd s) = Js.trimEnd s.
Proof.
  induction s as [|c s IH]; [reflexivity|].
  rewrite trimEnd_cons. destruct (Js.trimEnd s) as [|c' r'] eqn:Hs.
  - destruct (Js.isSpace c) eqn:Hc; [reflexivity|].
    rewrite trimEnd_cons. simpl. now rewrite Hc.
  - rewrite trimEnd_cons, IH. reflexivity.
Qed.

Lemma trim_head s : headNotSpace (Js.trim s) = true.
Proof. apply trimEnd_head, trimStart_head. Qed.

Lemma trim_trimEnd s : Js.trimEnd (Js.trim s) = Js.trim s.
Proof. apply trimEnd_idem. Qed.

Lemma trim_idem s : Js.trim (Js.trim s) = Js.trim s.
Proof.
  unfold Js.trim at 1. rewrite (trimStart_fixed _ (trim_head s)). apply trim_trimEnd.
Qed.

Lemma trimEnd_app a v :
  Js.trimEnd v <> EmptyString -> Js.trimEnd (a +:+ v) = a +:+ Js.trimEnd v.
Proof.
  intros Hv. induction a as [|c a IH]; [reflexivity|].
  rewrite !app_cons, trimEnd_cons, IH.
  destruct (a +:+ Js.trimEnd v) eqn:Heq; [|reflexivity].
  destruct a; [rewrite app_empty in Heq; contradiction|discriminate].
Qed.

(** *** Searching and splitting *)

Lemma indexOfChar_app c n r :
  noChar c n = true -> Js.indexOfChar c (n +:+ String c r) = Some (String.length n).
Proof.
  unfold noChar. induction n as [|a n IH]; simpl.
  - intros _. rewrite ?app_empty. simpl. now rewrite Ascii.eqb_refl.
  - rewrite andb_true_iff. intros [Ha Hn]. rewrite ?app_cons. simpl.
    destruct (Ascii.eqb a c); [discriminate|]. now rewrite (IH Hn).
Qed.

Lemma indexOfChar_take c s i :
  Js.indexOfChar c s = Some i -> noChar c (Js.take i s) = true.
Proof.
  unfold noChar. revert i. induction s as [|a s IH]; intros i; simpl; [discriminate|].
  destruct (Ascii.eqb a c) eqn:Ha.
  - intros [= <-]. reflexivity.
  - destruct (Js.indexOfChar c s) as [j|]; [|discriminate].
    intros [= <-]. simpl. rewrite Ha. simpl. now apply IH.
Qed.

Lemma take_app n r : Js.take (String.length n) (n +:+ r) = n.
Proof.
  induction n as [|a n IH]; simpl.
  - now destruct (EmptyString +:+ r).
  - rewrite ?app_cons. simpl. now rewrite IH.
Qed.

Lemma drop_app n r : Js.drop (String.length n) (n +:+ r) = r.
Proof.
  induction n as [|a n IH]; simpl.
  - rewrite ?app_empty. now destruct r.
  - rewrite ?app_cons. simpl. exact IH.
Qed.

Lemma splitOn_nonempty sep s : Js.splitOn sep s <> [].
Proof.
  destruct s as [|c s]; simpl; [discriminate|].
  destruct (Ascii.eqb c sep); [discriminate|]. destruct (Js.splitOn sep s); discriminate.
Qed.

Lemma splitOn_noChar sep s : Forall (fun p => noChar sep p = true) (Js.splitOn sep s).
Proof.
  unfold noChar. induction s as [|c s IH]; simpl; [repeat constructor|].
  destruct (Ascii.eqb c sep) eqn:Hc; [constructor; [reflexivity|exact IH]|].
  destruct (Js.splitOn sep s) as [|p ps]; [repeat constructor; simpl; now rewrite Hc|].
  inversion IH as [|? ? Hp Hps]; subst. constructor; [|exact Hps].
  simpl. now rewrite Hc, Hp.
Qed.

Lemma splitOn_single sep a : noChar sep a = true -> Js.splitOn sep a = [a].
Proof.
  unfold noChar. induction a as [|c a IH]; simpl; [reflexivity|].
  rewrite andb_true_iff. intros [Hc Ha].
  destruct (Ascii.eqb c sep); [discriminate|]. now rewrite (IH Ha).
Qed.

Lemma splitOn_app sep a r :
  noChar sep a = true -> Js.splitOn sep (a +:+ String sep r) = a :: Js.splitOn sep r.
Proof.
  unfold noChar. induction a as [|c a IH]; simpl.
  - intros _. rewrite ?app_empty. simpl. now rewrite Ascii.eqb_refl.
  - rewrite andb_true_iff. intros [Hc Ha]. rewrite ?app_cons. simpl.
    destruct (Ascii.eqb c sep); [discriminate|]. now rewrite (IH Ha).
Qed.

(** *** Maps in insertion order *)

Local Abbreviation keys m := (map fst m).

Lemma mapGet_none name m : ~ In name (keys m) -> mapGet name m = None.
Proof.
  induction m as [|[k v] m IH]; simpl; [reflexivity|].
  intros Hn. destruct (String.eqb_spec k name) as [->|Hne]; [tauto|]. apply IH. tauto.
Qed.

Lemma mapGet_mapSet name k v m :
  mapGet name (mapSet k v m) = if String.eqb k name then Some v else mapGet name m.
Proof.
  induction m as [|[k' v'] m IH]; simpl; [reflexivity|].
  destruct (String.eqb_spec k' k) as [->|Hne]; simpl.
  - now destruct (String.eqb k name).
  - rewrite IH. destruct (String.eqb_spec k' name) as [->|Hne']; [|reflexivity].
    destruct (String.eqb_spec k name); [congruence|reflexivity].
Qed.

Lemma mapSet_fresh k v m : ~ In k (keys m) -> mapSet k v m = (m ++ [(k, v)])%list.
Proof.
  induction m as [|[k' v'] m IH]; simpl; [reflexivity|].
  intros Hn. destruct (String.eqb_spec k' k) as [->|Hne]; [tauto|].
  rewrite IH by tauto. reflexivity.
Qed.

Lemma keys_mapSet k v m : In k (keys m) -> keys (mapSet k v m) = keys m.
Proof.
  induction m as [|[k' v'] m IH]; simpl; [tauto|].
  intros Hin. destruct (String.eqb_spec k' k) as [->|Hne]; [reflexivity|].
  simpl. f_equal. apply IH. destruct Hin; [contradiction|assumption].
Qed.

Lemma in_mapSet e k v m : In e (mapSet k v m) -> In e ((k, v) :: m).
Proof.
  induction m as [|[k' v'] m IH]; simpl; [tauto|].
  destruct (String.eqb_spec k' k) as [->|Hne]; simpl; [tauto|].
  intros [H|H]; [tauto|]. destruct (IH H); simpl; tauto.
Qed.


Lemma NoDup_mapSet k v m : List.NoDup (keys m) -> List.NoDup (keys (mapSet k v m)).
Proof.
  induction m as [|[k' v'] m IH]; simpl.
  - intros _. apply List.NoDup_cons; [intros []|apply List.NoDup_nil].
  - intros Hm. inversion Hm as [|? ? Hn Hm']; subst.
    destruct (String.eqb_spec k' k) as [->|Hne]; simpl; [constructor; assumption|].
    constructor; [|auto].
    intros Hin. apply in_map_iff in Hin as ((k2 & v2) & Hk & Hin). simpl in Hk. subst k2.
    apply in_mapSet in Hin as [[= -> ->]|Hin]; [congruence|].
    apply Hn. apply in_map_iff. now exists (k', v2).
Qed.



(** *** Cookie names and values as the client stores them *)

(** A name is not empty, has no white space at its ends and holds
    neither an equals sign nor a semicolon; a value has no white space
    at its ends and holds no semicolon. *)
Definition cookieName (n : string) : Prop :=
  n <> EmptyString /\ Js.trim n = n /\ noChar "="%char n = true /\ noChar ";"%char n = true.

Definition cookieValue (v : string) : Prop :=
  Js.trim v = v /\ noChar ";"%char v = true.

Definition wellFormed (m : StringMap) : Prop :=
  List.NoDup (keys m) /\ Forall (fun e => cookieName e.1 /\ cookieValue e.2) m.

Lemma wellFormed_nil : wellFormed [].
Proof. split; constructor. Qed.

Lemma wellFormed_mapSet n v m :
  wellFormed m -> cookieName n -> cookieValue v -> wellFormed (mapSet n v m).
Proof.
  intros [Hd Hf] Hn Hv. split; [now apply NoDup_mapSet|].
  apply List.Forall_forall. intros e He. apply in_mapSet in He as [<-|He]; [split; assumption|].
  now apply (proj1 (List.Forall_forall _ _) Hf).
Qed.



Lemma parsePair_wellFormed part n v :
  noChar ";"%char part = true -> parsePair part = Some (n, v) -> cookieName n /\ cookieValue v.
Proof.
  intros Hsemi. unfold parsePair.
  destruct (Js.indexOfChar "="%char part) as [[|i]|] eqn:Hi; try discriminate.
  destruct (Js.trim (Js.take (S i) part)) as [|c name] eqn:Hname; [discriminate|].
  unfold Js.isEmpty. cbv iota.
  intros [= <- <-]. rewrite <- Hname. split; [split; [|split; [|split]]|split].
  - rewrite Hname. discriminate.
  - apply trim_idem.
  - apply trim_every. now apply indexOfChar_take.
  - apply trim_every, take_every, Hsemi.
  - apply trim_idem.
  - exact (trim_every _ _ (drop_every _ (S (S i)) part Hsemi)).
Qed.






Definition parseStep (cookies : StringMap) (rawPart : string) : StringMap :=
  match parsePair (Js.trim rawPart) with
  | Some (name, cookieValue) => mapSet name cookieValue cookies
  | None => cookies
  end.

Lemma parseCookieHeader_fold value : parseCookieHeader value = fold_left parseStep (Js.splitOn ";"%char value) [].
Proof. reflexivity. Qed.

Lemma parseSteps_wellFormed parts m :
  Forall (fun p => noChar ";"%char p = true) parts -> wellFormed m ->
  wellFormed (fold_left parseStep parts m).
Proof.
  revert m. induction parts as [|p parts IH]; intros m Hp Hm; simpl; [exact Hm|].
  inversion Hp as [|? ? Hp1 Hp2]; subst. apply IH; [exact Hp2|].
  unfold parseStep. destruct (parsePair (Js.trim p)) as [[n v]|] eqn:Hpair; [|exact Hm].
  destruct (parsePair_wellFormed _ _ _ (trim_every _ _ Hp1) Hpair) as [Hn Hv].
  now apply wellFormed_mapSet.
Qed.

Lemma parseCookieHeader_wellFormed value : wellFormed (parseCookieHeader value).
Proof.
  rewrite parseCookieHeader_fold. apply parseSteps_wellFormed;
    [apply splitOn_noChar|apply wellFormed_nil].
Qed.

(** *** Writing the header and reading it back *)

Definition entry (e : string * string) : string := e.1 +:+ "=" +:+ e.2.

Lemma serializeCookieHeader_entries m :
  serializeCookieHeader m = Payload.joinWith "; " (map entry m).
Proof.
  unfold serializeCookieHeader. f_equal. apply map_ext. now intros [n v].
Qed.

Lemma noChar_app c a b : noChar c (a +:+ b) = noChar c a && noChar c b.
Proof. apply every_app. Qed.

Lemma entry_noSemicolon e :
  cookieName e.1 -> cookieValue e.2 -> noChar ";"%char (entry e) = true.
Proof.
  intros (_ & _ & _ & Hn) (_ & Hv). unfold entry.
  now rewrite !noChar_app, Hn, Hv.
Qed.

Lemma trimmed_trimEnd v : Js.trim v = v -> Js.trimEnd v = v.
Proof. intros H. rewrite <- H. apply trim_trimEnd. Qed.

Lemma trimmed_head v : Js.trim v = v -> headNotSpace v = true.
Proof. intros H. rewrite <- H. apply trim_head. Qed.

Lemma trim_entry e : cookieName e.1 -> cookieValue e.2 -> Js.trim (entry e) = entry e.
Proof.
  destruct e as [n v]. simpl. intros (Hne & Hn & _ & _) (Hv & _). unfold entry, Js.trim. simpl.
  destruct n as [|c n]; [contradiction|].
  pose proof (trimmed_head _ Hn) as Hc. simpl in Hc.
  rewrite app_cons, (trimStart_notSpace _ _ Hc), <- app_cons.
  assert (He : Js.trimEnd ("=" +:+ v) = "=" +:+ v).
  { rewrite app_cons, app_empty, trimEnd_cons, (trimmed_trimEnd _ Hv). now destruct v. }
  rewrite trimEnd_app; rewrite He; [reflexivity|discriminate].
Qed.

Lemma drop_succ_app n c v : Js.drop (S (String.length n)) (n +:+ String c v) = v.
Proof.
  induction n as [|a n IH]; [now destruct v|]. rewrite app_cons. simpl. exact IH.
Qed.

Lemma parsePair_entry e : cookieName e.1 -> cookieValue e.2 -> parsePair (entry e) = Some e.
Proof.
  destruct e as [n v]. cbn [fst snd]. intros (Hne & Hn & Heq & _) (Hv & _).
  unfold parsePair, entry. cbn [fst snd].
  change ("=" +:+ v) with (String "="%char v).
  rewrite (indexOfChar_app _ _ _ Heq).
  destruct (String.length n) as [|i] eqn:Hlen; [destruct n; [contradiction|discriminate]|].
  rewrite <- Hlen, take_app, drop_succ_app, Hn, Hv.
  destruct n; [contradiction|reflexivity].
Qed.

Lemma splitOn_join es :
  Forall (fun e => noChar ";"%char e = true) es ->
  Js.splitOn ";"%char (Payload.joinWith "; " es) =
    match es with
    | [] => [EmptyString]
    | e :: rest => e :: map (String " "%char) rest
    end.
Proof.
  induction es as [|e es IH]; [reflexivity|].
  intros Hes. inversion Hes as [|? ? He Hrest]; subst.
  destruct es as [|e' es]; [simpl; now apply splitOn_single|].
  change (Payload.joinWith "; " (e :: e' :: es))
    with (e +:+ String ";"%char (String " "%char (Payload.joinWith "; " (e' :: es)))).
  rewrite (splitOn_app _ _ _ He).
  change (Js.splitOn ";"%char (String " "%char (Payload.joinWith "; " (e' :: es))))
    with (match Js.splitOn ";"%char (Payload.joinWith "; " (e' :: es)) with
          | p :: ps => String " "%char p :: ps
          | [] => [String " "%char EmptyString]
          end).
  rewrite (IH Hrest). reflexivity.
Qed.

Lemma parseStep_entry m e :
  cookieName e.1 -> cookieValue e.2 ->
  parseStep m (entry e) = mapSet e.1 e.2 m
  /\ parseStep m (String " "%char (entry e)) = mapSet e.1 e.2 m.
Proof.
  intros Hn Hv. unfold parseStep.
  assert (Hsp : Js.trim (String " "%char (entry e)) = Js.trim (entry e)) by reflexivity.
  rewrite Hsp, (trim_entry _ Hn Hv), (parsePair_entry _ Hn Hv). now destruct e.
Qed.

Lemma parseSteps_entries es acc :
  Forall (fun e => cookieName e.1 /\ cookieValue e.2) es ->
  List.NoDup (keys (acc ++ es)%list) ->
  fold_left parseStep (map (String " "%char) (map entry es)) acc = (acc ++ es)%list.
Proof.
  revert acc. induction es as [|e es IH]; intros acc Hes Hd; simpl.
  - now rewrite app_nil_r.
  - inversion Hes as [|? ? [Hn Hv] Hrest]; subst.
    rewrite (proj2 (parseStep_entry acc e Hn Hv)).
    assert (Hfresh : ~ In e.1 (keys acc)).
    { rewrite map_app in Hd. simpl in Hd. apply List.NoDup_remove_2 in Hd.
      intros Hin. apply Hd. apply in_or_app. now left. }
    rewrite (mapSet_fresh _ _ _ Hfresh).
    replace (acc ++ [(e.1, e.2)])%list with (acc ++ [e])%list by now destruct e.
    rewrite IH; [now rewrite <- app_assoc|exact Hrest|now rewrite <- app_assoc].
Qed.

Lemma parse_serialize m : wellFormed m -> parseCookieHeader (serializeCookieHeader m) = m.
Proof.
  intros [Hd Hf]. rewrite parseCookieHeader_fold, serializeCookieHeader_entries.
  rewrite splitOn_join.
  - destruct m as [|e m]; [reflexivity|].
    inversion Hf as [|? ? [Hn Hv] Hrest]; subst.
    cbn [map fold_left]. rewrite (proj1 (parseStep_entry [] e Hn Hv)).
    change (mapSet e.1 e.2 []) with [(e.1, e.2)].
    replace [(e.1, e.2)] with [e] by now destruct e.
    now rewrite parseSteps_entries.
  - apply List.Forall_forall. intros x Hx. apply in_map_iff in Hx as (e & <- & He).
    destruct (proj1 (List.Forall_forall _ _) Hf e He). now apply entry_noSemicolon.
Qed.

(** *** The jar of a scope and host *)





Section WithPlatform.
Context {platform : Platform}.






End WithPlatform.

Definition vintedUrl : string := "https://www.vinted.de/api/v2/items".

Definition capturedStore : Store :=
  setCookiesInJar (platform := PayloadFacts.examplePlatform) vintedUrl
    ["anon_id=abc; Path=/; HttpOnly"; "v_udt=; Max-Age=0"; "v_udt=xyz; Secure"]
    (Some "user-a") emptyStore.


(** *** Merging the cookie sources of a request *)

Lemma wellFormed_spread target source :
  wellFormed target -> wellFormed source -> wellFormed (spread target source).
Proof.
  intros Ht [_ Hs]. unfold spread. revert target Ht.
  induction source as [|[k v] source IH]; intros target Ht; simpl; [exact Ht|].
  inversion Hs as [|? ? [Hk Hv] Hrest]; subst.
  apply IH; [exact Hrest|]. now apply wellFormed_mapSet.
Qed.

Lemma mapGet_spread name target source :
  List.NoDup (keys source) ->
  mapGet name (spread target source) = Json.orElse (mapGet name source) (mapGet name target).
Proof.
  unfold spread. revert target.
  induction source as [|[k v] source IH]; intros target Hd; simpl; [reflexivity|].
  inversion Hd as [|? ? Hn Hd']; subst.
  rewrite (IH _ Hd'), mapGet_mapSet.
  destruct (String.eqb_spec k name) as [->|Hne]; [|reflexivity].
  now rewrite (mapGet_none _ _ Hn).
Qed.

(** What one source says about a cookie, and what the sources say
    together: a later source overrides an earlier one. *)
Definition cookieOf (name : string) (value : option string) : option string :=
  match value with
  | Some (String c r) => mapGet name (parseCookieHeader (String c r))
  | _ => None
  end.

Definition lastDefined (name : string) (values : list (option string)) : option string :=
  fold_left (fun found value => Json.orElse (cookieOf name value) found) values None.

Definition mergeStep (merged : StringMap) (value : option string) : StringMap :=
  match value with
  | Some (String c r) => spread merged (parseCookieHeader (String c r))
  | _ => merged
  end.

Lemma mergeSteps values merged name :
  wellFormed merged ->
  wellFormed (fold_left mergeStep values merged)
  /\ mapGet name (fold_left mergeStep values merged)
     = fold_left (fun found value => Json.orElse (cookieOf name value) found) values
         (mapGet name merged).
Proof.
  revert merged. induction values as [|value values IH]; intros merged Hm; simpl; [auto|].
  assert (Hstep : wellFormed (mergeStep merged value)
                  /\ mapGet name (mergeStep merged value)
                     = Json.orElse (cookieOf name value) (mapGet name merged)).
  { unfold mergeStep, cookieOf. destruct value as [[|c r]|]; try (split; [exact Hm|reflexivity]).
    pose proof (parseCookieHeader_wellFormed (String c r)) as Hp.
    split; [now apply wellFormed_spread|]. apply mapGet_spread, Hp. }
  destruct Hstep as [Hwf Hget]. destruct (IH _ Hwf) as [IH1 IH2].
  split; [exact IH1|]. now rewrite IH2, Hget.
Qed.

Lemma mergeCookieHeaders_fold values :
  mergeCookieHeaders values =
    match fold_left mergeStep values [] with
    | [] => None
    | _ :: _ => Some (serializeCookieHeader (fold_left mergeStep values []))
    end.
Proof. reflexivity. Qed.

(** X9. When the cookie headers of several sources are merged, the
    cookie of a name in the merged header is the one of the last
    source that names it; for the four sources of a request this means
    the caller's header before the session's, before the
    environment's, before the jar's.  No header results exactly when
    no source names any cookie, and merging the merged header again
    changes nothing. *)
Theorem merged_cookie_is_from_last_source (values : list (option string)) (name : string) :
  match mergeCookieHeaders values with
  | Some header =>
      mapGet name (parseCookieHeader header) = lastDefined name values
      /\ mergeCookieHeaders [Some header] = Some header
  | None => lastDefined name values = None
  end
  /\ forall jar env session explicit,
       lastDefined name [jar; env; session; explicit]
       = Json.orElse (cookieOf name explicit)
           (Json.orElse (cookieOf name session)
              (Json.orElse (cookieOf name env) (cookieOf name jar))).
Proof.
  split.
  - rewrite mergeCookieHeaders_fold.
    destruct (mergeSteps values [] name wellFormed_nil) as [Hwf Hget].
    change (mapGet name (fold_left mergeStep values []) = lastDefined name values) in Hget.
    destruct (fold_left mergeStep values []) as [|e merged] eqn:Hm; [now rewrite <- Hget|].
    rewrite (parse_serialize _ Hwf). split; [exact Hget|].
    rewrite (mergeCookieHeaders_fold [Some (serializeCookieHeader (e :: merged))]).
    cbn [fold_left].
    assert (Hs : serializeCookieHeader (e :: merged) <> EmptyString).
    { rewrite serializeCookieHeader_entries. destruct Hwf as [_ Hf].
      inversion Hf as [|? ? [(Hne & _) _] _]; subst.
      destruct e as [n v]. simpl in Hne. destruct n; [contradiction|].
      cbn [map Payload.joinWith]. unfold entry. cbn [fst snd].
      destruct (map _ merged); rewrite !app_cons; discriminate. }
    unfold mergeStep. destruct (serializeCookieHeader (e :: merged)) as [|c r] eqn:Hser;
      [contradiction|].
    rewrite <- Hser, (parse_serialize _ Hwf).
    assert (Hsp : spread [] (e :: merged) = e :: merged).
    { clear - Hwf. destruct Hwf as [Hd _]. unfold spread.
      assert (Hgen : forall (source acc : StringMap),
                List.NoDup (keys (acc ++ source)%list) ->
                fold_left (fun acc '(k, v) => mapSet k v acc) source acc = (acc ++ source)%list).
      { induction source as [|[k v] source IH]; intros acc Hnd; simpl;
          [now rewrite app_nil_r|].
        assert (Hfresh : ~ In k (keys acc)).
        { rewrite map_app in Hnd. simpl in Hnd. apply List.NoDup_remove_2 in Hnd.
          intros Hin. apply Hnd. apply in_or_app. now left. }
        rewrite (mapSet_fresh _ _ _ Hfresh), IH; now rewrite <- app_assoc. }
      apply (Hgen (e :: merged) []). exact Hd. }
    now rewrite Hsp.
  - intros jar env session explicit. unfold lastDefined. cbn [fold_left].
    now destruct (cookieOf name jar).
Qed.

End CookieFacts.

(** ** Request headers *)

Module HeaderFacts.
Import SessionStore.

Local Abbreviation read := readHeaderCaseInsensitive.
Local Abbreviation lower := Js.toLowerCase.

Lemma read_cons k v headers name :
  read ((k, v) :: headers) name =
    if String.eqb (lower k) (lower name) then Some v else read headers name.
Proof.
  unfold readHeaderCaseInsensitive. simpl. now destruct (String.eqb (lower k) (lower name)).
Qed.

Lemma read_app headers more name :
  read (headers ++ more)%list name = Json.orElse (read headers name) (read more name).
Proof.
  induction headers as [|[k v] headers IH]; [reflexivity|].
  rewrite <- app_comm_cons, !read_cons.
  destruct (String.eqb (lower k) (lower name)); [reflexivity|exact IH].
Qed.

Lemma replace_some name value headers headers' other :
  replaceCaseInsensitive (lower name) value headers = Some headers' ->
  read headers' other =
    if String.eqb (lower other) (lower name)
    then Some value else read headers other.
Proof.
  revert headers'. induction headers as [|[k v] headers IH]; intros headers'; simpl;
    [discriminate|].
  destruct (String.eqb_spec (lower k) (lower name)) as [Hk|Hk].
  - intros [= <-]. rewrite !read_cons, Hk.
    rewrite (String.eqb_sym (lower other)). now destruct (String.eqb (lower name) (lower other)).
  - destruct (replaceCaseInsensitive (lower name) value headers) as [rest|]; [|discriminate].
    intros [= <-]. rewrite !read_cons, (IH rest eq_refl).
    destruct (String.eqb_spec (lower k) (lower other)) as [Ho|Ho]; [|reflexivity].
    destruct (String.eqb_spec (lower other) (lower name)); [congruence|reflexivity].
Qed.

Lemma replace_none name value headers :
  replaceCaseInsensitive (lower name) value headers = None ->
  read headers name = None /\ mapSet name value headers = (headers ++ [(name, value)])%list.
Proof.
  induction headers as [|[k v] headers IH]; simpl; [auto|].
  destruct (String.eqb_spec (lower k) (lower name)) as [Hk|Hk]; [discriminate|].
  destruct (replaceCaseInsensitive (lower name) value headers); [discriminate|].
  intros _. destruct (IH eq_refl) as [IH1 IH2].
  rewrite read_cons. destruct (String.eqb_spec (lower k) (lower name)); [contradiction|].
  split; [exact IH1|].
  destruct (String.eqb_spec k name) as [->|_]; [contradiction|]. now rewrite IH2.
Qed.

(** Reading a header after writing one, by any spelling of the names. *)
Lemma read_set headers name value other :
  read (setHeaderCaseInsensitive headers name value) other =
    if String.eqb (lower other) (lower name) then Some value else read headers other.
Proof.
  unfold setHeaderCaseInsensitive.
  destruct (replaceCaseInsensitive (lower name) value headers) as [headers'|] eqn:Hr.
  - now apply replace_some.
  - destruct (replace_none _ _ _ Hr) as [Hnone ->].
    rewrite read_app, read_cons, (String.eqb_sym (lower name)).
    destruct (String.eqb_spec (lower other) (lower name)) as [He|He].
    + unfold readHeaderCaseInsensitive in *. rewrite He. now rewrite Hnone.
    + now destruct (read headers other).
Qed.

Lemma read_setIfTruthy headers name value other :
  read (setIfTruthy headers name value) other =
    match value with
    | Some (String c r) =>
        if String.eqb (lower other) (lower name) then Some (String c r) else read headers other
    | _ => read headers other
    end.
Proof. destruct value as [[|c r]|]; try reflexivity. apply read_set. Qed.

Section WithPlatform.
Context {platform : Platform}.

(** The value chosen for a header of the default profile: the
    caller's, else the session's, else the environment's, else the
    default. *)
Definition chosenHeader (env : ProcessEnv) (store : Store) (url : string)
    (headers : StringMap) (sessionScope : option string) (name fallback : string)
  : option string :=
  Json.orElse (read headers name)
    (Json.orElse (read (getDynamicHeadersForUrl url sessionScope store) name)
       (Json.orElse (read (envRequestHeaders env) name) (Some fallback))).

(** X10. Every request of the default profile carries a non-empty
    X-Requested-With header.  Its CSRF token and its priority are the
    caller's header if there is one, else the one remembered for the
    session, else the one of the environment, else the built-in
    default, whenever that choice is not empty; header names are
    matched without regard to case.  A request of the OAuth token
    profile is built from the caller's headers alone: neither the
    session store nor the headers of the environment change it. *)
Theorem request_headers_defaults (env : ProcessEnv) (store : Store) (url : string)
    (headers : StringMap) (hasBody includeUserAgent : bool) (sessionScope : option string) :
  let result :=
    buildRequestHeaders env store url headers hasBody includeUserAgent sessionScope false in
  (exists c r, read result "X-Requested-With" = Some (String c r))
  /\ (forall c r,
        chosenHeader env store url headers sessionScope "x-csrf-token" DEFAULT_CSRF_TOKEN
          = Some (String c r) ->
        read result "X-CSRF-Token" = Some (String c r))
  /\ (forall c r,
        chosenHeader env store url headers sessionScope "priority" "u=3" = Some (String c r) ->
        read result "Priority" = Some (String c r))
  /\ (forall env' store',
        userAgent env' = userAgent env ->
        buildRequestHeaders env' store' url headers hasBody includeUserAgent sessionScope true
        = buildRequestHeaders env store url headers hasBody includeUserAgent sessionScope true).
Proof.
  intros result. subst result. unfold buildRequestHeaders, chosenHeader. cbv zeta.
  cbv iota.
  set (sessionHeaders := getDynamicHeadersForUrl url sessionScope store).
  set (mergedCookie := mergeCookieHeaders _).
  set (resolved0 := setIfTruthy _ "cookie" mergedCookie).
  set (resolved1 := match read resolved0 "x-requested-with" with
                    | Some (String _ _) => resolved0
                    | _ => setHeaderCaseInsensitive resolved0 "x-requested-with" "XMLHttpRequest"
                    end).
  set (anonId := Json.orElse (read headers "x-anon-id") _).
  set (vUdt := Json.orElse (read headers "x-v-udt") _).
  set (csrfToken := Json.orElse (read headers "x-csrf-token") _).
  set (priority := Json.orElse (read headers "priority") _).
  assert (Hx : exists c r, read resolved1 "X-Requested-With" = Some (String c r)).
  { subst resolved1.
    change (read resolved0 "x-requested-with") with (read resolved0 "X-Requested-With").
    destruct (read resolved0 "X-Requested-With") as [[|c r]|] eqn:Hr.
    - rewrite read_set. simpl. eauto.
    - eauto.
    - rewrite read_set. simpl. eauto. }
  split; [|split; [|split]].
  - destruct Hx as (c & r & Hx).
    rewrite !read_setIfTruthy.
    destruct priority as [[|? ?]|], csrfToken as [[|? ?]|], vUdt as [[|? ?]|],
      anonId as [[|? ?]|]; simpl; eauto.
  - intros c r Hc. rewrite Hc.
    rewrite !read_setIfTruthy. destruct priority as [[|? ?]|]; reflexivity.
  - intros c r Hc. rewrite Hc. now rewrite read_setIfTruthy.
  - intros env' store' Hua. simpl. now rewrite Hua.
Qed.

End WithPlatform.

Definition quietEnv : ProcessEnv :=
  {| envRequestHeaders := [("X-CSRF-Token", "from-env")]; userAgent := "agent" |}.

Lemma request_headers_defaults_witness :
  readHeaderCaseInsensitive
    (buildRequestHeaders (platform := PayloadFacts.examplePlatform) quietEnv
       CookieFacts.capturedStore CookieFacts.vintedUrl [("x-csrf-token", "from-caller")]
       false true (Some "user-a") false)
    "X-CSRF-Token" = Some "from-caller".
Proof.
  destruct (request_headers_defaults (platform := PayloadFacts.examplePlatform) quietEnv
              CookieFacts.capturedStore CookieFacts.vintedUrl [("x-csrf-token", "from-caller")]
              false true (Some "user-a")) as (_ & Hcsrf & _).
  apply Hcsrf. vm_compute. reflexivity.
Defined.

End HeaderFacts.

(** ** Response payloads: errors and ids *)

Module PayloadExtras.
Import Payload CheckoutClassification TextFacts.

Section WithPlatform.
Context {platform : Platform}.

Lemma message_prefix rest :
  Js.startsWith "Vinted request failed (" ("Vinted request failed (" +:+ rest) = true.
Proof. reflexivity. Qed.

(** None of the five fields that mark a payload as an error is there. *)
Definition noErrorSignal (payload : json) : Prop :=
  Forall (fun key => Json.get (Some payload) key = None)
    ["errors"; "error"; "status"; "code"; "message_code"].

(** X11. What [extractErrorsPayloadMessage] makes of a payload.  Only
    an object that is not an array can be an error, and every error
    message starts with the words of a failed request.  A payload with a field
    [errors] of its own is always an error, whatever the field holds.
    A payload with a numeric status from 400 on is an error whose
    message carries that status where the checkout classifier reads
    it, so a payload with status 403 is classified as access_denied or
    blocked.  A payload with none of the fields errors, error, status,
    code and message_code is never an error. *)
Theorem payload_error_detection (payload : json) :
  (forall message,
     extractErrorsPayloadMessage payload = Some message ->
     Js.startsWith "Vinted request failed (" message = true
     /\ exists fields, payload = JObj fields)
  /\ (Json.hasOwn payload "errors" = true ->
      exists message, extractErrorsPayloadMessage payload = Some message)
  /\ (forall status,
        Json.get (Some payload) "status" = Some (JNum (inject_Z status)) ->
        400 <= status <= 999 ->
        Number_toString (inject_Z status) = Js.decimal status ->
        exists message,
          extractErrorsPayloadMessage payload = Some message
          /\ extractStatusCode message = Some status
          /\ (status = 403 ->
              classifyCheckoutErrorMessage message = access_denied
              \/ classifyCheckoutErrorMessage message = blocked))
  /\ (noErrorSignal payload -> extractErrorsPayloadMessage payload = None).
Proof.
  split; [|split; [|split]].
  - intros message. unfold extractErrorsPayloadMessage.
    destruct payload as [| | | | |items|fields]; try discriminate.
    cbv zeta. destruct (negb _); [discriminate|].
    destruct (parseStatusCode _); intros [= <-]; split; try reflexivity; eauto.
  - intros Herrors. unfold extractErrorsPayloadMessage.
    destruct payload as [| | | | |items|fields]; try discriminate Herrors.
    cbv zeta. rewrite Herrors. cbn [orb negb].
    destruct (parseStatusCode _); eauto.
  - intros status Hstatus Hrange Hprint.
    assert (Hle : Qle_bool (inject_Z 400) (inject_Z status) = true).
    { apply Qle_bool_iff. rewrite <- Zle_Qle. lia. }
    unfold extractErrorsPayloadMessage.
    destruct payload as [| | | | |items|fields]; try discriminate Hstatus.
    cbv zeta. rewrite Hstatus. cbn [parseStatusCode]. rewrite Hle, Hprint.
    rewrite !orb_true_r. cbn [orb negb].
    eexists. split; [reflexivity|].
    change ("). " +:+ ?x) with (String ")"%char (". " +:+ x)).
    assert (Hcode : forall rest,
              extractStatusCode ("Vinted request failed (" +:+ Js.decimal status +:+ "). " +:+ rest)
              = Some status).
    { intros rest. apply (TransportExtras.failed_message_status status (". " +:+ rest)). lia. }
    split; [apply Hcode|].
    intros ->. apply TransportExtras.classify_403, Hcode.
  - intros Hnone. unfold noErrorSignal in Hnone.
    inversion Hnone as [|? ? Herrors H1]; subst.
    inversion H1 as [|? ? Herror H2]; subst.
    inversion H2 as [|? ? Hstatus H3]; subst.
    inversion H3 as [|? ? Hcode H4]; subst.
    inversion H4 as [|? ? Hmc _]; subst.
    unfold extractErrorsPayloadMessage.
    destruct payload as [| | | | |items|fields]; try reflexivity.
    cbv zeta. unfold Json.hasOwn. rewrite Herrors, Herror, Hstatus, Hcode, Hmc. reflexivity.
Qed.


End WithPlatform.

Definition deniedPayload : json :=
  JObj [("status", JNum (inject_Z 403)); ("message_code", JStr "access_denied")].

Lemma payload_error_detection_witness :
  exists message,
    extractErrorsPayloadMessage (platform := PayloadFacts.examplePlatform) deniedPayload
      = Some message
    /\ extractStatusCode message = Some 403.
Proof.
  destruct (payload_error_detection (platform := PayloadFacts.examplePlatform) deniedPayload)
    as (_ & _ & Hstatus & _).
  destruct (Hstatus 403) as (message & Hm & Hc & _).
  - reflexivity.
  - lia.
  - vm_compute. reflexivity.
  - exists message. split; assumption.
Defined.

End PayloadExtras.

(** ** vinted-actions-service.ts: purchase id candidates and the submit fallback *)

Module ActionsFacts.
Import ActionsService TextFacts.

(** The list without the later occurrences of its elements. *)
Fixpoint firstOccurrences (l : list Z) : list Z :=
  match l with
  | [] => []
  | x :: rest => x :: List.filter (fun y => negb (y =? x)) (firstOccurrences rest)
  end.

Definition notIn (l : list Z) (y : Z) : bool := negb (existsb (Z.eqb y) l).

Definition positive (c : Z) : bool := 0 <? c.

Lemma notIn_spec l y : notIn l y = true <-> ~ In y l.
Proof.
  unfold notIn. rewrite negb_true_iff. split.
  - intros H Hin. assert (existsb (Z.eqb y) l = true); [|congruence].
    apply existsb_exists. exists y. split; [exact Hin|apply Z.eqb_refl].
  - intros H. destruct (existsb (Z.eqb y) l) eqn:He; [|reflexivity].
    apply existsb_exists in He as (x & Hin & Hx). apply Z.eqb_eq in Hx. subst. contradiction.
Qed.

Lemma filter_filter {A} (p q : A -> bool) l :
  List.filter p (List.filter q l) = List.filter (fun x => q x && p x) l.
Proof.
  induction l as [|x l IH]; simpl; [reflexivity|].
  destruct (q x); simpl; [|exact IH]. destruct (p x); now rewrite IH.
Qed.

Lemma filter_ext_in' {A} (p q : A -> bool) l :
  (forall x, In x l -> p x = q x) -> List.filter p l = List.filter q l.
Proof.
  induction l as [|x l IH]; simpl; [reflexivity|]. intros H.
  rewrite (H x) by auto. rewrite IH by auto. reflexivity.
Qed.

Lemma in_firstOccurrences x l : In x (firstOccurrences l) <-> In x l.
Proof.
  induction l as [|y l IH]; simpl; [tauto|].
  rewrite filter_In, IH, negb_true_iff, Z.eqb_neq.
  destruct (Z.eq_dec y x); intuition congruence.
Qed.

Lemma NoDup_firstOccurrences l : List.NoDup (firstOccurrences l).
Proof.
  induction l as [|y l IH]; simpl; [constructor|]. constructor.
  - rewrite filter_In, negb_true_iff, Z.eqb_neq. tauto.
  - now apply List.NoDup_filter.
Qed.

Lemma firstOccurrences_NoDup l : List.NoDup l -> firstOccurrences l = l.
Proof.
  induction l as [|y l IH]; simpl; [reflexivity|].
  intros H. inversion H as [|? ? Hn Hd]; subst. rewrite (IH Hd). f_equal.
  rewrite (filter_ext_in' _ (fun _ => true)).
  - clear. induction l as [|x l IH]; simpl; [reflexivity|]. now rewrite IH.
  - intros x Hx. apply negb_true_iff, Z.eqb_neq. intros ->. contradiction.
Qed.

Lemma firstOccurrences_app a b :
  firstOccurrences (a ++ b)%list
  = (firstOccurrences a ++ List.filter (notIn a) (firstOccurrences b))%list.
Proof.
  induction a as [|x a IH]; simpl.
  - symmetry. rewrite (filter_ext_in' _ (fun _ => true)); [|reflexivity].
    induction (firstOccurrences b) as [|y l IHl]; simpl; [reflexivity|]. now rewrite IHl.
  - f_equal. rewrite IH, List.filter_app, filter_filter. f_equal.
    apply filter_ext_in'. intros y _. unfold notIn. simpl.
    rewrite negb_orb, andb_comm. reflexivity.
Qed.

Lemma firstOccurrences_idem_app a b :
  firstOccurrences (firstOccurrences a ++ b)%list = firstOccurrences (a ++ b)%list.
Proof.
  rewrite !firstOccurrences_app. rewrite (firstOccurrences_NoDup _ (NoDup_firstOccurrences a)).
  f_equal. apply filter_ext_in'. intros y _.
  destruct (notIn a y) eqn:H1, (notIn (firstOccurrences a) y) eqn:H2; try reflexivity.
  - apply notIn_spec in H1. rewrite <- in_firstOccurrences in H1.
    apply notIn_spec in H1. congruence.
  - apply notIn_spec in H2. rewrite in_firstOccurrences in H2.
    apply notIn_spec in H2. congruence.
Qed.

Lemma decimal_inj a b : 0 <= a -> 0 <= b -> Js.decimal a = Js.decimal b -> a = b.
Proof.
  intros Ha Hb H. pose proof (allDigits_decimal a Ha) as H1.
  rewrite H, (allDigits_decimal b Hb) in H1. congruence.
Qed.

(** What the loop of [normalizePurchaseIdCandidates] keeps true: the
    set holds the texts of the ids kept so far, all of them positive. *)
Definition seenMatches (seen : gset string) (normalized : list Z) : Prop :=
  (forall y, 0 < y -> Js.decimal y ∈ seen <-> In y normalized)
  /\ Forall (fun y => 0 < y) normalized.

Lemma normalize_fold candidates seen normalized :
  seenMatches seen normalized ->
  (fold_left normalizeStep candidates (seen, normalized)).2
  = (normalized
     ++ List.filter (notIn normalized) (firstOccurrences (List.filter positive candidates)))%list.
Proof.
  revert seen normalized.
  induction candidates as [|c candidates IH]; intros seen normalized [Hseen Hpos]; simpl.
  - now rewrite app_nil_r.
  - unfold positive at 1. destruct (Z.leb_spec c 0) as [Hle|Hgt].
    + destruct (Z.ltb_spec 0 c); [lia|]. now apply IH.
    + destruct (Z.ltb_spec 0 c); [|lia]. simpl.
      destruct (decide (Js.decimal c ∈ seen)) as [Hin|Hnin].
      * rewrite (IH seen normalized) by (split; assumption).
        apply Hseen in Hin; [|assumption].
        assert (Hc : notIn normalized c = false).
        { destruct (notIn normalized c) eqn:Hn; [|reflexivity].
          apply notIn_spec in Hn. contradiction. }
        rewrite Hc, filter_filter. f_equal. apply filter_ext_in'. intros y _.
        destruct (Z.eqb_spec y c) as [->|]; [now rewrite Hc|simpl; reflexivity].
      * assert (Hn : ~ In c normalized) by (intros Hin; apply Hnin, Hseen; assumption).
        rewrite (IH ({[Js.decimal c]} ∪ seen) (normalized ++ [c])%list).
        -- apply notIn_spec in Hn. rewrite Hn, <- app_assoc. simpl. do 2 f_equal.
           rewrite filter_filter. apply filter_ext_in'. intros y _.
           unfold notIn. rewrite existsb_app. simpl. rewrite orb_false_r, negb_orb.
           apply andb_comm.
        -- split.
           ++ intros y Hy. rewrite elem_of_union, elem_of_singleton, in_app_iff, Hseen by assumption.
              simpl. split.
              ** intros [Heq|Hin]; [right; left; symmetry; apply decimal_inj; auto; lia|auto].
              ** intros [Hin|[->|[]]]; auto.
           ++ apply Forall_app. split; [assumption|]. constructor; [assumption|constructor].
Qed.

(** X14. [normalizePurchaseIdCandidates] keeps the positive
    candidates, each once, at the place of its first occurrence.  So
    its result has no duplicates and no id below 1, holds exactly the
    positive ids of the input, is left unchanged by a second
    normalisation, and merging an already normalised list with more
    candidates gives the same as normalising everything at once. *)
Theorem normalized_candidates (candidates : list Z) :
  normalizePurchaseIdCandidates candidates
    = firstOccurrences (List.filter positive candidates)
  /\ List.NoDup (normalizePurchaseIdCandidates candidates)
  /\ (forall x, In x (normalizePurchaseIdCandidates candidates) <-> In x candidates /\ 0 < x)
  /\ normalizePurchaseIdCandidates (normalizePurchaseIdCandidates candidates)
     = normalizePurchaseIdCandidates candidates
  /\ (forall more,
        normalizePurchaseIdCandidates (normalizePurchaseIdCandidates candidates ++ more)%list
        = normalizePurchaseIdCandidates (candidates ++ more)%list).
Proof.
  assert (Hspec : forall l,
            normalizePurchaseIdCandidates l = firstOccurrences (List.filter positive l)).
  { intros l. unfold normalizePurchaseIdCandidates. rewrite normalize_fold.
    - simpl. rewrite (filter_ext_in' _ (fun _ => true)); [|reflexivity].
      induction (firstOccurrences _) as [|y r IHr]; simpl; [reflexivity|]. now rewrite IHr.
    - split; [|constructor]. intros y _. rewrite elem_of_empty. simpl. tauto. }
  assert (Hin : forall l x, In x (normalizePurchaseIdCandidates l) <-> In x l /\ 0 < x).
  { intros l x. rewrite Hspec, in_firstOccurrences, filter_In. unfold positive.
    now rewrite Z.ltb_lt. }
  assert (Hfilter : forall l, List.filter positive (firstOccurrences (List.filter positive l))
                              = firstOccurrences (List.filter positive l)).
  { intros l. rewrite (filter_ext_in' _ (fun _ => true)).
    - induction (firstOccurrences _) as [|y r IHr]; simpl; [reflexivity|]. now rewrite IHr.
    - intros x Hx. rewrite in_firstOccurrences, filter_In in Hx. tauto. }
  split; [apply Hspec|]. split; [rewrite Hspec; apply NoDup_firstOccurrences|].
  split; [apply Hin|]. split.
  - rewrite !Hspec, Hfilter. apply firstOccurrences_NoDup, NoDup_firstOccurrences.
  - intros more. rewrite !Hspec, !List.filter_app, Hfilter. apply firstOccurrences_idem_app.
Qed.

(** *** The submit fallback *)

(** The answers to the calls of the dependency, the first call being
    number [k]. *)
Fixpoint answersFrom (submit : SubmitCheckoutPurchase) (k : nat)
    (calls : list Checkout.SubmitCheckoutInput) : list (Result Checkout.Purchased string) :=
  match calls with
  | [] => []
  | call :: rest => submit k call :: answersFrom submit (S k) rest
  end.

Definition isPurchased (answer : Result Checkout.Purchased string) : bool :=
  match answer with
  | ok value => Checkout.purchased value
  | err _ => false
  end.

Definition needsManual (answer : Result Checkout.Purchased string) : bool :=
  match answer with
  | ok value => negb (Checkout.purchased value)
  | err _ => false
  end.

Definition deniedAnswer (answer : Result Checkout.Purchased string) : bool :=
  match answer with
  | err message =>
      match CheckoutClassification.classifyCheckoutErrorMessage message with
      | CheckoutClassification.access_denied => true
      | _ => false
      end
  | ok _ => false
  end.

Definition blockedAnswer (answer : Result Checkout.Purchased string) : bool :=
  match answer with
  | err message =>
      match CheckoutClassification.classifyCheckoutErrorMessage message with
      | CheckoutClassification.blocked => true
      | _ => false
      end
  | ok _ => false
  end.

Definition otherFailure (answer : Result Checkout.Purchased string) : bool :=
  match answer with
  | err message =>
      match CheckoutClassification.classifyCheckoutErrorMessage message with
      | CheckoutClassification.blocked | CheckoutClassification.access_denied => false
      | _ => true
      end
  | ok _ => false
  end.

(** The status after a run in which nothing was purchased. *)
Definition statusWithoutPurchase (answers : list (Result Checkout.Purchased string))
  : InstantBuyStatus :=
  if existsb needsManual answers then manual_checkout_required
  else if existsb deniedAnswer answers then access_denied
  else if existsb blockedAnswer answers then blocked
  else manual_checkout_required.

(** The challenge URL comes from the message of a failed call. *)
Definition fromFailedCall (answers : list (Result Checkout.Purchased string))
    (challengeUrl : option string) : Prop :=
  forall u, challengeUrl = Some u ->
    u <> EmptyString
    /\ exists message, In (err message) answers /\ extractCaptchaChallengeUrl message = Some u.

Record LoopFacts (submit : SubmitCheckoutPurchase) (input : SubmitFallbackInput)
    (candidates : list Z) (before : list Checkout.SubmitCheckoutInput)
    (run : option InstantBuyResult * list Checkout.SubmitCheckoutInput) : Prop := {
  calls_prefix :
    exists n, run.2 = (before ++ map (submitInput input) (firstn n candidates))%list;
  purchase_is_last :
    forall k answer,
      nth_error (answersFrom submit 0 run.2) k = Some answer ->
      isPurchased answer = true -> S k = length run.2;
  outcome :
    if existsb isPurchased (answersFrom submit 0 run.2)
    then run.1 = Some {| status := purchased; challengeUrl := None |}
    else run.2 = (before ++ map (submitInput input) candidates)%list
         /\ match run.2 with
            | [] => run.1 = None
            | _ :: _ =>
                exists r, run.1 = Some r
                  /\ status r = statusWithoutPurchase (answersFrom submit 0 run.2)
                  /\ (status r = access_denied -> challengeUrl r = None)
                  /\ fromFailedCall (answersFrom submit 0 run.2) (challengeUrl r)
            end;
}.

Lemma answersFrom_app submit k calls more :
  answersFrom submit k (calls ++ more)%list
  = (answersFrom submit k calls ++ answersFrom submit (k + length calls) more)%list.
Proof.
  revert k. induction calls as [|c calls IH]; intros k; simpl.
  - now rewrite Nat.add_0_r.
  - rewrite IH. do 3 f_equal. lia.
Qed.

Lemma answersFrom_length submit k calls : length (answersFrom submit k calls) = length calls.
Proof. revert k. induction calls as [|c calls IH]; intros k; simpl; [reflexivity|]. now rewrite IH. Qed.

Lemma existsb_split (answers : list (Result Checkout.Purchased string)) :
  existsb isPurchased answers = false -> answers <> [] ->
  existsb needsManual answers || existsb deniedAnswer answers
  || existsb blockedAnswer answers || existsb otherFailure answers = true.
Proof.
  induction answers as [|a answers IH]; [contradiction|]. simpl.
  rewrite orb_false_iff. intros [Ha Hrest] _.
  destruct a as [v|m]; simpl in *.
  - rewrite Ha. reflexivity.
  - destruct (CheckoutClassification.classifyCheckoutErrorMessage m); simpl;
      rewrite ?orb_true_r; reflexivity.
Qed.

Lemma submitLoop_facts submit input candidates before manual blockedSeen denied other url :
  let answers := answersFrom submit 0 before in
  existsb isPurchased answers = false ->
  manual = existsb needsManual answers ->
  blockedSeen = existsb blockedAnswer answers ->
  denied = existsb deniedAnswer answers ->
  other = existsb otherFailure answers ->
  fromFailedCall answers url ->
  LoopFacts submit input candidates before
    (submitLoop submit input candidates manual blockedSeen denied other url before).
Proof.
  revert before manual blockedSeen denied other url.
  induction candidates as [|c candidates IH];
    intros before manual blockedSeen denied other url answers Hnone Hm Hb Hd Ho Hurl.
  - (* every candidate was tried *)
    cbn [submitLoop]. split; cbn [fst snd].
    + exists O. now rewrite app_nil_r.
    + intros k answer Hk Hp. fold answers in Hk.
      assert (Hex : existsb isPurchased answers = true).
      { apply existsb_exists. exists answer. split; [|exact Hp]. now apply nth_error_In in Hk. }
      congruence.
    + fold answers. rewrite Hnone. split; [now rewrite app_nil_r|].
      destruct before as [|call before'].
      * subst. reflexivity.
      * assert (Hne : answers <> []) by (unfold answers; discriminate).
        pose proof (existsb_split answers Hnone Hne) as Hsome.
        rewrite <- Hm, <- Hd, <- Hb, <- Ho in Hsome.
        unfold statusWithoutPurchase. rewrite <- Hm, <- Hd, <- Hb.
        assert (Hw : forall st, fromFailedCall answers (challengeUrl (withChallengeUrl st url))).
        { intros st u Hu. apply Hurl. unfold withChallengeUrl in Hu. simpl in Hu.
          destruct url as [[|ch r]|]; try discriminate. exact Hu. }
        destruct manual;
          [eexists; split; [reflexivity|split; [reflexivity|split; [discriminate|apply Hw]]]|].
        destruct denied;
          [eexists; split; [reflexivity|split; [reflexivity|split; [reflexivity|]]];
           intros u Hu; discriminate|].
        destruct blockedSeen;
          [eexists; split; [reflexivity|split; [reflexivity|split; [discriminate|apply Hw]]]|].
        destruct other;
          [eexists; split; [reflexivity|split; [reflexivity|split; [discriminate|apply Hw]]]|].
        discriminate Hsome.
  - (* one more candidate *)
    cbn [submitLoop]. cbv zeta.
    set (call := submitInput input c).
    assert (Hanswers : answersFrom submit 0 (before ++ [call])
                       = (answers ++ [submit (length before) call])%list).
    { rewrite answersFrom_app. reflexivity. }
    assert (Hstep : forall run,
              LoopFacts submit input candidates (before ++ [call]) run ->
              LoopFacts submit input (c :: candidates) before run).
    { intros run [Hp Hl Hout]. split.
      - destruct Hp as (n & Hn). exists (S n). rewrite Hn, <- app_assoc. reflexivity.
      - exact Hl.
      - destruct (existsb isPurchased (answersFrom submit 0 run.2)); [exact Hout|].
        destruct Hout as [Hcalls Hrest]. split; [|exact Hrest].
        rewrite Hcalls, <- app_assoc. reflexivity. }
    destruct (submit (length before) call) as [value|message] eqn:Hanswer.
    + destruct (Checkout.purchased value) eqn:Hpurchased.
      * (* purchased: the run ends *)
        split; cbn [fst snd].
        -- exists 1%nat. reflexivity.
        -- intros k answer Hk Hp. rewrite Hanswers in Hk.
           rewrite length_app. simpl.
           destruct (Nat.lt_ge_cases k (length answers)) as [Hlt|Hge].
           ++ rewrite nth_error_app1 in Hk by assumption.
              assert (Hex : existsb isPurchased answers = true).
              { apply existsb_exists. exists answer. split; [|exact Hp].
                now apply nth_error_In in Hk. }
              congruence.
           ++ assert (Hlen : (k < length (answers ++ [ok value]))%nat).
              { apply nth_error_Some. congruence. }
              rewrite length_app in Hlen. simpl in Hlen.
              unfold answers in Hge, Hlen. rewrite answersFrom_length in Hge, Hlen. lia.
        -- rewrite Hanswers, existsb_app. simpl. rewrite Hpurchased.
           now rewrite orb_true_r.
      * (* answered, but not purchased *)
        apply Hstep, IH; rewrite ?Hanswers, ?existsb_app; simpl;
          rewrite ?Hpurchased, ?orb_false_r, ?orb_true_r; auto.
        intros u Hu. destruct (Hurl u Hu) as (Hne & m & Hin & Hex).
        split; [exact Hne|]. exists m. split; [apply in_or_app; now left|exact Hex].
    + (* failed *)
      set (url' := match url, extractCaptchaChallengeUrl message with
                   | Some (String _ _), _ => url
                   | _, Some (String ch r) => Some (String ch r)
                   | _, _ => url
                   end).
      assert (Hurl' : fromFailedCall (answers ++ [err message])%list url').
      { intros u Hu. subst url'.
        assert (Hold : url = Some u -> u <> EmptyString
                  /\ exists m, In (err m) (answers ++ [err message])%list
                              /\ extractCaptchaChallengeUrl m = Some u).
        { intros Hx. destruct (Hurl u Hx) as (Hne & m & Hin & Hex).
          split; [exact Hne|]. exists m. split; [apply in_or_app; now left|exact Hex]. }
        destruct url as [[|ch r]|]; [| now apply Hold |].
        - destruct (extractCaptchaChallengeUrl message) as [[|ch r]|] eqn:Hx;
            [now apply Hold| |now apply Hold].
          injection Hu as <-. split; [discriminate|].
          exists message. split; [apply in_or_app; right; now left|exact Hx].
        - destruct (extractCaptchaChallengeUrl message) as [[|ch r]|] eqn:Hx;
            [now apply Hold| |now apply Hold].
          injection Hu as <-. split; [discriminate|].
          exists message. split; [apply in_or_app; right; now left|exact Hx]. }
      destruct (CheckoutClassification.classifyCheckoutErrorMessage message) eqn:Hclass;
        apply Hstep, IH; rewrite ?Hanswers, ?existsb_app; simpl; rewrite ?Hclass;
        rewrite ?orb_false_r, ?orb_true_r; auto.
Qed.

Lemma in_firstn {A} (x : A) n l : In x (firstn n l) -> In x l.
Proof.
  revert l. induction n as [|n IH]; intros [|y l]; simpl; try tauto.
  intros [H|H]; auto.
Qed.

(** X15. The submit fallback tries the normalised purchase ids in
    order, each at most once, always for the session of the user, and
    stops at the first call that reports a purchase: a purchase can
    only be the answer to the last call made.  Without a purchase all
    ids are tried, and the status is manual_checkout_required when a
    call was answered without purchase, else access_denied when a
    failure was classified so, else blocked when one was, else
    manual_checkout_required; it is never failed.  There is no result
    exactly when no positive id was given, and then nothing is called.
    A challenge URL in the result was found in the message of a
    failed call and never goes with access_denied or purchased. *)
Theorem submit_fallback_outcome (submit : SubmitCheckoutPurchase) (input : SubmitFallbackInput) :
  let ids := normalizePurchaseIdCandidates (purchaseIdCandidates input) in
  let run := attemptSubmitWithoutCheckoutUrl submit input in
  let answers := answersFrom submit 0 run.2 in
  (exists n, run.2 = map (submitInput input) (firstn n ids))
  /\ (forall call, In call run.2 ->
        Checkout.sessionKey call = Some (discordUserId input)
        /\ In (Checkout.purchaseId call) (purchaseIdCandidates input)
        /\ 0 < Checkout.purchaseId call)
  /\ (run.1 = None <-> ids = [])
  /\ (forall k answer,
        nth_error answers k = Some answer -> isPurchased answer = true -> S k = length run.2)
  /\ (forall r, run.1 = Some r ->
        if existsb isPurchased answers
        then r = {| status := purchased; challengeUrl := None |}
        else run.2 = map (submitInput input) ids
             /\ status r = statusWithoutPurchase answers
             /\ status r <> failed
             /\ (status r = access_denied -> challengeUrl r = None)
             /\ fromFailedCall answers (challengeUrl r)).
Proof.
  intros ids run answers.
  assert (Hfacts : LoopFacts submit input ids [] run).
  { subst run. unfold attemptSubmitWithoutCheckoutUrl. fold ids.
    destruct ids as [|c rest] eqn:Hids.
    - split; cbn [fst snd].
      + exists O. reflexivity.
      + intros k answer Hk. destruct k; discriminate Hk.
      + simpl. auto.
    - apply submitLoop_facts; try reflexivity. intros u Hu. discriminate. }
  destruct Hfacts as [Hprefix Hlast Hout]. fold answers in Hlast, Hout.
  simpl in Hprefix, Hout.
  split; [exact Hprefix|]. split; [|split; [|split]].
  - intros call Hin. destruct Hprefix as (n & Hn). rewrite Hn in Hin.
    apply in_map_iff in Hin as (c & <- & Hc). apply in_firstn in Hc.
    apply (proj1 (proj2 (proj2 (normalized_candidates _)))) in Hc. simpl. tauto.
  - destruct (existsb isPurchased answers) eqn:Hp.
    + split; [rewrite Hout; discriminate|].
      intros Hids. destruct Hprefix as (n & Hn). rewrite Hids, firstn_nil in Hn.
      unfold answers in Hp. rewrite Hn in Hp. discriminate.
    + destruct Hout as [Hcalls Hrest]. rewrite Hcalls in Hrest. split.
      * intros Hnone. destruct ids; [reflexivity|].
        simpl in Hrest. destruct Hrest as (r & Hr & _). congruence.
      * intros Hids. rewrite Hids in Hrest. exact Hrest.
  - exact Hlast.
  - intros r Hr. destruct (existsb isPurchased answers) eqn:Hp; [congruence|].
    destruct Hout as [Hcalls Hrest]. split; [exact Hcalls|].
    destruct run.2 as [|call calls]; [congruence|].
    destruct Hrest as (r' & Hr' & Hstatus & Hdenied & Hurl).
    assert (r' = r) by congruence. subst r'.
    split; [exact Hstatus|]. split; [|split; assumption].
    rewrite Hstatus. unfold statusWithoutPurchase.
    destruct (existsb needsManual answers), (existsb deniedAnswer answers),
      (existsb blockedAnswer answers); discriminate.
Qed.

Definition fallbackInput : SubmitFallbackInput :=
  {| discordUserId := "user-a"; itemId := 77; region := Regions.de;
     accessToken := "access"; refreshToken := Some "refresh";
     purchaseIdCandidates := [0; 501; 501; 502; 503] |}.

(** The first id is refused behind a captcha, the second is bought. *)
Definition captchaThenBought : SubmitCheckoutPurchase :=
  fun k _ =>
    match k with
    | O => err "Vinted request failed (403). captcha https://geo.captcha-delivery.com/captcha/?cid=1"
    | _ => ok {| Checkout.purchased := true |}
    end.

Lemma submit_fallback_outcome_witness :
  (attemptSubmitWithoutCheckoutUrl captchaThenBought fallbackInput).1
    = Some {| status := purchased; challengeUrl := None |}
  /\ map Checkout.purchaseId (attemptSubmitWithoutCheckoutUrl captchaThenBought fallbackInput).2
     = [501; 502].
Proof.
  destruct (submit_fallback_outcome captchaThenBought fallbackInput)
    as (_ & _ & _ & _ & Hout).
  split; [|vm_compute; reflexivity].
  destruct (attemptSubmitWithoutCheckoutUrl captchaThenBought fallbackInput).1 as [r|] eqn:Hr;
    [|vm_compute in Hr; discriminate Hr].
  specialize (Hout r eq_refl).
  assert (Hp : existsb isPurchased
                 (answersFrom captchaThenBought 0
                    (attemptSubmitWithoutCheckoutUrl captchaThenBought fallbackInput).2) = true)
    by (vm_compute; reflexivity).
  rewrite Hp in Hout. now rewrite Hout.
Defined.

End ActionsFacts.

(** ** regions.ts *)

Module RegionFacts.

(** X13. Every region code that [parseRegion] accepts names the
    region whose base URL is the Vinted host with that code as its
    top-level domain; every region has such a code; and no two regions
    share a base URL. *)
Theorem region_codes_and_base_urls :
  (forall code region,
     parseRegion code = ok region ->
     baseUrlForRegion region = "https://www.vinted." +:+ code)
  /\ (forall region, exists code,
        parseRegion code = ok region /\ String.length code = 2%nat)
  /\ (forall r1 r2, baseUrlForRegion r1 = baseUrlForRegion r2 -> r1 = r2).
Proof.
  split; [|split].
  - intros code region. unfold Regions.parseRegion.
    repeat match goal with
           | |- context [String.eqb code ?s] =>
               destruct (String.eqb_spec code s) as [->|_];
               [intros [= <-]; reflexivity|]
           end.
    discriminate.
  - intros [];
      [exists "de"|exists "at"|exists "fr"|exists "it"|exists "es"|exists "nl"|exists "pl"
      |exists "cz"|exists "pt"]; split; reflexivity.
  - intros [] []; simpl; intros H; first [reflexivity|discriminate H].
Qed.

End RegionFacts.

(** ** vinted-client.ts: submitting a checkout *)

Module CheckoutFacts.
Import Payload VintedClient Checkout.
Section WithPlatform.
Context {platform : Platform}.

Definition checkoutUrl (input : SubmitCheckoutInput) : string :=
  baseUrlForRegion (region input) +:+ "/api/v2/purchases/" +:+ Js.decimal (purchaseId input)
  +:+ "/checkout".










Definition log2 : string := "Checkout submit finished without purchase confirmation".



End WithPlatform.




(** *** The components sent back *)















End CheckoutFacts.

(** ** vinted-client.ts: the token request *)

Module OAuthFacts.
Import Payload VintedClient OAuth.
Section WithPlatform.
Context {platform : Platform}.

(** The errors after which the token request is not repeated. *)
Definition aborts (message : string) : bool :=
  Js.includes (Js.toLowerCase message) "blockiert" || isInvalidGrantError message.

Definition stops (answer : Result json VintedError) : bool :=
  match answer with
  | ok _ => true
  | err message => aborts message
  end.

(** What a run of the attempts, the first being request number [k],
    amounts to: the number [n] of requests and the outcome [out]. *)
Record RunFacts (world : World) (request : FetchJsonInput) (k retries : nat)
    (out : option json * option string) (n : nat) : Prop := {
  count_bounds : (1 <= n <= S retries)%nat;
  earlier_failed :
    forall j, (S j < n)%nat -> exists message,
      world (k + j)%nat request = err message /\ aborts message = false;
  early_stop : (n < S retries)%nat -> stops (world (k + (n - 1))%nat request) = true;
  last_error : forall message, world (k + (n - 1))%nat request = err message ->
                               out = (None, Some message);
  last_value : forall value, world (k + (n - 1))%nat request = ok value -> out.1 = Some value;
}.

Lemma attempts_run retries input lastErrorMessage world trace :
  exists n,
    (attempts retries input lastErrorMessage world trace).2
      = (trace ++ repeat (FetchJson (tokenRequest input)) n)%list
    /\ RunFacts world (tokenRequest input) (fetchCount trace) retries
         (attempts retries input lastErrorMessage world trace).1 n.
Proof.
  assert (Hk : forall k, (k + (1 - 1) = k)%nat) by (intros; lia).
  revert lastErrorMessage trace.
  induction retries as [|retries IH]; intros lastErrorMessage trace.
  - exists 1%nat. cbn [attempts]. unfold bind, fetchJson.
    destruct (world (fetchCount trace) (tokenRequest input)) as [value|message] eqn:Hw.
    + split; [reflexivity|]. split; cbn [fst snd]; rewrite ?Hk.
      * lia.
      * intros j Hj. lia.
      * intros Hn. lia.
      * intros m Hm. unfold ret. cbn [fst snd]. congruence.
      * intros v Hv0. unfold ret. cbn [fst snd]. congruence.
    + assert (Hout : forall b : bool,
                (if b then ret (@None json, Some message) else ret (None, Some message))
                = ret (None, Some message)) by (now intros []).
      rewrite Hout. split; [reflexivity|]. split; cbn [fst snd]; rewrite ?Hk.
      * lia.
      * intros j Hj. lia.
      * intros Hn. lia.
      * intros m. rewrite Hw. now intros [= <-].
      * intros v Hv0. unfold ret. cbn [fst snd]. congruence.
  - cbn [attempts]. unfold bind, fetchJson.
    destruct (world (fetchCount trace) (tokenRequest input)) as [value|message] eqn:Hw.
    + exists 1%nat. split; [reflexivity|].
      split; cbn [fst snd]; rewrite ?Hk.
      * lia.
      * intros j Hj. lia.
      * intros _. now rewrite Hw.
      * intros m Hm. unfold ret. cbn [fst snd]. congruence.
      * intros v Hv0. unfold ret. cbn [fst snd]. congruence.
    + fold (aborts message). destruct (aborts message) eqn:Ha.
      * exists 1%nat. split; [reflexivity|].
        split; cbn [fst snd]; rewrite ?Hk.
        -- lia.
        -- intros j Hj. lia.
        -- intros _. rewrite Hw. exact Ha.
        -- intros m. rewrite Hw. now intros [= <-].
        -- intros v Hv0. unfold ret. cbn [fst snd]. congruence.
      * destruct (IH (Some message) (trace ++ [FetchJson (tokenRequest input)])%list)
          as (n & Htrace & Hfacts).
        rewrite ClientFacts.fetchCount_fetch in Hfacts.
        exists (S n). split.
        -- rewrite Htrace, <- app_assoc. reflexivity.
        -- destruct Hfacts as [Hb He Hs Hl Hv].
           assert (Hidx : (fetchCount trace + (S n - 1) = S (fetchCount trace) + (n - 1))%nat)
             by lia.
           split; rewrite ?Hidx.
           ++ lia.
           ++ intros [|j] Hj.
              ** exists message. rewrite Nat.add_0_r. auto.
              ** destruct (He j) as (m & Hm & Hma); [lia|].
                 exists m. split; [|exact Hma]. rewrite <- Hm. f_equal. lia.
           ++ intros Hn. apply Hs. lia.
           ++ exact Hl.
           ++ exact Hv.
Qed.

(** X18. The token is requested with one to three identical requests
    of the OAuth profile: a POST to the token endpoint of the region
    that carries the refresh token and no headers of the caller.  A
    request is repeated only after an error that is neither a block
    nor an invalid grant, so after such an error, or after a success,
    no further request is made; after three plain errors the run ends.
    A failed run returns the message of the last answer.  A token is
    only returned from an answer that holds it.  The errors that end
    the run at once are those that the token service takes as a block
    or as an invalid grant. *)
Theorem token_request_retries (input : RefreshInput) (world : World) :
  let request := tokenRequest input in
  let run := refresh input world [] in
  requestProfile request = oauth_token /\ headers request = [] /\ method request = "POST"
  /\ url request = baseUrlForRegion (region input) +:+ "/oauth/token"
  /\ (forall message,
        aborts message
        = TokenService.isBlockedError message || TokenService.isInvalidGrantError message)
  /\ exists n,
       (1 <= n <= 3)%nat
       /\ run.2 = repeat (FetchJson request) n
       /\ (forall j, (S j < n)%nat ->
             exists message, world j request = err message /\ aborts message = false)
       /\ ((n < 3)%nat -> stops (world (n - 1)%nat request) = true)
       /\ (forall message, world (n - 1)%nat request = err message -> run.1 = err message)
       /\ (forall token, run.1 = ok token ->
             exists payload,
               world (n - 1)%nat request = ok payload
               /\ extractErrorsPayloadMessage payload = None
               /\ Json.get (Some payload) "access_token" = Some (JStr (accessToken token))
               /\ Json.get (Some payload) "refresh_token"
                  = Some (JStr (newRefreshToken token))).
Proof.
  intros request run. do 5 (split; [reflexivity|]).
  destruct (attempts_run 2 input None world []) as (n & Htrace & [Hb He Hs Hl Hv]).
  change (fetchCount []) with O in *. cbn [Nat.add] in *.
  exists n. split; [exact Hb|].
  subst run. unfold refresh, bind.
  destruct (attempts 2 input None world []) as [[res lastErrorMessage] trace] eqn:Hrun.
  cbn [fst snd] in *. subst trace. cbv zeta.
  assert (Hsame : forall (r : Result VintedTokenResponse VintedError),
            (ret r world (repeat (FetchJson (tokenRequest input)) n)).2
            = repeat (FetchJson request) n) by reflexivity.
  split; [|split; [exact He|split; [exact Hs|split]]].
  - destruct res as [value|]; [|reflexivity].
    destruct (Checkout.truthy (Some value)); [|reflexivity].
    destruct (extractErrorsPayloadMessage value); [reflexivity|].
    destruct (asString (Json.get (Some value) "access_token")),
      (asString (Json.get (Some value) "refresh_token")),
      (asNumber (Json.get (Some value) "expires_in")),
      (asNumber (Json.get (Some value) "created_at")); reflexivity.
  - intros message Hm. specialize (Hl message Hm). injection Hl as -> ->. reflexivity.
  - intros token.
    destruct (world (n - 1)%nat request) as [payload|message] eqn:Hw.
    + specialize (Hv payload Hw). subst res.
      destruct (Checkout.truthy (Some payload)); [|discriminate].
      destruct (extractErrorsPayloadMessage payload) eqn:Hp; [discriminate|].
      destruct (asString (Json.get (Some payload) "access_token")) as [a|] eqn:Ha;
        [|discriminate].
      destruct (asString (Json.get (Some payload) "refresh_token")) as [r|] eqn:Hr;
        [|discriminate].
      destruct (asNumber (Json.get (Some payload) "expires_in")),
        (asNumber (Json.get (Some payload) "created_at")); try discriminate.
      intros [= <-]. exists payload. cbn [accessToken newRefreshToken].
      split; [reflexivity|]. split; [exact Hp|].
      unfold asString in Ha, Hr.
      destruct (Json.get (Some payload) "access_token") as [[]|]; try discriminate.
      destruct (Json.get (Some payload) "refresh_token") as [[]|]; try discriminate.
      injection Ha as ->. injection Hr as ->. auto.
    + specialize (Hl message Hw). injection Hl as -> ->. discriminate.
Qed.

End WithPlatform.

Definition refreshOfUserA : RefreshInput :=
  {| region := Regions.de; refreshToken := "refresh"; sessionKey := Some "user-a" |}.

(** A server error, then the blocked message. *)
Definition failsThenBlocks : World :=
  fun n _ =>
    match n with
    | O => err "Vinted request failed (500). Internal server error"
    | _ => err TokenService.blockedError
    end.

Lemma token_request_retries_witness :
  (refresh (platform := PayloadFacts.examplePlatform) refreshOfUserA failsThenBlocks []).1
    = err TokenService.blockedError
  /\ exists n,
       (1 <= n <= 3)%nat
       /\ (refresh (platform := PayloadFacts.examplePlatform) refreshOfUserA failsThenBlocks []).2
          = repeat (FetchJson (tokenRequest refreshOfUserA)) n.
Proof.
  split; [vm_compute; reflexivity|].
  destruct (token_request_retries (platform := PayloadFacts.examplePlatform)
              refreshOfUserA failsThenBlocks)
    as (_ & _ & _ & _ & _ & n & Hn & Htrace & _).
  exists n. split; assumption.
Defined.

End OAuthFacts.

(** ** vinted-client.ts: combined Set-Cookie headers *)

Module SetCookieFacts.
Import SetCookie TextFacts CookieFacts.

Lemma append_assoc (a b c : string) : (a +:+ b) +:+ c = a +:+ (b +:+ c).
Proof. induction a as [|x a IH]; [reflexivity|]. rewrite !app_cons. now rewrite IH. Qed.

Lemma append_empty_r (a : string) : a +:+ EmptyString = a.
Proof. induction a as [|x a IH]; [reflexivity|]. rewrite app_cons. now rewrite IH. Qed.

Lemma snoc_app current c rest : snoc current c +:+ rest = current +:+ String c rest.
Proof. unfold snoc. now rewrite append_assoc. Qed.

(** A part of the result is not empty and has no white space at its
    ends. *)
Definition trimmedPart (part : string) : Prop :=
  part <> EmptyString /\ Js.trim part = part.

Lemma pushPart_trimmed slice result :
  Forall trimmedPart result -> Forall trimmedPart (pushPart slice result).
Proof.
  intros H. unfold pushPart. destruct (Js.trim slice) as [|c r] eqn:Ht; [exact H|].
  constructor; [|exact H]. split; [discriminate|]. rewrite <- Ht. apply trim_idem.
Qed.

Lemma splitFrom_trimmed rest inExpires skip current :
  Forall trimmedPart (splitFrom rest inExpires skip current).
Proof.
  revert inExpires skip current.
  induction rest as [|c r IH]; intros inExpires skip current.
  - apply pushPart_trimmed. constructor.
  - cbn [splitFrom]. destruct skip; [|apply IH].
    destruct (negb inExpires && expiresAt (String c r)); [apply IH|].
    destruct (inExpires && Ascii.eqb c ";"%char); [apply IH|].
    destruct (negb inExpires && Ascii.eqb c ","%char); [|apply IH].
    apply pushPart_trimmed, IH.
Qed.

(** The text [expires=] starts nowhere in the string, in any case of
    letters; and nowhere in its first [n] places. *)
Fixpoint noExpires (s : string) : bool :=
  negb (expiresAt s) &&
  match s with
  | EmptyString => true
  | String _ r => noExpires r
  end.

Fixpoint noExpiresBefore (n : nat) (s : string) : bool :=
  match n with
  | O => true
  | S k =>
      negb (expiresAt s) &&
      match s with
      | EmptyString => true
      | String _ r => noExpiresBefore k r
      end
  end.

(** The parts of a split at every comma. *)
Definition commaParts (s : string) : list string :=
  fold_right pushPart [] (Js.splitOn ","%char s).

Lemma plain_split s current :
  noExpires s = true ->
  splitFrom s false 0 current =
    match Js.splitOn ","%char s with
    | first :: others => pushPart (current +:+ first) (fold_right pushPart [] others)
    | [] => pushPart current []
    end.
Proof.
  revert current. induction s as [|c r IH]; intros current Hn.
  - simpl. now rewrite append_empty_r.
  - cbn [noExpires] in Hn. apply andb_true_iff in Hn as [He Hr].
    apply negb_true_iff in He. cbn [splitFrom]. rewrite He. cbn [negb andb].
    cbn [Js.splitOn]. destruct (Ascii.eqb c ","%char).
    + rewrite (IH EmptyString Hr), append_empty_r.
      destruct (Js.splitOn ","%char r) as [|first others]; [reflexivity|].
      rewrite app_empty. reflexivity.
    + rewrite (IH (snoc current c) Hr).
      destruct (Js.splitOn ","%char r) as [|first others] eqn:Hs.
      * now apply splitOn_nonempty in Hs.
      * now rewrite snoc_app.
Qed.

Lemma skipped x rest inExpires current :
  splitFrom (x +:+ rest) inExpires (String.length x) current
  = splitFrom rest inExpires 0 (current +:+ x).
Proof.
  revert current. induction x as [|c x IH]; intros current.
  - now rewrite app_empty, append_empty_r.
  - rewrite app_cons. cbn [String.length splitFrom]. rewrite IH. now rewrite snoc_app.
Qed.

Lemma before_expires a rest current :
  noChar ","%char a = true -> noExpiresBefore (String.length a) (a +:+ rest) = true ->
  splitFrom (a +:+ rest) false 0 current = splitFrom rest false 0 (current +:+ a).
Proof.
  unfold noChar. revert current. induction a as [|c a IH]; intros current Hc Hn.
  - now rewrite app_empty, append_empty_r.
  - simpl in Hc. apply andb_true_iff in Hc as [Hc Ha].
    rewrite app_cons in *. cbn [String.length noExpiresBefore] in Hn.
    apply andb_true_iff in Hn as [He Hn]. apply negb_true_iff in He.
    cbn [splitFrom]. rewrite He. cbn [negb andb].
    apply negb_true_iff in Hc. rewrite Hc.
    rewrite (IH _ Ha Hn). now rewrite snoc_app.
Qed.

Lemma toLowerCase_length s : String.length (Js.toLowerCase s) = String.length s.
Proof. induction s as [|c s IH]; simpl; [reflexivity|]. now rewrite IH. Qed.

Lemma at_expires e rest current :
  Js.toLowerCase e = "expires=" ->
  splitFrom (e +:+ rest) false 0 current = splitFrom rest true 0 (current +:+ e).
Proof.
  intros He.
  assert (Hlen : String.length e = 8%nat) by (rewrite <- toLowerCase_length, He; reflexivity).
  destruct e as [|c x]; [discriminate|].
  assert (Hx : String.length x = 7%nat) by (simpl in Hlen; lia).
  assert (Hat : expiresAt (String c x +:+ rest) = true).
  { unfold expiresAt. rewrite <- Hlen, take_app, He. reflexivity. }
  rewrite app_cons in *. cbn [splitFrom]. rewrite Hat. cbn [negb andb].
  rewrite <- Hx, skipped. now rewrite snoc_app.
Qed.

Lemma inside_expires d rest current :
  noChar ";"%char d = true ->
  splitFrom (d +:+ rest) true 0 current = splitFrom rest true 0 (current +:+ d).
Proof.
  unfold noChar. revert current. induction d as [|c d IH]; intros current Hd.
  - now rewrite app_empty, append_empty_r.
  - simpl in Hd. apply andb_true_iff in Hd as [Hc Hd]. apply negb_true_iff in Hc.
    rewrite app_cons. cbn [splitFrom negb andb]. rewrite Hc.
    rewrite (IH _ Hd). now rewrite snoc_app.
Qed.

Lemma without_comma b inExpires skip current :
  noChar ","%char b = true ->
  splitFrom b inExpires skip current = pushPart (current +:+ b) [].
Proof.
  unfold noChar. revert inExpires skip current.
  induction b as [|c b IH]; intros inExpires skip current Hb.
  - simpl. now rewrite append_empty_r.
  - simpl in Hb. apply andb_true_iff in Hb as [Hc Hb]. apply negb_true_iff in Hc.
    cbn [splitFrom]. rewrite Hc, andb_false_r.
    destruct skip; [|now rewrite (IH _ _ _ Hb), snoc_app].
    destruct (negb inExpires && expiresAt (String c b));
      [now rewrite (IH _ _ _ Hb), snoc_app|].
    destruct (inExpires && Ascii.eqb c ";"%char); now rewrite (IH _ _ _ Hb), snoc_app.
Qed.

(** The rest of a header after the date of an Expires attribute:
    nothing, or a semicolon and text without a comma. *)
Definition endsCookie (b : string) : Prop :=
  b = EmptyString \/ exists b', b = String ";"%char b' /\ noChar ","%char b' = true.

(** X19. What [splitCombinedSetCookieHeader] does with the commas of
    a combined header.  Every part it returns is trimmed and not
    empty.  A header in which the text expires= occurs nowhere is split
    at every comma.  From the first expires= to the next semicolon no
    comma splits: a header whose commas all lie there comes back as
    one part, and this holds as well when the text after the date
    holds further cookies but no semicolon. *)
Theorem set_cookie_split_at_commas :
  (forall headerValue, Forall trimmedPart (splitCombinedSetCookieHeader headerValue))
  /\ (forall headerValue,
        noExpires headerValue = true ->
        splitCombinedSetCookieHeader headerValue = commaParts headerValue)
  /\ (forall a e d b,
        noChar ","%char a = true ->
        noExpiresBefore (String.length a) (a +:+ e +:+ d +:+ b) = true ->
        Js.toLowerCase e = "expires=" ->
        noChar ";"%char d = true ->
        endsCookie b ->
        splitCombinedSetCookieHeader (a +:+ e +:+ d +:+ b)
        = [Js.trim (a +:+ e +:+ d +:+ b)]).
Proof.
  split; [|split].
  - intros headerValue. apply splitFrom_trimmed.
  - intros headerValue Hn. unfold splitCombinedSetCookieHeader, commaParts.
    rewrite (plain_split _ _ Hn).
    destruct (Js.splitOn ","%char headerValue) as [|first others] eqn:Hs.
    + now apply splitOn_nonempty in Hs.
    + now rewrite app_empty.
  - intros a e d b Ha Hn He Hd Hb. unfold splitCombinedSetCookieHeader.
    rewrite (before_expires _ _ _ Ha Hn), app_empty.
    rewrite (at_expires _ _ _ He), (inside_expires _ _ _ Hd).
    assert (Hone : splitFrom b true 0 ((a +:+ e) +:+ d)
                   = pushPart (((a +:+ e) +:+ d) +:+ b) []).
    { destruct Hb as [->|(b' & -> & Hb')]; [now rewrite append_empty_r|].
      cbn [splitFrom negb andb]. change (Ascii.eqb ";" ";") with true. cbv iota.
      rewrite (without_comma _ _ _ _ Hb'). now rewrite snoc_app. }
    rewrite Hone, !append_assoc. unfold pushPart.
    destruct (Js.trim (a +:+ e +:+ d +:+ b)) as [|c r] eqn:Ht; [|reflexivity].
    exfalso.
    assert (He8 : every notSpace e = true).
    { assert (Hl : every notSpace (Js.toLowerCase e) = true) by (rewrite He; reflexivity).
      clear - Hl. induction e as [|c e IH]; [reflexivity|]. simpl in *.
      apply andb_true_iff in Hl as [Hc Hl]. rewrite (IH Hl), andb_true_r.
      destruct c as [[] [] [] [] [] [] [] []]; try reflexivity; discriminate Hc. }
    assert (Hnonblank : forall x y, Js.trim (x +:+ e +:+ y) <> EmptyString).
    { clear - He He8. intros x y.
      destruct e as [|c e]; [discriminate|]. simpl in He8.
      apply andb_true_iff in He8 as [Hc _].
      assert (Hstart : forall x, exists c' r', Js.trimStart (x +:+ String c e +:+ y) = String c' r').
      { clear - Hc. induction x as [|a x IH].
        - rewrite app_empty, app_cons, (trimStart_notSpace _ _ Hc). eauto.
        - rewrite app_cons. simpl. destruct (Js.isSpace a); [exact IH|eauto]. }
      assert (Hend : forall s, every (fun a => Js.isSpace a) s = false ->
                               Js.trimEnd s <> EmptyString).
      { clear. induction s as [|a s IH]; simpl; [discriminate|].
        intros Hs. destruct (Js.trimEnd s) eqn:Hts; [|discriminate].
        destruct (Js.isSpace a) eqn:Hsp; [|discriminate].
        simpl in Hs. now apply IH in Hs. }
      unfold Js.trim. apply Hend.
      assert (Hsuffix : forall x', every (fun a => Js.isSpace a)
                                     (Js.trimStart (x' +:+ String c e +:+ y)) = false).
      { clear - Hc. intros x'. induction x' as [|a x' IH].
        - rewrite app_empty, app_cons, (trimStart_notSpace _ _ Hc). simpl.
          unfold notSpace in Hc. apply negb_true_iff in Hc. now rewrite Hc.
        - rewrite app_cons. simpl. destruct (Js.isSpace a) eqn:Hsp; [exact IH|].
          simpl. now rewrite Hsp. }
      apply Hsuffix. }
    apply (Hnonblank a (d +:+ b)). exact Ht.
Qed.

Definition whenItExpires : string := "Thu, 22 Oct 2026 07:28:00 GMT, c=3".

Lemma set_cookie_split_at_commas_witness :
  splitCombinedSetCookieHeader ("b=2; " +:+ "Expires=" +:+ whenItExpires +:+ EmptyString)
  = [Js.trim ("b=2; " +:+ "Expires=" +:+ whenItExpires +:+ EmptyString)].
Proof.
  destruct set_cookie_split_at_commas as (_ & _ & Hone).
  apply Hone; try (vm_compute; reflexivity). now left.
Defined.

End SetCookieFacts.

(** ** vinted-actions-service.ts: the challenge URL of a message *)

Module ChallengeFacts.
Import ActionsService TextFacts CookieFacts.

Lemma take_drop n s : Js.take n s +:+ Js.drop n s = s.
Proof.
  revert s. induction n as [|n IH]; intros [|c s]; try reflexivity.
  simpl. rewrite ?app_cons. now rewrite IH.
Qed.

Lemma urlRun_prefix s : exists post, s = urlRun s +:+ post.
Proof.
  induction s as [|c s IH]; simpl; [now exists EmptyString|].
  destruct (isUrlChar c); [|now exists (String c s)].
  destruct IH as (post & Hpost). exists post. rewrite ?app_cons. now rewrite <- Hpost.
Qed.

Lemma urlRun_chars s : every isUrlChar (urlRun s) = true.
Proof.
  induction s as [|c s IH]; simpl; [reflexivity|].
  destruct (isUrlChar c) eqn:Hc; [|reflexivity]. simpl. now rewrite Hc.
Qed.

Lemma isUrlChar_lower c : isUrlChar (Js.lowerChar c) = true -> isUrlChar c = true.
Proof. destruct c as [[] [] [] [] [] [] [] []]; vm_compute; intros H; exact H. Qed.

Lemma every_lower s :
  every isUrlChar (Js.toLowerCase s) = true -> every isUrlChar s = true.
Proof.
  induction s as [|c s IH]; simpl; [reflexivity|].
  rewrite !andb_true_iff. intros [Hc Hs]. split; [now apply isUrlChar_lower|auto].
Qed.

Lemma isUrlChar_notSpace c : isUrlChar c = true -> notSpace c = true.
Proof.
  unfold isUrlChar, notSpace. destruct (Js.isSpace c); [discriminate|reflexivity].
Qed.

Lemma toLowerCase_app a b : Js.toLowerCase (a +:+ b) = Js.toLowerCase a +:+ Js.toLowerCase b.
Proof. induction a as [|c a IH]; [reflexivity|]. rewrite ?app_cons. simpl. now rewrite IH. Qed.

Lemma includes_app_r a b needle :
  Js.includes b needle = true -> Js.includes (a +:+ b) needle = true.
Proof.
  intros H. induction a as [|c a IH]; [exact H|].
  rewrite ?app_cons. simpl. rewrite IH. apply orb_true_r.
Qed.

Lemma startsWith_app p s rest :
  Js.startsWith p s = true -> Js.startsWith p (s +:+ rest) = true.
Proof.
  revert s. induction p as [|a p IH]; intros [|b s]; simpl; try reflexivity; try discriminate.
  rewrite !andb_true_iff. intros [Hab Hp]. rewrite ?app_cons. simpl.
  rewrite Hab. split; [reflexivity|]. now apply IH.
Qed.

Lemma includes_app_l a b needle :
  Js.includes a needle = true -> Js.includes (a +:+ b) needle = true.
Proof.
  induction a as [|c a IH].
  - simpl. rewrite orb_false_r. intros H.
    destruct needle; [now destruct b|discriminate H].
  - rewrite app_cons. cbn [Js.includes]. rewrite !orb_true_iff. intros [H|H].
    + left. now apply (startsWith_app needle (String c a) b).
    + right. now apply IH.
Qed.

Lemma startsWith_eq p s :
  Js.startsWith p s = true -> String.length s = String.length p -> s = p.
Proof.
  revert s. induction p as [|a p IH]; intros [|b s]; simpl; try reflexivity; try discriminate.
  rewrite andb_true_iff. intros [Hab Hp] Hlen.
  apply Ascii.eqb_eq in Hab. subst. f_equal. apply IH; [exact Hp|lia].
Qed.

Lemma take_length n s : (n <= String.length s)%nat -> String.length (Js.take n s) = n.
Proof.
  revert s. induction n as [|n IH]; intros [|c s]; simpl; try reflexivity; try lia.
  intros H. rewrite IH; lia.
Qed.

Lemma take_take n m s : (n <= m)%nat -> Js.take n (Js.take m s) = Js.take n s.
Proof.
  revert m s. induction n as [|n IH]; intros [|m] [|c s] H; simpl; try reflexivity; try lia.
  rewrite IH; [reflexivity|lia].
Qed.

Lemma startsWith_length p s :
  Js.startsWith p s = true -> (String.length p <= String.length s)%nat.
Proof.
  revert s. induction p as [|a p IH]; intros [|b s]; simpl; try lia; try discriminate.
  rewrite andb_true_iff. intros [_ Hp]. apply IH in Hp. lia.
Qed.

Lemma startsWith_take p s :
  Js.startsWith p s = true -> Js.startsWith p (Js.take (String.length p) s) = true.
Proof.
  revert s. induction p as [|a p IH]; intros [|b s]; simpl; try reflexivity; try discriminate.
  rewrite !andb_true_iff. intros [Hab Hp]. auto.
Qed.

Lemma take_lower n s : Js.take n (Js.toLowerCase s) = Js.toLowerCase (Js.take n s).
Proof.
  revert s. induction n as [|n IH]; intros [|c s]; simpl; try reflexivity. now rewrite IH.
Qed.

(** The scheme of a match: the first [n] characters are [scheme] up
    to the case of letters. *)
Lemma scheme_chars scheme n s :
  n = String.length scheme ->
  every isUrlChar scheme = true ->
  Js.startsWith scheme (Js.toLowerCase (Js.take 8 s)) = true -> (n <= 8)%nat ->
  Js.toLowerCase (Js.take n s) = scheme /\ every isUrlChar (Js.take n s) = true.
Proof.
  intros -> Hchars Hstart Hn.
  assert (Hlow : Js.toLowerCase (Js.take (String.length scheme) s) = scheme).
  { apply startsWith_eq.
    - rewrite <- (take_take _ 8) by assumption. rewrite <- take_lower.
      now apply startsWith_take.
    - rewrite CookieFacts.app_empty || idtac.
      rewrite SetCookieFacts.toLowerCase_length. apply take_length.
      apply startsWith_length in Hstart.
      rewrite SetCookieFacts.toLowerCase_length in Hstart.
      assert (String.length (Js.take 8 s) <= String.length s)%nat.
      { clear. generalize 8%nat. intros n. revert s.
        induction n as [|n IH]; intros [|c s]; simpl; try lia. specialize (IH s). lia. }
      lia. }
  split; [exact Hlow|]. apply every_lower. now rewrite Hlow.
Qed.

Lemma challengeUrlAt_facts s url :
  challengeUrlAt s = Some url ->
  (exists post, s = url +:+ post)
  /\ every isUrlChar url = true
  /\ (Js.startsWith "https://" (Js.toLowerCase url) = true
      \/ Js.startsWith "http://" (Js.toLowerCase url) = true)
  /\ Js.includes (Js.toLowerCase url) "captcha-delivery.com/captcha/" = true.
Proof.
  unfold challengeUrlAt. cbv zeta.
  assert (Hgen : forall scheme n,
            n = String.length scheme -> (n <= 8)%nat -> every isUrlChar scheme = true ->
            Js.startsWith scheme (Js.toLowerCase (Js.take 8 s)) = true ->
            (if Js.includes (Js.toLowerCase (urlRun (Js.drop n s)))
                  "captcha-delivery.com/captcha/"
             then Some (Js.take n s +:+ urlRun (Js.drop n s)) else None) = Some url ->
            (exists post, s = url +:+ post)
            /\ every isUrlChar url = true
            /\ Js.startsWith scheme (Js.toLowerCase url) = true
            /\ Js.includes (Js.toLowerCase url) "captcha-delivery.com/captcha/" = true).
  { intros scheme n Hn Hle Hchars Hstart.
    destruct (Js.includes _ _) eqn:Hinc; [|discriminate]. intros [= <-].
    destruct (scheme_chars scheme n s Hn Hchars Hstart Hle) as [Hlow Hurl].
    split; [|split; [|split]].
    - destruct (urlRun_prefix (Js.drop n s)) as (post & Hpost). exists post.
      rewrite SetCookieFacts.append_assoc, <- Hpost. symmetry. apply take_drop.
    - now rewrite every_app, Hurl, urlRun_chars.
    - rewrite toLowerCase_app, Hlow. clear. induction scheme as [|c p IH]; [reflexivity|].
      rewrite ?app_cons. simpl. now rewrite Ascii.eqb_refl, IH.
    - rewrite toLowerCase_app. now apply includes_app_r. }
  destruct (Js.startsWith "https://" (Js.toLowerCase (Js.take 8 s))) eqn:H8.
  - intros H. destruct (Hgen "https://" 8%nat eq_refl (le_n _) eq_refl H8 H) as (? & ? & ? & ?).
    auto.
  - destruct (Js.startsWith "http://" (Js.toLowerCase (Js.take 8 s))) eqn:H7; [|discriminate].
    intros H. destruct (Hgen "http://" 7%nat eq_refl (le_S _ _ (le_n _)) eq_refl H7 H)
      as (? & ? & ? & ?).
    auto.
Qed.

Lemma firstChallengeUrl_facts s url :
  firstChallengeUrl s = Some url ->
  exists pre tail, s = pre +:+ tail /\ challengeUrlAt tail = Some url.
Proof.
  induction s as [|c s IH].
  - vm_compute. discriminate.
  - cbn [firstChallengeUrl]. destruct (challengeUrlAt (String c s)) eqn:H.
    + intros [= <-]. now exists EmptyString, (String c s).
    + intros Hs. destruct (IH Hs) as (pre & tail & -> & Ht).
      now exists (String c pre), tail.
Qed.

Lemma includes_tail s needle :
  Js.includes s needle = false ->
  forall pre tail, s = pre +:+ tail -> Js.includes tail needle = false.
Proof.
  intros H pre tail ->. destruct (Js.includes tail needle) eqn:Ht; [|reflexivity].
  now rewrite (includes_app_r pre _ _ Ht) in H.
Qed.

(** X20. A challenge URL that the service reads from an error message
    is a piece of the message (with escaped slashes undone) that
    starts with http:// or https://, holds the captcha host and path,
    and holds no white space, no quote and no angle bracket, so it is
    never empty and trimming leaves it as it is.  A message that does
    not hold the captcha host and path, in any case of letters, yields
    no URL. *)
Theorem challenge_url_shape (message : string) :
  (forall url,
     extractCaptchaChallengeUrl message = Some url ->
     url <> EmptyString
     /\ every isUrlChar url = true
     /\ (Js.startsWith "https://" (Js.toLowerCase url) = true
         \/ Js.startsWith "http://" (Js.toLowerCase url) = true)
     /\ Js.includes (Js.toLowerCase url) "captcha-delivery.com/captcha/" = true
     /\ exists pre post, unescapeSlashes message = pre +:+ url +:+ post)
  /\ (Js.includes (Js.toLowerCase (unescapeSlashes message)) "captcha-delivery.com/captcha/"
      = false ->
      extractCaptchaChallengeUrl message = None).
Proof.
  split.
  - intros url. unfold extractCaptchaChallengeUrl.
    destruct (firstChallengeUrl (unescapeSlashes message)) as [found|] eqn:Hf; [|discriminate].
    destruct (firstChallengeUrl_facts _ _ Hf) as (pre & tail & Hs & Hat).
    destruct (challengeUrlAt_facts _ _ Hat) as ((post & Hpost) & Hchars & Hscheme & Hhost).
    assert (Htrim : Js.trim found = found).
    { apply trim_notSpace. apply (every_impl isUrlChar); [exact isUrlChar_notSpace|exact Hchars]. }
    simpl. rewrite Htrim. intros [= <-].
    split; [|split; [exact Hchars|split; [exact Hscheme|split; [exact Hhost|]]]].
    + intros ->. discriminate Hhost.
    + exists pre, post. now rewrite Hs, Hpost.
  - intros Hnone. unfold extractCaptchaChallengeUrl.
    destruct (firstChallengeUrl (unescapeSlashes message)) as [found|] eqn:Hf; [|reflexivity].
    exfalso.
    destruct (firstChallengeUrl_facts _ _ Hf) as (pre & tail & Hs & Hat).
    destruct (challengeUrlAt_facts _ _ Hat) as ((post & Hpost) & _ & _ & Hhost).
    rewrite Hs, Hpost, !toLowerCase_app in Hnone.
    pose proof (includes_app_l _ (Js.toLowerCase post) _ Hhost) as Hin.
    now rewrite (includes_app_r _ _ _ Hin) in Hnone.
Qed.

Definition challengeMessage : string :=
  "Vinted request failed (403). {" +:+ Js.dq +:+ "url" +:+ Js.dq +:+ ":" +:+ Js.dq +:+
  "https:\/\/geo.captcha-delivery.com\/captcha\/?cid=1" +:+ Js.dq +:+ "}".

Lemma challenge_url_shape_witness :
  extractCaptchaChallengeUrl challengeMessage
    = Some "https://geo.captcha-delivery.com/captcha/?cid=1"
  /\ every isUrlChar "https://geo.captcha-delivery.com/captcha/?cid=1" = true.
Proof.
  assert (H : extractCaptchaChallengeUrl challengeMessage
              = Some "https://geo.captcha-delivery.com/captcha/?cid=1")
    by (vm_compute; reflexivity).
  split; [exact H|].
  destruct (challenge_url_shape challengeMessage) as [Hshape _].
  now destruct (Hshape _ H) as (_ & Hchars & _).
Defined.

End ChallengeFacts.

(** ** vinted-client.ts: how many requests an action makes *)

Module BudgetFacts.
Import Payload VintedClient.
Section WithPlatform.
Context {platform : Platform}.

Definition buildUrl (input : ActionInput) : string :=
  baseUrlForRegion (region input) +:+ "/api/v2/purchases/checkout/build".

Definition buildBody (input : ActionInput) (pickupPoint : option string) : json :=
  JObj (("purchase_items",
         JArr [JObj [("id", JNum (inject_Z (itemId input))); ("type", JStr "transaction")]])
        :: match pickupPoint with
           | Some p => [("pickup_point", JStr p)]
           | None => []
           end).

Definition buildRequest (input : ActionInput) (pickupPoint : option string)
    (includeAuthorization : bool) : FetchJsonInput :=
  ClientFacts.actionRequest input (buildUrl input) "POST" (buildBody input pickupPoint)
    includeAuthorization.


Definition isBuild (input : ActionInput) (pickupPoint : option string) (e : Event) : Prop :=
  exists includeAuthorization, e = FetchJson (buildRequest input pickupPoint includeAuthorization).

(** The requests of a trace, in order. *)
Fixpoint requests (trace : list Event) : list FetchJsonInput :=
  match trace with
  | [] => []
  | FetchJson request :: rest => request :: requests rest
  | _ :: rest => requests rest
  end.


Lemma requests_length trace : length (requests trace) = fetchCount trace.
Proof.
  induction trace as [|e trace IH]; [reflexivity|].
  destruct e; unfold fetchCount in *; simpl; now rewrite ?IH.
Qed.










End WithPlatform.
End BudgetFacts.

(** ** Operations that read the answer without a guard *)

Module UnguardedFacts.
Import Payload Unguarded VintedClient.
Section WithPlatform.
Context {platform : Platform}.

Definition conversationUrl (input : ActionInput) : string :=
  baseUrlForRegion (region input) +:+ "/api/v2/conversations".

Definition conversationBody (input : ActionInput) (sellerUserId : Q) : json :=
  JObj [("initiator", JStr "buyer_enters_offer_form");
        ("item_id", JNum (inject_Z (itemId input)));
        ("opposite_user_id", JNum sellerUserId)].

(** The answer that counts for the conversation request. *)
Definition conversationAnswer (world : World) (input : ActionInput) (sellerUserId : Q)
  : Result json VintedError :=
  ClientFacts.finalAnswer world 0 input (conversationUrl input) "POST"
    (conversationBody input sellerUserId).

Definition conversationEvents (world : World) (input : ActionInput) (sellerUserId : Q)
  : list Event :=
  WarmupHostSession (baseUrlForRegion (region input)) (sessionKey input)
  :: ClientFacts.attemptEvents world 0 input (conversationUrl input) "POST"
       (conversationBody input sellerUserId).

(** The places of the answer that may hold the transaction id, in the
    order in which they are read. *)
Definition transactionIdCandidates (payload : json) : list (option Z) :=
  let p := Some payload in
  [ parseBigintCandidate (Json.get (Json.get (Json.get p "conversation") "transaction") "id");
    parseBigintCandidate (Json.get (Json.get p "conversation") "transaction_id");
    parseBigintCandidate (Json.get (Json.get p "transaction") "id");
    parseBigintCandidate (Json.get p "transaction_id");
    parseBigintCandidate (Json.get p "transactionId") ].

Definition firstCandidate (payload : json) : option Z :=
  Json.firstSome (fun candidate => candidate) (transactionIdCandidates payload).

Definition missingMessage : string := "Conversation response missing transaction id".

Definition missingId : Outcome (Result Transaction VintedError) :=
  Returns (err "Conversation created but transaction id missing.").


Lemma get_objectField value key key' :
  Json.get (objectField value key) key' = Json.get (Json.get value key) key'.
Proof.
  unfold objectField.
  destruct value as [[| b | q | | s | items | fields]|]; simpl; try reflexivity.
  - now destruct b.
  - now destruct (Json.isZero q).
  - now destruct (Js.isEmpty s).
  - now destruct (Json.assoc key fields) as [[]|].
Qed.

Lemma createConversationTransaction_run input sellerUserId world :
  createConversationTransaction input sellerUserId world [] =
    match conversationAnswer world input sellerUserId with
    | err e => (Returns (err e), conversationEvents world input sellerUserId)
    | ok payload =>
        match extractErrorsPayloadMessage payload with
        | Some payloadError =>
            (Returns (err payloadError), conversationEvents world input sellerUserId)
        | None =>
            match payload with
            | JNull => (Throws typeError, conversationEvents world input sellerUserId)
            | _ =>
                match firstCandidate payload with
                | Some id =>
                    if id =? 0
                    then (missingId,
                          (conversationEvents world input sellerUserId
                             ++ [LogInfo missingMessage])%list)
                    else (Returns (ok {| transactionId := id |}),
                          conversationEvents world input sellerUserId)
                | None =>
                    (missingId,
                     (conversationEvents world input sellerUserId
                        ++ [LogInfo missingMessage])%list)
                end
            end
        end
    end.
Proof.
  unfold createConversationTransaction, conversationAnswer, conversationEvents.
  unfold bind at 1. unfold warmupHostSession at 1. cbn [app].
  unfold bind at 1.
  rewrite ClientFacts.fetchWithAuthorizationRetry_run.
  change (fetchCount [WarmupHostSession (baseUrlForRegion (region input)) (sessionKey input)])
    with 0%nat.
  fold (conversationUrl input). fold (conversationBody input sellerUserId).
  cbn [app].
  destruct (ClientFacts.finalAnswer world 0 input (conversationUrl input) "POST"
              (conversationBody input sellerUserId)) as [payload|e]; [|reflexivity].
  destruct (extractErrorsPayloadMessage payload) as [payloadError|] eqn:Herrors; [reflexivity|].
  rewrite !get_objectField.
  unfold firstCandidate, transactionIdCandidates, Json.firstSome, Json.orElse.
  destruct payload; try reflexivity;
    repeat match goal with
    | |- context [match parseBigintCandidate ?v with _ => _ end] =>
        destruct (parseBigintCandidate v) as [?id|]
    end;
    unfold bind, logInfo, ret, missingId, missingMessage;
    repeat match goal with
    | |- context [?z =? 0] => destruct (z =? 0)
    end; reflexivity.
Qed.




Definition estimateUrl (input : ActionInput) : string :=
  baseUrlForRegion (region input) +:+ "/api/v2/offer/estimate_with_fees".

Definition estimateBody (input : ActionInput) (amount : Q) (currencyCode : string) : json :=
  JObj [("item_id", JStr (Js.decimal (itemId input)));
        ("amount",
         JObj [("amount", JStr (Number_toFixed2 amount));
               ("currency_code", JStr currencyCode)])].

Definition estimateAnswer (world : World) (input : ActionInput) (amount : Q)
    (currencyCode : string) : Result json VintedError :=
  ClientFacts.finalAnswer world 0 input (estimateUrl input) "POST"
    (estimateBody input amount currencyCode).

Definition userRequest (input : GetUserInput) : FetchJsonInput :=
  {| url := baseUrlForRegion (Unguarded.region input) +:+ "/api/v2/users/"
            +:+ Number_toString (userId input);
     method := "GET";
     headers := [("authorization", "Bearer " +:+ Unguarded.accessToken input)];
     body := None; sessionScope := Unguarded.sessionKey input; requestProfile := default |}.

Lemma estimateOfferWithFees_result input amount currencyCode world :
  (estimateOfferWithFees input amount currencyCode world []).1 =
    match estimateAnswer world input amount currencyCode with
    | err e => Returns (err e)
    | ok payload =>
        match extractErrorsPayloadMessage payload with
        | Some payloadError => Returns (err payloadError)
        | None =>
            match payload with
            | JNull => Throws typeError
            | _ =>
                match Json.get (Json.get (Some payload) "total_item_price") "amount" with
                | Some (JStr total) =>
                    Returns (ok {| total := total;
                                   serviceFee :=
                                     asString (Json.get (Json.get (Some payload) "service_fee")
                                                 "amount") |})
                | _ => Returns (err "Unexpected offer estimate response.")
                end
            end
        end
    end.
Proof.
  unfold estimateOfferWithFees, estimateAnswer.
  unfold bind at 1. unfold warmupHostSession at 1. cbn [app].
  unfold bind at 1.
  rewrite ClientFacts.fetchWithAuthorizationRetry_run.
  change (fetchCount [WarmupHostSession (baseUrlForRegion (region input)) (sessionKey input)])
    with 0%nat.
  fold (estimateUrl input). fold (estimateBody input amount currencyCode).
  destruct (ClientFacts.finalAnswer world 0 input (estimateUrl input) "POST"
              (estimateBody input amount currencyCode)) as [payload|e]; [|reflexivity].
  destruct (extractErrorsPayloadMessage payload) as [payloadError|]; [reflexivity|].
  destruct payload; try reflexivity.
  unfold ret.
  destruct (Json.get (Json.get (Some (JObj fields)) "total_item_price") "amount")
    as [[]|]; reflexivity.
Qed.

Lemma getUser_result input world :
  (getUser input world []).1 =
    match world 0%nat (userRequest input) with
    | err e => Returns (err e)
    | ok payload =>
        match extractErrorsPayloadMessage payload with
        | Some payloadError => Returns (err payloadError)
        | None =>
            match payload with
            | JNull => Throws typeError
            | _ =>
                let user := Json.get (Some payload) "user" in
                if Checkout.truthy user && Json.isObjectLike user then
                  Returns (ok
                    {| id := match OAuth.asNumber (Json.get user "id") with
                             | Some n => n
                             | None => OAuth.Finite (userId input)
                             end;
                       login := match asString (Json.get user "login") with
                                | Some s => s
                                | None => Number_toString (userId input)
                                end;
                       feedbackReputation :=
                         OAuth.asNumber (Json.get user "feedback_reputation");
                       feedbackCount := OAuth.asNumber (Json.get user "feedback_count") |})
                else Returns (err "Unexpected user response.")
            end
        end
    end.
Proof.
  unfold getUser, bind, fetchJson. fold (userRequest input).
  change (fetchCount []) with 0%nat.
  destruct (world 0%nat (userRequest input)) as [payload|e]; [|reflexivity].
  destruct (extractErrorsPayloadMessage payload) as [payloadError|]; [reflexivity|].
  destruct payload; try reflexivity.
  cbv zeta.
  destruct (Checkout.truthy (Json.get (Some (JObj fields)) "user")
            && Json.isObjectLike (Json.get (Some (JObj fields)) "user")); reflexivity.
Qed.

Lemma firstCandidate_object payload id :
  firstCandidate payload = Some id -> exists fields, payload = JObj fields.
Proof.
  destruct payload; try discriminate. intros _. now eexists.
Qed.

Ltac by_answer :=
  repeat match goal with
  | |- context [match ?x with _ => _ end] => destruct x eqn:?
  end;
  repeat split; intros;
  repeat match goal with
  | H : exists _, _ |- _ => destruct H
  end;
  simplify_eq; eauto.

(** X23.  [createConversationTransaction], [estimateOfferWithFees] and
    [getUser] throw exactly when the answer that counts is the JSON
    value null, an answer on which the check for an error payload finds
    nothing; and they return a value only when the answer is an
    object. *)
Theorem null_answer_throws (input : ActionInput) (sellerUserId amount : Q)
    (currencyCode : string) (user : GetUserInput) (world : World) :
  let conversation := (createConversationTransaction input sellerUserId world []).1 in
  let estimate := (estimateOfferWithFees input amount currencyCode world []).1 in
  let found := (getUser user world []).1 in
  (((exists error, conversation = Throws error)
    <-> conversationAnswer world input sellerUserId = ok JNull)
   /\ (forall transaction, conversation = Returns (ok transaction) ->
       exists fields, conversationAnswer world input sellerUserId = ok (JObj fields)))
  /\ (((exists error, estimate = Throws error)
       <-> estimateAnswer world input amount currencyCode = ok JNull)
      /\ (forall value, estimate = Returns (ok value) ->
          exists fields, estimateAnswer world input amount currencyCode = ok (JObj fields)))
  /\ (((exists error, found = Throws error) <-> world 0%nat (userRequest user) = ok JNull)
      /\ (forall value, found = Returns (ok value) ->
          exists fields, world 0%nat (userRequest user) = ok (JObj fields)))
  /\ extractErrorsPayloadMessage JNull = None.
Proof.
  intros conversation estimate found. subst conversation estimate found.
  rewrite createConversationTransaction_run, estimateOfferWithFees_result, getUser_result.
  split; [|split; [|split; [|reflexivity]]].
  - destruct (conversationAnswer world input sellerUserId) as [payload|e];
      [|by_answer].
    destruct (extractErrorsPayloadMessage payload) eqn:Herrors; [by_answer|].
    destruct payload; [by_answer| | | | | |].
    all: destruct (firstCandidate _) as [id|] eqn:Hid;
      [apply firstCandidate_object in Hid as [? ?]; simplify_eq|];
      by_answer.
  - destruct (estimateAnswer world input amount currencyCode) as [payload|e];
      [|by_answer].
    destruct (extractErrorsPayloadMessage payload) eqn:Herrors; [by_answer|].
    destruct payload; by_answer.
  - destruct (world 0%nat (userRequest user)) as [payload|e]; [|by_answer].
    destruct (extractErrorsPayloadMessage payload) eqn:Herrors; [by_answer|].
    destruct payload; cbv zeta; by_answer.
Qed.

(** The fields other than the id that a catalog item must have. *)
Definition complete (raw : json) : Prop :=
  let value := Some raw in
  (exists url, Json.get value "url" = Some (JStr url) /\ url <> EmptyString)
  /\ (exists n, OAuth.asNumber (Json.get (Json.get value "user") "id") = Some n)
  /\ (exists s, Json.get (Json.get value "user") "login" = Some (JStr s))
  /\ (exists s, Json.get (Json.get value "user") "profile_url" = Some (JStr s))
  /\ (exists s, Json.get (Json.get value "price") "amount" = Some (JStr s))
  /\ (exists s, Json.get (Json.get value "price") "currency_code" = Some (JStr s)).

(** The id is a number that is not an integer. *)
Definition fractionalId (raw : json) : Prop :=
  Json.get (Some raw) "id" = Some JInf
  \/ exists q, Json.get (Some raw) "id" = Some (JNum q) /\ Json.isInteger q = false.

Definition integerId (raw : json) (id : Z) : Prop :=
  exists q, Json.get (Some raw) "id" = Some (JNum q) /\ Json.isInteger q = true
            /\ (q == inject_Z id)%Q.

Lemma asString_some value s : asString value = Some s <-> value = Some (JStr s).
Proof.
  destruct value as [[]|]; simpl; split; intros H; try discriminate; congruence.
Qed.

Lemma asString_none value s : asString value = None -> value <> Some (JStr s).
Proof. intros H ->. discriminate. Qed.

Lemma asNumber_cases value n :
  OAuth.asNumber value = Some n ->
  (value = Some JInf /\ n = OAuth.Infinite) \/ exists q, value = Some (JNum q) /\ n = OAuth.Finite q.
Proof.
  destruct value as [[]|]; simpl; intros H; try discriminate; simplify_eq; eauto.
Qed.

Lemma isInteger_value q : Json.isInteger q = true -> (q == inject_Z (Qnum (Qred q)))%Q.
Proof.
  unfold Json.isInteger. intros H. apply Z.eqb_eq in H.
  rewrite <- (Qred_correct q) at 1.
  destruct (Qred q) as [n d]. simpl in *. injection H as ->. reflexivity.
Qed.

Lemma complete_object raw : complete raw -> exists fields, raw = JObj fields.
Proof.
  intros ((url & Hurl & _) & _). destruct raw; try discriminate. now eexists.
Qed.

Lemma parseCatalogItem_cases raw :
  match parseCatalogItem raw with
  | Returns (Some item) =>
      complete raw /\ integerId raw (itemNumber item)
      /\ Json.get (Some raw) "url" = Some (JStr (itemUrl item))
      /\ Json.get (Json.get (Some raw) "price") "amount" = Some (JStr (amount (price item)))
      /\ Json.get (Json.get (Some raw) "price") "currency_code"
         = Some (JStr (currency_code (price item)))
      /\ OAuth.asNumber (Json.get (Json.get (Some raw) "user") "id")
         = Some (userNumber (Unguarded.user item))
      /\ Json.get (Json.get (Some raw) "user") "login"
         = Some (JStr (userLogin (Unguarded.user item)))
      /\ Json.get (Json.get (Some raw) "user") "profile_url"
         = Some (JStr (profile_url (Unguarded.user item)))
  | Returns None =>
      ~ (complete raw /\ exists n, OAuth.asNumber (Json.get (Some raw) "id") = Some n)
  | Throws _ => complete raw /\ fractionalId raw
  end.
Proof.
  unfold parseCatalogItem.
  destruct (negb _) eqn:Hobject.
  { intros (Hcomplete & _). apply complete_object in Hcomplete as (fields & ->).
    discriminate. }
  destruct (OAuth.asNumber (Json.get (Some raw) "id")) as [id|] eqn:Hid.
  2:{ intros (_ & n & H). discriminate. }
  destruct (asString (Json.get (Some raw) "url")) as [url|] eqn:Hurl.
  2:{ intros (((url' & H & _) & _) & _). rewrite H in Hurl. discriminate. }
  apply asString_some in Hurl.
  assert (Hempty : url = EmptyString -> ~ complete raw).
  { intros -> ((url' & H & Hne) & _). congruence. }
  destruct url as [|c url]; [intros (Hcomplete & _); now apply Hempty|]. clear Hempty.
  destruct (OAuth.asNumber (Json.get (Json.get (Some raw) "user") "id"))
    as [userId|] eqn:HuserId.
  2:{ intros ((_ & (n & H) & _) & _). congruence. }
  destruct (asString (Json.get (Json.get (Some raw) "user") "login"))
    as [loginText|] eqn:Hlogin.
  2:{ intros ((_ & _ & (s & H) & _) & _). rewrite H in Hlogin. discriminate. }
  destruct (asString (Json.get (Json.get (Some raw) "user") "profile_url"))
    as [profileText|] eqn:Hprofile.
  2:{ intros ((_ & _ & _ & (s & H) & _) & _). rewrite H in Hprofile. discriminate. }
  destruct (asString (Json.get (Json.get (Some raw) "price") "amount"))
    as [amountText|] eqn:Hamount.
  2:{ intros ((_ & _ & _ & _ & (s & H) & _) & _). rewrite H in Hamount. discriminate. }
  destruct (asString (Json.get (Json.get (Some raw) "price") "currency_code"))
    as [currencyText|] eqn:Hcurrency.
  2:{ intros ((_ & _ & _ & _ & _ & (s & H)) & _). rewrite H in Hcurrency. discriminate. }
  apply asString_some in Hlogin, Hprofile, Hamount, Hcurrency.
  assert (Hcomplete : complete raw).
  { unfold complete. cbv zeta. rewrite Hurl, HuserId, Hlogin, Hprofile, Hamount, Hcurrency.
    split; [eexists; split; [reflexivity|discriminate]|]. repeat split; eauto. }
  apply asNumber_cases in Hid as [(Hid & ->)|(q & Hid & ->)].
  { split; [exact Hcomplete|]. now left. }
  destruct (Json.isInteger q) eqn:Hinteger.
  - cbn [itemNumber itemUrl price amount currency_code Unguarded.user userNumber userLogin
         profile_url].
    split; [exact Hcomplete|].
    split; [exists q; split; [exact Hid|split; [exact Hinteger|now apply isInteger_value]]|].
    repeat split; assumption.
  - split; [exact Hcomplete|]. right. eauto.
Qed.

(** X24.  [parseCatalogItem] throws exactly when the raw item has every
    other required field (a non-empty url, the user's id, login and
    profile url, the amount and currency of the price) and an id that
    is a number but not an integer; an item that lacks a field, or
    whose id is not a number, gives null.  An item that is returned
    copies the id, the url, the price and the user from the raw item. *)
Theorem catalog_item_parsing (raw : json) :
  ((exists error, parseCatalogItem raw = Throws error) <-> complete raw /\ fractionalId raw)
  /\ (parseCatalogItem raw = Returns None
      <-> ~ (complete raw /\ exists n, OAuth.asNumber (Json.get (Some raw) "id") = Some n))
  /\ (forall item, parseCatalogItem raw = Returns (Some item) ->
        (exists fields, raw = JObj fields)
        /\ integerId raw (itemNumber item)
        /\ Json.get (Some raw) "url" = Some (JStr (itemUrl item))
        /\ itemUrl item <> EmptyString
        /\ Json.get (Json.get (Some raw) "price") "amount" = Some (JStr (amount (price item)))
        /\ Json.get (Json.get (Some raw) "price") "currency_code"
           = Some (JStr (currency_code (price item)))
        /\ OAuth.asNumber (Json.get (Json.get (Some raw) "user") "id")
           = Some (userNumber (Unguarded.user item))
        /\ Json.get (Json.get (Some raw) "user") "login"
           = Some (JStr (userLogin (Unguarded.user item)))
        /\ Json.get (Json.get (Some raw) "user") "profile_url"
           = Some (JStr (profile_url (Unguarded.user item)))).
Proof.
  pose proof (parseCatalogItem_cases raw) as Hcases.
  destruct (parseCatalogItem raw) as [[item|]|error].
  - destruct Hcases as (Hcomplete & (q & Hq & Hint & Hvalue) & Hurl & Hrest).
    split; [|split].
    + split; [intros (? & ?); discriminate|].
      intros (_ & [Hinf|(q' & Hq' & Hfrac)]); congruence.
    + split; [discriminate|]. intros H. exfalso. apply H. split; [exact Hcomplete|].
      rewrite Hq. now eexists.
    + intros ? [= <-]. split; [now apply complete_object|].
      split; [now exists q|]. split; [exact Hurl|]. split; [|exact Hrest].
      destruct Hcomplete as ((url & Hurl' & Hne) & _). congruence.
  - split; [|split].
    + split; [intros (? & ?); discriminate|].
      intros (Hcomplete & [Hinf|(q & Hq & _)]); exfalso; apply Hcases;
        (split; [exact Hcomplete|]); [rewrite Hinf|rewrite Hq]; now eexists.
    + tauto.
    + discriminate.
  - split; [|split].
    + split; [intros _; exact Hcases|]. intros _. now eexists.
    + split; [discriminate|]. intros H. exfalso. apply H.
      destruct Hcases as (Hcomplete & [Hinf|(q & Hq & _)]);
        (split; [exact Hcomplete|]); [rewrite Hinf|rewrite Hq]; now eexists.
    + discriminate.
Qed.

End WithPlatform.
End UnguardedFacts.
